(** * The Ollama / MCP tool-calling agent (clients/ollama-ts)

    A shallow embedding of [ollamaApp.ts] and [mcpClient.ts]: the chat
    transport ([OllamaAPIClient]), the tool catalog ([ToolManager]), the
    agent ([OllamaAgent]), the dispatch function [executeFunction], the
    recursive turn processing [processFunctionCall], the interactive loop
    [interactiveChat] and the gateway to the tool provider ([MCPClient]).

    Conventions.
    - Values that the program handles at type [any] (whatever [JSON.parse]
      produced) are modelled by [jsval], with the ECMAScript rules for
      truthiness, [typeof], property reads and string conversion written out.
    - A JavaScript exception is the [Throw] case of [completion]; a
      [try]/[catch] block is [try_eff], and the state a block had reached
      when it threw is the state its handler starts from.
    - Everything outside the program (the chat backend behind [fetch], the MCP
      SDK client, [JSON.parse]/[JSON.stringify]) is a field of a record the
      development is parametrised by; the state of the outside world is an
      abstract type threaded through every call.
    - [messages] is the one mutable array of the session; it is a field of
      the state and [push] appends at its end.
    - [processFunctionCall] recurses without bound: the model takes fuel,
      one unit per level, and says so when it runs out.
    - Of the console output the model keeps the lines that tell outcomes
      apart: [logger.error], [logger.warning], [console.error] and
      [console.log]; the [info] and [debug] lines and [console.trace] print
      nothing the model records. What is kept of an [info] or [debug] line
      is the conversion to a string in its template literal, where the
      value converted is of type [any] and the conversion can throw.
    - The body of a 200 answer to [/api/tags] is taken at the shape the
      backend gives it, a [models] array of records with a string [name]:
      [listModels] is modelled by the list of these names, and what
      [interactiveChat] does with a body of another shape is outside the
      model.
    - The lines the user types are a list; [chat_loop] ends at an exit
      command, and also when the list is used up, where the program would
      wait for the next line: such a run is the program's up to that
      point. *)

From Stdlib Require Import ZArith Ascii String Sorted.
From stdpp Require Import base option list strings pretty.

Set Warnings "-register-all".

Local Open Scope string_scope.
Local Open Scope list_scope.

(** ** JavaScript values and exceptions *)

Inductive jsval : Type :=
| JUndefined
| JNull
| JBool (b : bool)
| JNum (n : Z)
| JStr (s : string)
| JArr (elems : list jsval)
| JObj (props : list (string * jsval)).

(** Thrown values are [Error] objects: a constructor name and a message. *)
Record JsError : Type := MkJsError { err_name : string; err_message : string }.

Inductive completion (A : Type) : Type :=
| Normal (a : A)
| Throw (e : JsError).
Arguments Normal {A} a.
Arguments Throw {A} e.

Global Instance completion_ret : MRet completion := λ A a, Normal a.
Global Instance completion_bind : MBind completion := λ A B f c,
  match c with
  | Normal a => f a
  | Throw e => Throw e
  end.

Definition Error (message : string) : JsError := MkJsError "Error" message.
Definition TypeError (message : string) : JsError := MkJsError "TypeError" message.
Definition SyntaxError (message : string) : JsError := MkJsError "SyntaxError" message.

(** [`${error}`]: [Error.prototype.toString]. *)
Definition error_to_string (e : JsError) : string :=
  if decide (err_name e = "") then err_message e
  else if decide (err_message e = "") then err_name e
  else err_name e +:+ ": " +:+ err_message e.

(** [if (v)], [!v], [v && w], [v || w] all go through ToBoolean. *)
Definition truthy (v : jsval) : bool :=
  match v with
  | JUndefined | JNull => false
  | JBool b => b
  | JNum n => negb (Z.eqb n 0)
  | JStr s => negb (String.eqb s "")
  | JArr _ | JObj _ => true
  end.

(** [typeof v === 'object'] *)
Definition typeof_object (v : jsval) : bool :=
  match v with
  | JNull | JArr _ | JObj _ => true
  | _ => false
  end.

(** Own properties of an object literal; the first binding of a key counts. *)
Fixpoint own_prop (props : list (string * jsval)) (key : string) : option jsval :=
  match props with
  | [] => None
  | (k, v) :: rest => if String.eqb k key then Some v else own_prop rest key
  end.

(** [v.key] for the property names this program reads ([message],
    [tool_calls], [content], [function], [name], [arguments]); none of them
    is defined on a builtin prototype, so only objects can hold them, and a
    read on [undefined] or [null] throws. *)
Definition get_prop (v : jsval) (key : string) : completion jsval :=
  match v with
  | JUndefined =>
      Throw (TypeError ("Cannot read properties of undefined (reading '" +:+ key +:+ "')"))
  | JNull =>
      Throw (TypeError ("Cannot read properties of null (reading '" +:+ key +:+ "')"))
  | JObj props =>
      Normal match own_prop props key with
             | Some v => v
             | None => JUndefined
             end
  | _ => Normal JUndefined
  end.

(** [v[0]] on a value already known not to be [undefined] or [null]. *)
Definition get_index0 (v : jsval) : completion jsval :=
  match v with
  | JUndefined | JNull => get_prop v "0"
  | JArr (x :: _) => Normal x
  | JStr (String c _) => Normal (JStr (String c ""))
  | JObj _ => get_prop v "0"
  | _ => Normal JUndefined
  end.

(** ** Strings: [trim] and [split('\n')] *)

Module JsString.

Definition LF : ascii := "010"%char.

(** WhiteSpace and LineTerminator code points, in UTF-8. *)
Definition white_space : list string :=
  [ String "009" ""; String "010" ""; String "011" ""; String "012" "";
    String "013" ""; String "032" "";
    String "194" (String "160" "");
    String "225" (String "154" (String "128" ""));
    String "226" (String "128" (String "128" ""));
    String "226" (String "128" (String "129" ""));
    String "226" (String "128" (String "130" ""));
    String "226" (String "128" (String "131" ""));
    String "226" (String "128" (String "132" ""));
    String "226" (String "128" (String "133" ""));
    String "226" (String "128" (String "134" ""));
    String "226" (String "128" (String "135" ""));
    String "226" (String "128" (String "136" ""));
    String "226" (String "128" (String "137" ""));
    String "226" (String "128" (String "138" ""));
    String "226" (String "128" (String "168" ""));
    String "226" (String "128" (String "169" ""));
    String "226" (String "128" (String "175" ""));
    String "226" (String "129" (String "159" ""));
    String "227" (String "128" (String "128" ""));
    String "239" (String "187" (String "191" "")) ].

Fixpoint strip (pre s : string) : option string :=
  match pre, s with
  | "", _ => Some s
  | String a pre', String b s' => if Ascii.eqb a b then strip pre' s' else None
  | String _ _, "" => None
  end.

Fixpoint strip_any (pres : list string) (s : string) : option string :=
  match pres with
  | [] => None
  | p :: rest => match strip p s with Some s' => Some s' | None => strip_any rest s end
  end.

Fixpoint strip_all (fuel : nat) (pres : list string) (s : string) : string :=
  match fuel with
  | O => s
  | S fuel' =>
      match strip_any pres s with
      | Some s' => strip_all fuel' pres s'
      | None => s
      end
  end.

Definition trimStart (s : string) : string :=
  strip_all (String.length s) white_space s.

Definition trimEnd (s : string) : string :=
  String.rev (strip_all (String.length s) (String.rev <$> white_space) (String.rev s)).

Definition trim (s : string) : string := trimEnd (trimStart s).

(** [s.split('\n')] *)
Fixpoint split_lines (s : string) : list string :=
  match s with
  | "" => [""]
  | String c rest =>
      if Ascii.eqb c LF then "" :: split_lines rest
      else match split_lines rest with
           | first :: more => String c first :: more
           | [] => [String c ""]
           end
  end.

(** [s.startsWith(p)] and [s.substring(n)] *)
Definition startsWith (s p : string) : bool := bool_decide (is_Some (strip p s)).

Fixpoint substring_from (n : nat) (s : string) : string :=
  match n, s with
  | O, _ => s
  | S n', String _ s' => substring_from n' s'
  | S _, "" => ""
  end.

End JsString.

(** ** Data model ([MessageType], [ToolCall], [ToolDefinition]) *)

Inductive MessageRole : Type := SYSTEM | USER | ASSISTANT | TOOL.

Global Instance MessageRole_eq_dec : EqDecision MessageRole.
Proof. solve_decision. Defined.

(** [{ id, function: { name, arguments } }]; [name] and [arguments] come
    from the decoded response and stay at type [any]. *)
Record ToolCall : Type := {
  call_id : string;
  call_function_name : jsval;
  call_function_arguments : jsval
}.

(** Absent optional fields are [None]; [content] is [string | null]. *)
Record MessageType : Type := {
  role : MessageRole;
  content : option string;
  tool_calls : option (list ToolCall);
  tool_call_id : option string;
  name : option jsval
}.

(** [{ type, function: { name, description, parameters } }] *)
Record ToolDefinition : Type := {
  tool_type : string;
  tool_function_name : string;
  tool_function_description : string;
  tool_function_parameters : jsval
}.

(** The catalog the MCP SDK returns from [listTools()], which the SDK
    validates against its schema before handing it over. *)
Record McpTool : Type := {
  mcp_name : string;
  mcp_description : option string;
  mcp_inputSchema : option jsval
}.

Record ListToolsResult : Type := { tools : list McpTool }.

(** What [chat] resolves to: a string, or
    [{ type: "function_call", function_call }]. *)
Inductive ChatResult : Type :=
| TextResult (text : string)
| InvocationResult (function_call : jsval).

(** The body of the POST to [/api/chat]: [{ model, messages, stream: false }],
    [tools] when given, and the [options] merged in by [Object.assign]. *)
Record ChatRequest : Type := {
  req_model : string;
  req_messages : list MessageType;
  req_tools : option (list ToolDefinition);
  req_options : option (list (string * jsval))
}.

(** A response of [fetch]: its status and the outcome of
    [await response.text()]. *)
Record HttpResponse : Type := {
  status : nat;
  text : completion string
}.

(** Observable effects, in the order they happen. *)
Inductive Event : Type :=
| LogError (text : string)
| LogWarning (text : string)
| ConsoleLog (text : string)
| ConsoleError (text : string)
| ChatSent (req : ChatRequest)
| ToolCalled (toolName : string) (args : jsval)
| ProcessExit (code : nat).

(** ** The outside world *)

Class Externals (Env : Type) : Type := {
  (** [JSON.parse] of a line or of an argument string. *)
  JSON_parse : string → completion jsval;
  (** [JSON.stringify] of a value other than [undefined]. *)
  JSON_stringify : jsval → string;
  (** [Number::toString] of the runtime, on the number whose value is the
      integer given. *)
  Number_toString : Z → string;
  (** [fetch(baseUrl + "/api/chat", ...)], which may reject. *)
  fetch_chat : Env → ChatRequest → Env * completion HttpResponse;
  (** [fetch(baseUrl + "/api/tags")]: the status, and the outcome of
      [response.json()] as the names of [data.models || []]. *)
  fetch_tags : Env → Env * completion (nat * completion (list string));
  (** [new StdioClientTransport(serverParams)] *)
  sdk_new_transport : Env → Env * completion ();
  (** [new Client(...)] *)
  sdk_new_client : Env → Env * completion ();
  (** [client.connect(transport)] *)
  sdk_client_connect : Env → Env * completion ();
  (** [client.close()] *)
  sdk_client_close : Env → Env * completion ();
  (** [client.listTools()] *)
  sdk_listTools : Env → Env * completion ListToolsResult;
  (** [client.callTool({ name, arguments })] *)
  sdk_callTool : Env → string → jsval → Env * completion jsval
}.

(** [JSON.stringify(v)] is [undefined] on [undefined]. *)
Definition JSON_stringify_any `{Externals Env} (v : jsval) : option string :=
  match v with
  | JUndefined => None
  | _ => Some (JSON_stringify v)
  end.

(** The error of a conversion to a primitive value that finds no method to
    call. *)
Definition cannot_convert : JsError :=
  TypeError "Cannot convert object to primitive value".

(** ToString, as applied by template literals, and by [+] and [+=] with a
    string on the left. The values are those of JSON texts, so none of them
    holds a function. An object with an own [toString] key cannot be
    converted: the value of the key is not callable, and the [valueOf] it
    inherits, or holds, gives no primitive value; every other object is
    converted by [Object.prototype.toString]. An array is converted by
    [join], which converts its elements in turn. *)
Fixpoint ToString `{Externals Env} (v : jsval) : completion string :=
  match v with
  | JUndefined => Normal "undefined"
  | JNull => Normal "null"
  | JBool true => Normal "true"
  | JBool false => Normal "false"
  | JNum n => Normal (Number_toString n)
  | JStr s => Normal s
  | JArr elems =>
      (fix join (l : list jsval) : completion string :=
         match l with
         | [] => Normal ""
         | x :: rest =>
             match (match x with
                    | JUndefined | JNull => Normal ""
                    | _ => ToString x
                    end) with
             | Throw e => Throw e
             | Normal sx =>
                 match rest with
                 | [] => Normal sx
                 | _ :: _ =>
                     match join rest with
                     | Throw e => Throw e
                     | Normal srest => Normal (sx +:+ "," +:+ srest)
                     end
                 end
             end
         end) elems
  | JObj props =>
      match own_prop props "toString" with
      | Some _ => Throw cannot_convert
      | None => Normal "[object Object]"
      end
  end.

(** [a && b] *)
Definition js_and (a : jsval) (b : completion jsval) : completion jsval :=
  if truthy a then b else Normal a.

(** ** Chat transport: decoding ([OllamaAPIClient._processResponse]) *)

Section Decoder.
Context `{Externals Env}.

(** One turn of the [for] loop either leaves the function or goes on with
    the accumulated text. *)
Inductive LoopStep : Type :=
| Return (result : ChatResult)
| Continue (fullResponse : string).

(** The first [if] of the [try] block: the call to return, if any. *)
Definition function_call_of (respJson : jsval) : completion (option jsval) :=
  message ← get_prop respJson "message";
  has_calls ← js_and message (get_prop message "tool_calls");
  if truthy has_calls then
    message ← get_prop respJson "message";
    tool_calls ← get_prop message "tool_calls";
    functionCall ← get_index0 tool_calls;
    mret (if truthy functionCall then Some functionCall else None)
  else mret None.

(** The second [if] of the [try] block: the text after this line. *)
Definition accumulate (respJson : jsval) (fullResponse : string) : completion string :=
  message ← get_prop respJson "message";
  has_content ← js_and message (get_prop message "content");
  if truthy has_content then
    message ← get_prop respJson "message";
    content ← get_prop message "content";
    if truthy content then
      fragment ← ToString content;
      mret (fullResponse +:+ fragment)
    else mret fullResponse
  else mret fullResponse.

(** The body of the [try] block, for one line. *)
Definition decode_line (line fullResponse : string) : completion LoopStep :=
  respJson ← JSON_parse line;
  found ← function_call_of respJson;
  match found with
  | Some functionCall => mret (Return (InvocationResult functionCall))
  | None =>
      fullResponse' ← accumulate respJson fullResponse;
      mret (Continue fullResponse')
  end.

(** The [for (const line of lines)] loop; a line whose [try] block throws is
    reported and skipped. *)
Fixpoint decode_lines (lines : list string) (fullResponse : string)
  : ChatResult * list Event :=
  match lines with
  | [] => (TextResult fullResponse, [])
  | line :: rest =>
      match decode_line line fullResponse with
      | Normal (Return result) => (result, [])
      | Normal (Continue fullResponse') => decode_lines rest fullResponse'
      | Throw _ =>
          let '(result, log) := decode_lines rest fullResponse in
          (result, LogError ("Error al decodificar la respuesta: " +:+ line) :: log)
      end
  end.

Definition response_lines (responseText : string) : list string :=
  JsString.split_lines (JsString.trim responseText).

Definition _processResponse (responseText : string) : ChatResult * list Event :=
  decode_lines (response_lines responseText) "".

End Decoder.

(** ** Program state and effects *)

Inductive Client : Type := SdkClient.
Inductive StdioClientTransport : Type := SdkTransport.

(** The fields the program mutates, the outside world, and what has been
    observed so far.  [client] and [transport] are the private fields of
    [MCPClient]; [builtInTools] belongs to the agent's [ToolManager];
    [toolsMCP] is the agent's cached remote catalog; [messages] is the array
    created by [interactiveChat]. *)
Record State (Env : Type) : Type := {
  env : Env;
  client : option Client;
  transport : option StdioClientTransport;
  builtInTools : list ToolDefinition;
  toolsMCP : option ListToolsResult;
  messages : list MessageType;
  trace : list Event
}.
Arguments env {Env} _.
Arguments client {Env} _.
Arguments transport {Env} _.
Arguments builtInTools {Env} _.
Arguments toolsMCP {Env} _.
Arguments messages {Env} _.
Arguments trace {Env} _.

(** A computation may change the state and may throw. *)
Definition Eff (Env A : Type) : Type := State Env → completion A * State Env.

Global Instance Eff_ret {Env} : MRet (Eff Env) := λ A a st, (Normal a, st).
Global Instance Eff_bind {Env} : MBind (Eff Env) := λ A B f m st,
  match m st with
  | (Normal a, st') => f a st'
  | (Throw e, st') => (Throw e, st')
  end.

Section Effects.
Context {Env : Type}.

Definition throw {A} (e : JsError) : Eff Env A := λ st, (Throw e, st).

Definition lift {A} (c : completion A) : Eff Env A := λ st, (c, st).

(** [try { body } catch (error) { handler }]: the state reached when the
    body threw is the one the handler starts from. *)
Definition try_eff {A} (body : Eff Env A) (handler : JsError → Eff Env A) : Eff Env A :=
  λ st, match body st with
        | (Normal a, st') => (Normal a, st')
        | (Throw e, st') => handler e st'
        end.

(** [try { body } finally { final }] *)
Definition try_finally {A} (body : Eff Env A) (final : Eff Env ()) : Eff Env A :=
  λ st, match body st with
        | (result, st') =>
            match final st' with
            | (Normal _, st'') => (result, st'')
            | (Throw e, st'') => (Throw e, st'')
            end
        end.

Definition gets {A} (f : State Env → A) : Eff Env A := λ st, (Normal (f st), st).

Definition external {A} (op : Env → Env * completion A) : Eff Env A :=
  λ st, let '(env', r) := op (env st) in
        (r, {| env := env'; client := client st; transport := transport st;
               builtInTools := builtInTools st; toolsMCP := toolsMCP st;
               messages := messages st; trace := trace st |}).

Definition emit (ev : Event) : Eff Env () :=
  λ st, (Normal (),
         {| env := env st; client := client st; transport := transport st;
            builtInTools := builtInTools st; toolsMCP := toolsMCP st;
            messages := messages st; trace := trace st ++ [ev] |}).

Fixpoint emit_all (evs : list Event) : Eff Env () :=
  match evs with
  | [] => mret ()
  | ev :: rest => emit ev;; emit_all rest
  end.

Definition set_client (c : option Client) : Eff Env () :=
  λ st, (Normal (),
         {| env := env st; client := c; transport := transport st;
            builtInTools := builtInTools st; toolsMCP := toolsMCP st;
            messages := messages st; trace := trace st |}).

Definition set_transport (t : option StdioClientTransport) : Eff Env () :=
  λ st, (Normal (),
         {| env := env st; client := client st; transport := t;
            builtInTools := builtInTools st; toolsMCP := toolsMCP st;
            messages := messages st; trace := trace st |}).

Definition set_toolsMCP (t : option ListToolsResult) : Eff Env () :=
  λ st, (Normal (),
         {| env := env st; client := client st; transport := transport st;
            builtInTools := builtInTools st; toolsMCP := t;
            messages := messages st; trace := trace st |}).

Definition set_messages (ms : list MessageType) : Eff Env () :=
  λ st, (Normal (),
         {| env := env st; client := client st; transport := transport st;
            builtInTools := builtInTools st; toolsMCP := toolsMCP st;
            messages := ms; trace := trace st |}).

(** [messages.push(m)] *)
Definition push (m : MessageType) : Eff Env () :=
  λ st, set_messages (messages st ++ [m]) st.

(** [logger.error], [logger.warning], [console.log], [console.error]. The
    [info] and [debug] lines of the logger leave no event. *)
Definition logger_error (text : string) : Eff Env () := emit (LogError text).
Definition logger_warning (text : string) : Eff Env () := emit (LogWarning text).
Definition console_log (text : string) : Eff Env () := emit (ConsoleLog text).
Definition console_error (text : string) : Eff Env () := emit (ConsoleError text).

End Effects.

(** The messages the program pushes. *)
Definition assistant_call_message (functionCallId : string) (functionName arguments : jsval)
  : MessageType :=
  {| role := ASSISTANT;
     content := None;
     tool_calls := Some [ {| call_id := functionCallId;
                             call_function_name := functionName;
                             call_function_arguments := arguments |} ];
     tool_call_id := None;
     name := None |}.

Definition tool_result_message (functionCallId : string) (functionName : jsval)
    (functionResult : string) : MessageType :=
  {| role := TOOL;
     content := Some functionResult;
     tool_calls := None;
     tool_call_id := Some functionCallId;
     name := Some functionName |}.

(** The line printed for a reply of the model. *)
Definition reply_line (modelName text : string) : string :=
  String JsString.LF (modelName +:+ ": " +:+ text).

Definition text_message (r : MessageRole) (text : string) : MessageType :=
  {| role := r; content := Some text; tool_calls := None;
     tool_call_id := None; name := None |}.

(** ["call_" + messages.length] *)
Definition call_id_at (length : nat) : string := "call_" +:+ pretty length.

(** ** The program *)

Definition DEFAULT_MODEL : string := "mistral:latest".

(** [["/salir", "/exit", "/quit"].includes(userMessage.toLowerCase())]; only
    the letters A-Z can be lowered to the ASCII letters of the three commands. *)
Definition lower (c : ascii) : ascii :=
  let n := nat_of_ascii c in
  if bool_decide (65 ≤ n ≤ 90)%nat then ascii_of_nat (n + 32) else c.

Fixpoint toLowerCase (s : string) : string :=
  match s with
  | "" => ""
  | String c rest => String (lower c) (toLowerCase rest)
  end.

Definition is_exit_command (userMessage : string) : bool :=
  bool_decide (toLowerCase userMessage ∈ ["/salir"; "/exit"; "/quit"]).

(** [s.includes(sub)] *)
Fixpoint includes (s sub : string) : bool :=
  JsString.startsWith s sub ||
  match s with
  | "" => false
  | String _ rest => includes rest sub
  end.

(** How a run of the model ended: the code returned, or the recursion of
    [processFunctionCall] went deeper than the fuel given. *)
Inductive Outcome : Type := Finished | OutOfFuel.

Inductive SetupOutcome : Type := SetupDone | Exited (code : nat).

Section Program.
Context `{Externals Env}.

(** *** [OllamaAPIClient] *)

Definition checkConnection : Eff Env bool :=
  try_eff
    ('(status, _) ← external fetch_tags;
     if decide (status ≠ 200)
     then throw (Error ("Error al conectarse: " +:+ pretty status))
     else mret true)
    (λ error,
       throw (Error ("No se pudo conectar al servidor de Ollama: " +:+ err_message error))).

Definition listModels : Eff Env (list string) :=
  try_eff
    ('(status, data) ← external fetch_tags;
     if decide (status = 200)
     then lift data
     else logger_error ("Error al obtener modelos: " +:+ pretty status);; mret [])
    (λ error,
       logger_error ("Error al listar modelos: " +:+ error_to_string error);; mret []).

(** The [try] block of [OllamaAPIClient.chat]. *)
Definition chat_request (data : ChatRequest) : Eff Env ChatResult :=
  emit (ChatSent data);;
  response ← external (λ e, fetch_chat e data);
  if decide (status response ≠ 200) then
    logger_error ("Error en la conversación: " +:+ pretty (status response));;
    responseText ← lift (text response);
    logger_error ("Respuesta: " +:+ responseText);;
    mret (TextResult "")
  else
    responseText ← lift (text response);
    let '(result, log) := _processResponse responseText in
    emit_all log;;
    mret result.

Definition OllamaAPIClient_chat (model : string) (messages : list MessageType)
    (tools : option (list ToolDefinition)) (options : option (list (string * jsval)))
  : Eff Env ChatResult :=
  let data := {| req_model := model; req_messages := messages;
                 req_tools := tools; req_options := options |} in
  try_eff (chat_request data)
    (λ error,
       logger_error ("Error al chatear: " +:+ error_to_string error);;
       mret (TextResult "")).

(** *** [ToolManager] *)

(** The record pushed for one MCP tool. *)
Definition ollama_tool (mcpTool : McpTool) : ToolDefinition :=
  {| tool_type := "function";
     tool_function_name := "mcp_" +:+ mcp_name mcpTool;
     tool_function_description :=
       match mcp_description mcpTool with
       | Some d => if String.eqb d "" then "MCP tool: " +:+ mcp_name mcpTool else d
       | None => "MCP tool: " +:+ mcp_name mcpTool
       end;
     tool_function_parameters :=
       match mcp_inputSchema mcpTool with
       | Some schema => if truthy schema then schema else JObj [("type", JStr "object")]
       | None => JObj [("type", JStr "object")]
       end |}.

Definition getAllTools (builtIn : list ToolDefinition) (mcpTools : option ListToolsResult)
  : list ToolDefinition :=
  match mcpTools with
  | Some catalog =>
      foldl (λ pushed mcpTool, pushed ++ [ollama_tool mcpTool]) builtIn (tools catalog)
  | None => builtIn
  end.

(** *** [MCPClient] *)

Definition MCPClient_disconnect : Eff Env () :=
  try_eff
    (c ← gets client;
     match c with
     | Some _ => external sdk_client_close;; set_client None
     | None => mret ()
     end;;
     set_transport None;;
     console_log "Desconexión exitosa del servidor MCP")
    (λ e, console_error ("Error durante la desconexión: " +:+ error_to_string e)).

(** The [try] block of [connect]. *)
Definition connect_steps : Eff Env bool :=
  external sdk_new_transport;;
  set_transport (Some SdkTransport);;
  external sdk_new_client;;
  set_client (Some SdkClient);;
  external sdk_client_connect;;
  console_log "Conexión exitosa con servidor MCP";;
  mret true.

Definition MCPClient_connect : Eff Env bool :=
  try_eff connect_steps
    (λ e,
       (if includes (err_message e) "connect"
        then console_error ("Error de conexión con servidor MCP: " +:+ error_to_string e)
        else console_error ("Error desconocido al conectar con servidor MCP: "
                            +:+ error_to_string e));;
       MCPClient_disconnect;;
       mret false).

Definition not_connected : JsError := Error "Cliente no conectado. Llama a connect() primero".

Definition MCPClient_listTools : Eff Env ListToolsResult :=
  c ← gets client;
  match c with
  | None => throw not_connected
  | Some _ =>
      try_eff (external sdk_listTools)
        (λ e, console_error ("Error al listar herramientas: " +:+ error_to_string e);;
              throw e)
  end.

Definition MCPClient_executeTool (toolName : string) (args : jsval) : Eff Env jsval :=
  c ← gets client;
  match c with
  | None => throw not_connected
  | Some _ =>
      try_eff
        (emit (ToolCalled toolName args);;
         external (λ e, sdk_callTool e toolName args))
        (λ e, console_error ("Error al ejecutar herramienta " +:+ toolName +:+ ": "
                             +:+ error_to_string e);;
              throw e)
  end.

(** *** [OllamaAgent] *)

Definition setup : Eff Env SetupOutcome :=
  reachable ← try_eff (checkConnection;; mret true)
    (λ error,
       logger_error ("❌ Error al conectarse a Ollama: " +:+ error_to_string error);;
       logger_error "Asegúrate de que Ollama esté instalado y ejecutándose";;
       emit (ProcessExit 1);;
       mret false);
  if reachable : bool then
    try_eff
      (connected ← MCPClient_connect;
       if connected : bool then
         listed ← MCPClient_listTools;
         set_toolsMCP (Some listed)
       else mret ())
      (λ error,
         logger_error ("❌ Error al conectarse al servidor MCP: " +:+ error_to_string error);;
         set_toolsMCP None);;
    mret SetupDone
  else mret (Exited 1).

Definition cleanup : Eff Env () := MCPClient_disconnect.

Definition tools_not_available : JsError :=
  Error "MCP Client not connected or tools not available".

Definition executeMcpTool (toolName : string) (args : jsval) : Eff Env jsval :=
  cached ← gets toolsMCP;
  match cached with
  | None => throw tools_not_available
  | Some _ =>
      try_eff (MCPClient_executeTool toolName args)
        (λ error,
           logger_error ("Error executing MCP tool " +:+ toolName +:+ ": "
                         +:+ error_to_string error);;
           throw error)
  end.

Definition OllamaAgent_chat (model : string) (messages : list MessageType)
    (options : option (list (string * jsval))) : Eff Env ChatResult :=
  builtIn ← gets builtInTools;
  cached ← gets toolsMCP;
  OllamaAPIClient_chat model messages (Some (getAllTools builtIn cached)) options.

(** *** [executeFunction] *)

(** [functionName.startsWith("mcp_")] on a value of type [any]: only strings
    have the method. *)
Definition startsWith_any (functionName : jsval) (p : string) : completion bool :=
  match functionName with
  | JStr s => Normal (JsString.startsWith s p)
  | JUndefined =>
      Throw (TypeError "Cannot read properties of undefined (reading 'startsWith')")
  | JNull => Throw (TypeError "Cannot read properties of null (reading 'startsWith')")
  | _ => Throw (TypeError "functionName.startsWith is not a function")
  end.

(** [functionName.substring(start)], likewise. *)
Definition substring_any (functionName : jsval) (start : nat) : completion string :=
  match functionName with
  | JStr s => Normal (JsString.substring_from start s)
  | JUndefined =>
      Throw (TypeError "Cannot read properties of undefined (reading 'substring')")
  | JNull => Throw (TypeError "Cannot read properties of null (reading 'substring')")
  | _ => Throw (TypeError "functionName.substring is not a function")
  end.

(** The template literal of the outer [catch] converts [functionName]
    before anything is logged: when the conversion throws, the error leaves
    the function. *)
Definition executeFunction (functionName functionArgs : jsval) : Eff Env (option string) :=
  try_eff
    (is_mcp ← lift (startsWith_any functionName "mcp_");
     if is_mcp : bool then
       actualToolName ← lift (substring_any functionName 4);
       try_eff
         (result ← executeMcpTool actualToolName functionArgs;
          mret (JSON_stringify_any result))
         (λ error,
            mret (Some ("Error ejecutando la herramienta MCP " +:+ actualToolName +:+ ": "
                        +:+ error_to_string error)))
     else
       nameText ← lift (ToString functionName);
       mret (Some ("Función " +:+ nameText +:+ " no implementada")))
    (λ error,
       nameText ← lift (ToString functionName);
       logger_error ("Error ejecutando la función " +:+ nameText +:+ ": "
                     +:+ error_to_string error);;
       mret (Some ("Error ejecutando la función: " +:+ error_to_string error))).

(** *** [processFunctionCall] *)

(** The [try]/[catch] that normalises the arguments: an object is taken as
    it is, anything else goes through [JSON.parse], which converts its
    argument to a string; on failure the initial [{}] stays. The [try] block
    first converts the arguments for the template literal of
    [logger.debug], and the [catch] block converts them again for the one
    of [logger.error]: arguments that cannot be converted throw in both, and
    the second error leaves the [catch] block before anything is logged. *)
Definition parse_arguments (function : jsval) : Eff Env jsval :=
  try_eff
    (functionArgsStr ← lift (get_prop function "arguments");
     lift (ToString functionArgsStr);;
     if typeof_object functionArgsStr then mret functionArgsStr
     else
       text ← lift (ToString functionArgsStr);
       lift (JSON_parse text))
    (λ error,
       arguments ← lift (get_prop function "arguments");
       text ← lift (ToString arguments);
       logger_error ("Error decodificando argumentos JSON: " +:+ text);;
       mret (JObj [])).

(** The [arguments] written into the assistant message. *)
Definition encoded_arguments (arguments : jsval) : jsval :=
  if typeof_object arguments then arguments
  else match JSON_stringify_any arguments with
       | Some s => JStr s
       | None => JUndefined
       end.

(** The result put in place of a [null] or [undefined] one. *)
Definition default_result : string :=
  "Error: Función no implementada o falló la ejecución".

(** The [try] block of [processFunctionCall] from its first statement to the
    second [push]: read the invocation, normalise its arguments, make the
    id, convert the name for the template literal of [logger.info], run the
    tool, and record the invocation and its result. *)
Definition run_tool_call (function_call : jsval) : Eff Env () :=
  let functionCall := function_call in
  function ← lift (get_prop functionCall "function");
  functionName ← lift (get_prop function "name");
  functionArgs ← parse_arguments function;
  history ← gets messages;
  let functionCallId := call_id_at (length history) in
  lift (ToString functionName);;
  executed ← executeFunction functionName functionArgs;
  functionResult ←
    match executed with
    | Some functionResult => mret functionResult
    | None =>
        nameText ← lift (ToString functionName);
        logger_error ("Error: Función " +:+ nameText +:+ " no implementada");;
        mret default_result
    end;
  arguments ← lift (get_prop function "arguments");
  push (assistant_call_message functionCallId functionName (encoded_arguments arguments));;
  push (tool_result_message functionCallId functionName functionResult).

(** One level of recursion uses one unit of fuel. *)
Fixpoint processFunctionCall (fuel : nat) (modelName : string) (function_call : jsval)
  : Eff Env Outcome :=
  match fuel with
  | O => mret OutOfFuel
  | S fuel' =>
      try_eff
        (run_tool_call function_call;;
         history ← gets messages;
         finalResponse ← OllamaAgent_chat modelName history None;
         match finalResponse with
         | InvocationResult next_call => processFunctionCall fuel' modelName next_call
         | TextResult finalText =>
             console_log (reply_line modelName finalText);;
             push (text_message ASSISTANT finalText);;
             mret Finished
         end)
        (λ error,
           logger_error ("Error procesando la llamada a función: " +:+ error_to_string error);;
           mret Finished)
  end.

(** *** [interactiveChat] *)

Definition system_prompt : string :=
  "Eres un agente que consultará las tools que están disponibles en la conversación".

(** The [while (true)] loop over the lines the user types; it ends at an
    exit command, or when no line is left. *)
Fixpoint chat_loop (fuel : nat) (modelName : string) (inputs : list string)
  : Eff Env Outcome :=
  match inputs with
  | [] => mret Finished
  | userMessage :: rest =>
      if is_exit_command userMessage then mret Finished
      else
        push (text_message USER userMessage);;
        history ← gets messages;
        response ← OllamaAgent_chat modelName history None;
        match response with
        | InvocationResult function_call =>
            outcome ← processFunctionCall fuel modelName function_call;
            match outcome with
            | Finished => chat_loop fuel modelName rest
            | OutOfFuel => mret OutOfFuel
            end
        | TextResult text =>
            if String.eqb text "" then
              logger_error "No se pudo obtener una respuesta del modelo";;
              chat_loop fuel modelName rest
            else
              console_log (reply_line modelName text);;
              push (text_message ASSISTANT text);;
              chat_loop fuel modelName rest
        end
  end.

(** The choice of the model: the default one if it is installed, else the
    first one listed, else none. *)
Definition select_model (models : list string) : Eff Env (option string) :=
  if bool_decide (DEFAULT_MODEL ∈ models) then mret (Some DEFAULT_MODEL)
  else
    logger_warning ("El modelo '" +:+ DEFAULT_MODEL +:+ "' no está disponible localmente.");;
    match models with
    | first :: _ => mret (Some first)
    | [] => logger_error "No hay modelos disponibles. Saliendo.";; mret None
    end.

Definition interactiveChat (fuel : nat) (inputs : list string) : Eff Env Outcome :=
  models ← listModels;
  selected ← select_model models;
  match selected with
  | None => mret Finished
  | Some modelName =>
      set_messages [];;
      push (text_message SYSTEM system_prompt);;
      try_eff (chat_loop fuel modelName inputs)
        (λ error,
           logger_error ("Error en el chat: " +:+ error_to_string error);;
           mret Finished)
  end.

(** [main]: [setup] and [interactiveChat] run in a [try] whose [finally]
    block is [cleanup]; when [setup] has ended the process nothing more
    runs. *)
Definition main (fuel : nat) (inputs : list string) : Eff Env Outcome :=
  λ st, match setup st with
        | (Normal (Exited _), st') => (Normal Finished, st')
        | (Normal SetupDone, st') => try_finally (interactiveChat fuel inputs) cleanup st'
        | (Throw e, st') => try_finally (throw e) cleanup st'
        end.

End Program.

(** [new OllamaAgent()], before [setup] and before any chat. *)
Definition new_agent {Env} (world : Env) : State Env :=
  {| env := world; client := None; transport := None; builtInTools := [];
     toolsMCP := None; messages := []; trace := [] |}.

(** ** Vocabulary of the properties *)

(** *** Records of a chat response

    A line of the backend is a record [{ message?: { content?, tool_calls? } }]
    whose [content] is a string and whose [tool_calls] is a list of
    invocation objects. *)

Definition is_object (v : jsval) : bool :=
  match v with
  | JObj _ => true
  | _ => false
  end.

Definition is_chat_message (message : jsval) : bool :=
  match message with
  | JObj fields =>
      match own_prop fields "tool_calls" with
      | None | Some JNull => true
      | Some (JArr calls) => forallb is_object calls
      | Some _ => false
      end
      &&
      match own_prop fields "content" with
      | None | Some JNull | Some (JStr _) => true
      | Some _ => false
      end
  | _ => false
  end.

Definition is_chat_record (record : jsval) : bool :=
  match record with
  | JObj props =>
      match own_prop props "message" with
      | None | Some JNull => true
      | Some message => is_chat_message message
      end
  | _ => false
  end.

Definition record_message (record : jsval) : list (string * jsval) :=
  match record with
  | JObj props =>
      match own_prop props "message" with
      | Some (JObj fields) => fields
      | _ => []
      end
  | _ => []
  end.

(** The tool-invocation list a record carries, empty when it has none. *)
Definition record_invocations (record : jsval) : list jsval :=
  match own_prop (record_message record) "tool_calls" with
  | Some (JArr calls) => calls
  | _ => []
  end.

(** The content fragment of a record, empty when it has none. *)
Definition record_content (record : jsval) : string :=
  match own_prop (record_message record) "content" with
  | Some (JStr fragment) => fragment
  | _ => ""
  end.

(** The first invocation of the first record with a non-empty list. *)
Fixpoint first_invocation (records : list jsval) : option jsval :=
  match records with
  | [] => None
  | record :: rest =>
      match record_invocations record with
      | call :: _ => Some call
      | [] => first_invocation rest
      end
  end.

Definition concat_contents (records : list jsval) : string :=
  foldr (λ record acc, record_content record +:+ acc) "" records.

Section Parsed.
Context `{Externals Env}.


(** The lines that parse, parsed, in order. *)
Definition parsed_records (lines : list string) : list jsval :=
  omap (λ line, match JSON_parse line with
                | Normal record => Some record
                | Throw _ => None
                end) lines.

End Parsed.

(** *** Histories *)

(** The ways the program extends a history: one text message is pushed, or
    an invocation and its result are pushed together, under the id made from
    the length the history had. *)
Inductive grown (start : list MessageType) : list MessageType → Prop :=
| grown_start : grown start start
| grown_text history r text :
    r ≠ TOOL →
    grown start history →
    grown start (history ++ [text_message r text])
| grown_call history functionName arguments functionResult :
    grown start history →
    grown start (history ++
      [assistant_call_message (call_id_at (length history)) functionName arguments;
       tool_result_message (call_id_at (length history)) functionName functionResult]).

(** Every tool-role message answers an invocation of the message just before
    it, and every invocation is answered by the message just after it. *)
Definition tool_results_paired (history : list MessageType) : Prop :=
  (∀ i result,
     history !! i = Some result → role result = TOOL →
     ∃ j request call,
       i = S j ∧ history !! j = Some request ∧ role request = ASSISTANT ∧
       tool_calls request = Some [call] ∧
       tool_call_id result = Some (call_id call))
  ∧
  (∀ j request calls,
     history !! j = Some request → tool_calls request = Some calls →
     ∃ call result,
       calls = [call] ∧ history !! (S j) = Some result ∧ role result = TOOL ∧
       tool_call_id result = Some (call_id call)).

(** The invocations of a message, and the ids of a history in the order they
    were made. *)
Definition message_calls (m : MessageType) : list ToolCall := default [] (tool_calls m).

Definition call_ids (history : list MessageType) : list string :=
  m ← history; call_id <$> message_calls m.

Definition message_ids (m : MessageType) : list string := call_id <$> message_calls m.

(** A message carries at most one id, and it is the one made from the
    position of the message, which is the length the history had when the
    message was pushed. *)
Definition ids_from_length (history : list MessageType) : Prop :=
  ∀ i m,
    history !! i = Some m → message_ids m = [] ∨ message_ids m = [call_id_at i].

(** No message carries a tool-related field. *)
Definition plain (m : MessageType) : Prop :=
  role m ≠ TOOL ∧ tool_calls m = None.

Definition is_tool_called (ev : Event) : bool :=
  match ev with
  | ToolCalled _ _ => true
  | _ => false
  end.

(** *** States *)

(** Only the outside world and the trace may differ between two states. *)
Definition agent_kept {Env} (st st' : State Env) : Prop :=
  client st' = client st ∧ transport st' = transport st ∧
  builtInTools st' = builtInTools st ∧ toolsMCP st' = toolsMCP st ∧
  messages st' = messages st ∧ ∃ evs, trace st' = trace st ++ evs.

(** A computation that leaves the agent and the history alone. *)
Definition quiet {Env A} (m : Eff Env A) : Prop := ∀ st, agent_kept st (m st).2.

(** A computation that always completes normally. *)
Definition no_throw {Env A} (m : Eff Env A) : Prop := ∀ st, ∃ a, (m st).1 = Normal a.

(** [connect] and [disconnect] touch the two handles of the gateway and
    nothing else of the agent. *)
Definition catalog_kept {Env} (st st' : State Env) : Prop :=
  builtInTools st' = builtInTools st ∧ toolsMCP st' = toolsMCP st ∧
  messages st' = messages st.

Definition keeps_catalog {Env A} (m : Eff Env A) : Prop := ∀ st, catalog_kept st (m st).2.

(** The state after a final text has been printed and pushed. *)
Definition answered {Env} (modelName finalText : string) (st : State Env) : State Env :=
  {| env := env st; client := client st; transport := transport st;
     builtInTools := builtInTools st; toolsMCP := toolsMCP st;
     messages := messages st ++ [text_message ASSISTANT finalText];
     trace := trace st ++ [ConsoleLog (reply_line modelName finalText)] |}.

(** The state after an error line has been logged. *)
Definition reported {Env} (text : string) (st : State Env) : State Env :=
  {| env := env st; client := client st; transport := transport st;
     builtInTools := builtInTools st; toolsMCP := toolsMCP st;
     messages := messages st; trace := trace st ++ [LogError text] |}.

(** *** Gateway and catalog *)

(** The gateway holds neither a client nor a transport. *)
Definition disconnected {Env} (st : State Env) : Prop :=
  client st = None ∧ transport st = None.

Section Claims.
Context `{Externals Env}.

(** The error with which [executeMcpTool] gives up before any call. *)
Definition gateway_error (st : State Env) : JsError :=
  match toolsMCP st with
  | None => tools_not_available
  | Some _ => not_connected
  end.

(** Rollback after a failed connection attempt, whatever else fails. *)
Definition connect_failure_rolls_back : Prop :=
  ∀ (st st1 : State Env) e,
    connect_steps st = (Throw e, st1) →
    ∃ st', MCPClient_connect st = (Normal false, st') ∧ disconnected st'.

(** The round trip of a remote tool name through the catalog and the
    dispatch, for a given prefix: the catalog advertises the tool under the
    prefixed name; dispatch on the prefixed name calls the tool provider
    with the name itself; and a name without the prefix never reaches the
    tool provider. *)
Definition prefix_round_trip (prefix : string) : Prop :=
  (∀ builtIn catalog mcpTool,
     mcpTool ∈ tools catalog →
     ∃ advertised,
       advertised ∈ getAllTools builtIn (Some catalog) ∧
       tool_function_name advertised = prefix +:+ mcp_name mcpTool)
  ∧
  (∀ toolName args (st : State Env),
     client st ≠ None → toolsMCP st ≠ None →
     ∃ evs,
       trace (executeFunction (JStr (prefix +:+ toolName)) args st).2 =
       trace st ++ ToolCalled toolName args :: evs)
  ∧
  (∀ functionName args (st : State Env),
     JsString.startsWith functionName prefix = false →
     filter is_tool_called (trace (executeFunction (JStr functionName) args st).2) =
     filter is_tool_called (trace st)).

End Claims.

(** ** Vocabulary of the further properties *)

(** *** Relations between the state before and the state after *)

(** A computation all of whose runs keep the relation [R] between the
    state before and the state after. *)
Definition respects {Env A} (R : State Env → State Env → Prop) (m : Eff Env A) : Prop :=
  ∀ st, R st (m st).2.

(** Events are added to the trace, and each of them satisfies [P]. *)
Definition added {Env} (P : Event → Prop) (st st' : State Env) : Prop :=
  ∃ evs, trace st' = trace st ++ evs ∧ Forall P evs.

(** The agent holds the same handles, the same local descriptors and the
    same remote catalog. *)
Definition gateway_kept {Env} (st st' : State Env) : Prop :=
  client st' = client st ∧ transport st' = transport st ∧
  builtInTools st' = builtInTools st ∧ toolsMCP st' = toolsMCP st.

(** *** Traces *)

(** The chat requests of a trace, in the order they were sent. *)
Definition requests (events : list Event) : list ChatRequest :=
  omap (λ ev, match ev with ChatSent req => Some req | _ => None end) events.

(** The calls to the tool provider of a trace, in order. *)
Definition provider_calls (events : list Event) : list (string * jsval) :=
  omap (λ ev, match ev with ToolCalled toolName args => Some (toolName, args) | _ => None end)
       events.

Definition is_request (ev : Event) : Prop :=
  match ev with
  | ChatSent _ => True
  | _ => False
  end.

Definition is_provider_call (ev : Event) : Prop :=
  match ev with
  | ToolCalled _ _ => True
  | _ => False
  end.

(** A line written to the console or the log: neither a request, nor a call
    to the provider, nor the end of the process. *)
Definition is_output (ev : Event) : Prop :=
  match ev with
  | LogError _ | LogWarning _ | ConsoleLog _ | ConsoleError _ => True
  | _ => False
  end.

(** *** Requests and histories *)

(** The request the agent sends for a history. *)
Definition agent_request {Env} (modelName : string) (history : list MessageType)
    (st : State Env) : ChatRequest :=
  {| req_model := modelName; req_messages := history;
     req_tools := Some (getAllTools (builtInTools st) (toolsMCP st));
     req_options := None |}.

(** The requests that carry the first [n] messages of a history, for each
    [n] of a list. *)
Definition prefixes_sent {Env} (modelName : string) (history : list MessageType)
    (st : State Env) (ns : list nat) : list ChatRequest :=
  (λ n, agent_request modelName (take n history) st) <$> ns.

(** The lines the loop reads: those before the first exit command. *)
Fixpoint typed_before_exit (inputs : list string) : list string :=
  match inputs with
  | [] => []
  | userMessage :: rest =>
      if is_exit_command userMessage then [] else userMessage :: typed_before_exit rest
  end.

(** The messages no turn pushes by itself: those of the user. *)
Definition from_user (m : MessageType) : Prop := role m = USER.

Global Instance from_user_dec m : Decision (from_user m).
Proof. unfold from_user. apply _. Defined.

(** What one pass of the loop over the typed lines leaves behind: the
    lines pushed as user messages, in order; the requests, each carrying a
    longer prefix of the final history than the one before; and at most one
    call to the provider for each request that did not follow a typed
    line. *)
Definition session_summary {Env} (modelName : string) (inputs : list string)
    (st : State Env) (outcome : Outcome) (st' : State Env) : Prop :=
  ∃ ns calls pushed k,
    gateway_kept st st' ∧
    messages st' = messages st ++ pushed ∧
    filter from_user pushed = text_message USER <$> take k (typed_before_exit inputs) ∧
    (outcome = Finished → k = length (typed_before_exit inputs)) ∧
    requests (trace st') = requests (trace st) ++ prefixes_sent modelName (messages st') st ns ∧
    provider_calls (trace st') = provider_calls (trace st) ++ calls ∧
    (length calls + k ≤ length ns)%nat ∧
    StronglySorted Nat.lt ns ∧
    Forall (λ n, length (messages st) < n ≤ length (messages st'))%nat ns.

(** The model a session runs on. *)
Definition preferred_model (models : list string) : option string :=
  if bool_decide (DEFAULT_MODEL ∈ models) then Some DEFAULT_MODEL else head models.

Section FurtherVocabulary.
Context `{Externals Env}.

(** What the provider answered, as the text [executeFunction] returns. *)
Definition provider_text (toolName : string) (answer : completion jsval) : option string :=
  match answer with
  | Normal result => JSON_stringify_any result
  | Throw error =>
      Some ("Error ejecutando la herramienta MCP " +:+ toolName +:+ ": "
            +:+ error_to_string error)
  end.

(** The arguments a tool is run with, for the [arguments] of an invocation:
    an object as it is, a text as what it parses to, and [{}] when it does
    not parse. *)
Definition normalized_arguments (arguments : jsval) : jsval :=
  if typeof_object arguments then arguments
  else match ToString arguments ≫= JSON_parse with
       | Normal parsed => parsed
       | Throw _ => JObj []
       end.

(** The models a world lists: those of a 200 answer whose body can be
    read. *)
Definition listed_models (world : Env) : list string :=
  match (fetch_tags world).2 with
  | Normal (status, Normal models) => if decide (status = 200) then models else []
  | _ => []
  end.

(** The backend answers the connection check with status 200. *)
Definition backend_reachable (world : Env) : Prop :=
  ∃ data, (fetch_tags world).2 = Normal (200%nat, data).

(** The error [checkConnection] throws for an answer of the backend. *)
Definition check_error (answer : completion (nat * completion (list string))) : JsError :=
  Error ("No se pudo conectar al servidor de Ollama: " +:+
         match answer with
         | Normal (status, _) => "Error al conectarse: " +:+ pretty status
         | Throw error => err_message error
         end).

(** The [try] block of the decoder throws on a line. *)
Definition line_fails (line : string) : bool :=
  match decode_line line "" with
  | Throw _ => true
  | Normal _ => false
  end.

(** The lines the decoder reaches: all of them up to the first one that
    makes it return. *)
Fixpoint scanned_lines (lines : list string) : list string :=
  match lines with
  | [] => []
  | line :: rest =>
      match decode_line line "" with
      | Normal (Return _) => [line]
      | _ => line :: scanned_lines rest
      end
  end.

Definition decode_report (line : string) : Event :=
  LogError ("Error al decodificar la respuesta: " +:+ line).

End FurtherVocabulary.

(** ** A scripted outside world, for running the program on examples *)

Module Scripted.

(** A compact serializer: strings are quoted with [dq] and backslash
    escaped. *)
Definition dq : ascii := "034"%char.
Definition backslash : ascii := "092"%char.

Fixpoint escape (s : string) : string :=
  match s with
  | "" => ""
  | String c rest =>
      if Ascii.eqb c dq || Ascii.eqb c backslash
      then String backslash (String c (escape rest))
      else String c (escape rest)
  end.

Definition quote (s : string) : string := String dq (escape s +:+ String dq "").

Fixpoint stringify (v : jsval) : string :=
  match v with
  | JUndefined | JNull => "null"
  | JBool true => "true"
  | JBool false => "false"
  | JNum n => pretty n
  | JStr s => quote s
  | JArr elems =>
      "[" +:+
      (fix items (l : list jsval) : string :=
         match l with
         | [] => ""
         | [x] => stringify x
         | x :: rest => stringify x +:+ "," +:+ items rest
         end) elems
      +:+ "]"
  | JObj props =>
      "{" +:+
      (fix members (l : list (string * jsval)) : string :=
         match l with
         | [] => ""
         | [(k, x)] => quote k +:+ ":" +:+ stringify x
         | (k, x) :: rest => quote k +:+ ":" +:+ stringify x +:+ "," +:+ members rest
         end) props
      +:+ "}"
  end.

(** The records the examples exchange. *)
Definition content_record (fragment : string) : jsval :=
  JObj [("message", JObj [("role", JStr "assistant"); ("content", JStr fragment)])].

Definition invocation (toolName : string) (arguments : jsval) : jsval :=
  JObj [("function", JObj [("name", JStr toolName); ("arguments", arguments)])].

Definition invocation_record (calls : list jsval) : jsval :=
  JObj [("message", JObj [("role", JStr "assistant"); ("content", JStr "");
                          ("tool_calls", JArr calls)])].

Definition call_f : jsval :=
  JObj [("id", JStr "x");
        ("function", JObj [("name", JStr "f"); ("arguments", JStr "{}")])].

Definition lcm_arguments : jsval := JObj [("numbers", JArr [JNum 4; JNum 6])].
Definition call_lcm : jsval := invocation "lcm" lcm_arguments.
Definition call_mcp_lcm : jsval := invocation "mcp_lcm" lcm_arguments.
Definition call_ghost : jsval := invocation "ghost" (JObj []).

(** Arguments that no template literal can convert: an object with an own
    [toString] key. *)
Definition unprintable : jsval := JObj [("toString", JNum 1)].
Definition call_ghost_unprintable : jsval := invocation "ghost" unprintable.
Definition call_mcp_lcm_unprintable : jsval := invocation "mcp_lcm" unprintable.

Definition known_values : list jsval :=
  [ content_record "A"; content_record "B"; content_record "ignored";
    content_record "The least common multiple of 4 and 6 is 12.";
    invocation_record [call_f]; invocation_record [call_lcm];
    invocation_record [call_mcp_lcm]; invocation_record [call_ghost];
    JObj [] ].

(** A parser that knows the serialized form of the values above, and
    rejects every other text. *)
Definition parse_known (line : string) : completion jsval :=
  match List.find (λ v, String.eqb (stringify v) line) known_values with
  | Some v => Normal v
  | None => Throw (SyntaxError "Unexpected token")
  end.

(** The script: what each outside party answers.  Chat replies are consumed
    one per request; when none is left the request is rejected. *)
Record Script : Type := {
  chat_replies : list (completion HttpResponse);
  tags_reply : completion (nat * completion (list string));
  new_transport_result : completion ();
  new_client_result : completion ();
  connect_result : completion ();
  close_result : completion ();
  listTools_result : completion ListToolsResult;
  provider : string → jsval → completion jsval
}.

Definition next_chat_reply (s : Script) : Script * completion HttpResponse :=
  match chat_replies s with
  | [] => (s, Throw (TypeError "fetch failed"))
  | reply :: rest =>
      ({| chat_replies := rest; tags_reply := tags_reply s;
          new_transport_result := new_transport_result s;
          new_client_result := new_client_result s;
          connect_result := connect_result s; close_result := close_result s;
          listTools_result := listTools_result s; provider := provider s |}, reply)
  end.

Global Instance scripted : Externals Script := {|
  JSON_parse := parse_known;
  JSON_stringify := stringify;
  Number_toString := pretty;
  fetch_chat := λ s _, next_chat_reply s;
  fetch_tags := λ s, (s, tags_reply s);
  sdk_new_transport := λ s, (s, new_transport_result s);
  sdk_new_client := λ s, (s, new_client_result s);
  sdk_client_connect := λ s, (s, connect_result s);
  sdk_client_close := λ s, (s, close_result s);
  sdk_listTools := λ s, (s, listTools_result s);
  sdk_callTool := λ s toolName args, (s, provider s toolName args)
|}.

(** Replies of the backend. *)
Definition ok (lines : list jsval) : completion HttpResponse :=
  Normal {| status := 200;
            text := Normal (foldr (λ v acc, stringify v +:+ String JsString.LF acc) "" lines) |}.

Definition server_error : completion HttpResponse :=
  Normal {| status := 500; text := Normal "internal error" |}.

(** The tool provider of [servers/basic]: its catalog has [lcm]. *)
Definition basic_catalog : ListToolsResult :=
  {| tools := [ {| mcp_name := "lcm";
                   mcp_description :=
                     Some "Calculate the least common multiple of a list of numbers";
                   mcp_inputSchema := Some (JObj [("type", JStr "object")]) |} ] |}.

Definition basic_provider (toolName : string) (args : jsval) : completion jsval :=
  if String.eqb toolName "lcm"
  then Normal (JObj [("content",
                      JArr [JObj [("type", JStr "text");
                                  ("text", JStr "The least common multiple is: 12")]])])
  else Throw (MkJsError "McpError" ("Tool " +:+ toolName +:+ " not found")).

(** A world where everything works and the backend answers [replies]. *)
Definition world (replies : list (completion HttpResponse)) : Script :=
  {| chat_replies := replies;
     tags_reply := Normal (200, Normal ["mistral:latest"]);
     new_transport_result := Normal ();
     new_client_result := Normal ();
     connect_result := Normal ();
     close_result := Normal ();
     listTools_result := Normal basic_catalog;
     provider := basic_provider |}.

(** A world whose tool provider cannot be reached, and whose client fails
    to close as well. *)
Definition unreachable_provider (close : completion ()) : Script :=
  {| chat_replies := [];
     tags_reply := Normal (200, Normal ["mistral:latest"]);
     new_transport_result := Normal ();
     new_client_result := Normal ();
     connect_result := Throw (Error "spawn node ENOENT");
     close_result := close;
     listTools_result := Throw (Error "Not connected");
     provider := basic_provider |}.

(** A session that has seen the system prompt and one user message. *)
Definition asked (st : State Script) (question : string) : State Script :=
  {| env := env st; client := client st; transport := transport st;
     builtInTools := builtInTools st; toolsMCP := toolsMCP st;
     messages := [text_message SYSTEM system_prompt; text_message USER question];
     trace := trace st |}.

(** The agent after a successful [setup]. *)
Definition connected (st : State Script) : State Script :=
  {| env := env st; client := Some SdkClient; transport := Some SdkTransport;
     builtInTools := builtInTools st; toolsMCP := Some basic_catalog;
     messages := messages st; trace := trace st |}.

(** *** Scenarios *)

Definition lcm_answer : string := "The least common multiple of 4 and 6 is 12.".

(** The user asks for an lcm; the backend will answer the follow-up request
    with text. *)
Definition lcm_session : State Script :=
  asked (new_agent (world [ok [content_record lcm_answer]])) "compute lcm of 4 and 6".

(** The same session, after a successful [setup]. *)
Definition lcm_session_connected : State Script := connected lcm_session.

(** The backend will answer the follow-up request with status 500. *)
Definition failing_session : State Script :=
  asked (new_agent (world [server_error])) "call ghost".

(** A session in which the model first asks for [mcp_lcm], then answers;
    the second question is answered with status 500. *)
Definition two_questions : State Script :=
  connected (new_agent (world [ok [invocation_record [call_mcp_lcm]];
                               ok [content_record lcm_answer];
                               server_error])).

(** Two lines of text, and a line of text followed by a line with an
    invocation. *)
Definition text_AB : string :=
  stringify (content_record "A") +:+ String JsString.LF (stringify (content_record "B")).

Definition text_ignored_then_call : string :=
  stringify (content_record "ignored")
  +:+ String JsString.LF (stringify (invocation_record [call_f])).

(** A world whose backend lists no model, and one whose backend cannot be
    reached. *)
Definition no_models : Script :=
  {| chat_replies := [];
     tags_reply := Normal (200, Normal []);
     new_transport_result := Normal ();
     new_client_result := Normal ();
     connect_result := Normal ();
     close_result := Normal ();
     listTools_result := Normal basic_catalog;
     provider := basic_provider |}.

Definition backend_down : Script :=
  {| chat_replies := [];
     tags_reply := Throw (TypeError "fetch failed");
     new_transport_result := Normal ();
     new_client_result := Normal ();
     connect_result := Normal ();
     close_result := Normal ();
     listTools_result := Normal basic_catalog;
     provider := basic_provider |}.

(** An invocation of [mcp_lcm] whose arguments are a text that does not
    parse, what the basic provider answers to [lcm], and a line a user
    types. *)
Definition call_mcp_lcm_text : jsval := invocation "mcp_lcm" (JStr "4 and 6").

Definition lcm_result : jsval :=
  JObj [("content",
         JArr [JObj [("type", JStr "text");
                     ("text", JStr "The least common multiple is: 12")]])].

Definition lcm_question : list string := ["lcm of 4 and 6?"].

End Scripted.

(** * Properties *)

(** ** Strings *)

Lemma append_nil_r (s : string) : s +:+ "" = s.
Proof.
  induction s as [|c s' IH]; [done|].
  change (String c s' +:+ "") with (String c (s' +:+ "")). by rewrite IH.
Qed.

Lemma append_assoc (s1 s2 s3 : string) : (s1 +:+ s2) +:+ s3 = s1 +:+ (s2 +:+ s3).
Proof.
  induction s1 as [|c s1' IH]; [done|].
  change ((String c s1' +:+ s2) +:+ s3) with (String c ((s1' +:+ s2) +:+ s3)).
  change (String c s1' +:+ s2 +:+ s3) with (String c (s1' +:+ s2 +:+ s3)).
  by rewrite IH.
Qed.

Lemma strip_append (p s : string) : JsString.strip p (p +:+ s) = Some s.
Proof.
  induction p as [|c p' IH]; [by destruct s|].
  change (String c p' +:+ s) with (String c (p' +:+ s)).
  cbn [JsString.strip]. by rewrite Ascii.eqb_refl.
Qed.

Lemma startsWith_append (p s : string) : JsString.startsWith (p +:+ s) p = true.
Proof.
  unfold JsString.startsWith. rewrite strip_append. by apply bool_decide_eq_true.
Qed.

(** ** Histories *)

Section HistoryFacts.

Lemma grown_trans h1 h2 h3 : grown h1 h2 → grown h2 h3 → grown h1 h3.
Proof.
  intros H12 H23. induction H23 as [|h r text Hr _ IH|h n a res _ IH]; [done| |].
  - by apply grown_text.
  - by apply grown_call.
Qed.

Lemma paired_nil : tool_results_paired [].
Proof. split; intros ??; by rewrite lookup_nil. Qed.

Lemma paired_plain history m :
  tool_results_paired history → plain m → tool_results_paired (history ++ [m]).
Proof.
  intros [Hresults Hcalls] [Hrole Hnone]. split.
  - intros i result [Hin|[_ Hlast]]%lookup_app_Some Htool.
    + destruct (Hresults i result Hin Htool) as (j & request & call & -> & Hj & ?).
      exists j, request, call. split; [done|]. split; [|done].
      by apply lookup_app_l_Some.
    + apply list_lookup_singleton_Some in Hlast as [_ <-]. done.
  - intros j request calls [Hin|[_ Hlast]]%lookup_app_Some Hsome.
    + destruct (Hcalls j request calls Hin Hsome) as (call & result & -> & HSj & ?).
      exists call, result. split; [done|]. split; [|done].
      by apply lookup_app_l_Some.
    + apply list_lookup_singleton_Some in Hlast as [_ <-]. congruence.
Qed.

Lemma paired_call history functionCallId functionName arguments functionResult :
  tool_results_paired history →
  tool_results_paired (history ++
    [assistant_call_message functionCallId functionName arguments;
     tool_result_message functionCallId functionName functionResult]).
Proof.
  intros [Hresults Hcalls]. split.
  - intros i result [Hin|[Hge Hnew]]%lookup_app_Some Htool.
    + destruct (Hresults i result Hin Htool) as (j & request & call & -> & Hj & ?).
      exists j, request, call. split; [done|]. split; [|done].
      by apply lookup_app_l_Some.
    + destruct (i - length history) as [|[|k]] eqn:Hi; simplify_eq/=.
      exists (length history),
        (assistant_call_message functionCallId functionName arguments),
        {| call_id := functionCallId; call_function_name := functionName;
           call_function_arguments := arguments |}.
      split; [lia|]. split; [|done].
      rewrite lookup_app_r by lia. by rewrite Nat.sub_diag.
  - intros j request calls [Hin|[Hge Hnew]]%lookup_app_Some Hsome.
    + destruct (Hcalls j request calls Hin Hsome) as (call & result & -> & HSj & ?).
      exists call, result. split; [done|]. split; [|done].
      by apply lookup_app_l_Some.
    + destruct (j - length history) as [|[|k]] eqn:Hj; simplify_eq/=.
      exists {| call_id := functionCallId; call_function_name := functionName;
                call_function_arguments := arguments |},
        (tool_result_message functionCallId functionName functionResult).
      split; [done|]. split; [|done].
      rewrite lookup_app_r by lia. by replace (S j - length history) with 1 by lia.
Qed.

Lemma text_message_plain r text : r ≠ TOOL → plain (text_message r text).
Proof. done. Qed.

Lemma grown_paired start history :
  grown start history → tool_results_paired start → tool_results_paired history.
Proof.
  intros Hgrown Hstart. induction Hgrown; [done| |].
  - by apply paired_plain, text_message_plain.
  - by apply paired_call.
Qed.

Lemma ids_nil : ids_from_length [].
Proof. intros ??; by rewrite lookup_nil. Qed.

Lemma ids_plain history m :
  ids_from_length history → tool_calls m = None → ids_from_length (history ++ [m]).
Proof.
  intros Hids Hnone i m' [Hin|[_ Hlast]]%lookup_app_Some; [by apply Hids|].
  apply list_lookup_singleton_Some in Hlast as [_ <-].
  left. unfold message_ids, message_calls. by rewrite Hnone.
Qed.

Lemma ids_call history functionName arguments functionResult :
  ids_from_length history →
  ids_from_length (history ++
    [assistant_call_message (call_id_at (length history)) functionName arguments;
     tool_result_message (call_id_at (length history)) functionName functionResult]).
Proof.
  intros Hids i m [Hin|[Hge Hnew]]%lookup_app_Some; [by apply Hids|].
  destruct (i - length history) as [|[|k]] eqn:Hi; simplify_eq/=.
  - right. by replace i with (length history) by lia.
  - by left.
Qed.

Lemma grown_ids start history :
  grown start history → ids_from_length start → ids_from_length history.
Proof.
  intros Hgrown Hstart. induction Hgrown; [done| |].
  - by apply ids_plain.
  - by apply ids_call.
Qed.

Lemma call_id_at_inj : Inj (=) (=) call_id_at.
Proof. intros m n Heq. unfold call_id_at in Heq. by simplify_eq. Qed.

(** The ids of a history whose first message stands at position [k] come
    from increasing positions, none below [k]. *)
Lemma ids_sorted_from (k : nat) (history : list MessageType) :
  (∀ i m, history !! i = Some m →
          message_ids m = [] ∨ message_ids m = [call_id_at (k + i)]) →
  ∃ lengths : list nat,
    call_ids history = call_id_at <$> lengths ∧
    StronglySorted Nat.lt lengths ∧ Forall (λ n, k ≤ n)%nat lengths.
Proof.
  revert k. induction history as [|m history IH]; intros k Hids.
  { exists []. repeat split; constructor. }
  destruct (IH (S k)) as (lengths & Heq & Hsorted & Hbound).
  { intros i m' Hi. replace (S k + i) with (k + S i) by lia. by apply Hids. }
  unfold call_ids in *. cbn [mbind list_bind]. fold (message_ids m).
  destruct (Hids 0 m eq_refl) as [->| ->].
  - exists lengths. split; [done|]. split; [done|].
    eapply Forall_impl; [done|]. cbn. lia.
  - exists (k :: lengths). rewrite Nat.add_0_r. split; [by rewrite Heq|]. split.
    + constructor; [done|]. eapply Forall_impl; [done|]. cbn. lia.
    + constructor; [lia|]. eapply Forall_impl; [done|]. cbn. lia.
Qed.

Lemma sorted_lt_NoDup (l : list nat) : StronglySorted Nat.lt l → NoDup l.
Proof.
  induction 1 as [|n l _ IH Hall]; constructor; [|done].
  intros Hin. rewrite Forall_forall in Hall. specialize (Hall n Hin). lia.
Qed.

Lemma ids_increase history :
  ids_from_length history →
  ∃ lengths : list nat,
    call_ids history = call_id_at <$> lengths ∧
    StronglySorted Nat.lt lengths ∧ NoDup (call_ids history).
Proof.
  intros Hids. destruct (ids_sorted_from 0 history Hids) as (lengths & Heq & Hsorted & _).
  exists lengths. split; [done|]. split; [done|].
  rewrite Heq. pose proof call_id_at_inj. apply (NoDup_fmap_2 _). by apply sorted_lt_NoDup.
Qed.

End HistoryFacts.

(** ** Effects *)

Section EffectFacts.
Context {Env : Type}.
Implicit Types st : State Env.

Lemma agent_kept_refl st : agent_kept st st.
Proof. repeat split; try done. exists []. by rewrite app_nil_r. Qed.

Lemma agent_kept_trans st1 st2 st3 :
  agent_kept st1 st2 → agent_kept st2 st3 → agent_kept st1 st3.
Proof.
  intros (?&?&?&?&?&evs1&?) (?&?&?&?&?&evs2&?).
  repeat split; try congruence.
  exists (evs1 ++ evs2). rewrite app_assoc. congruence.
Qed.

Lemma quiet_ret {A} (a : A) : quiet (mret a : Eff Env A).
Proof. intros st. apply agent_kept_refl. Qed.

Lemma quiet_throw {A} e : quiet (throw e : Eff Env A).
Proof. intros st. apply agent_kept_refl. Qed.

Lemma quiet_lift {A} (c : completion A) : quiet (lift c : Eff Env A).
Proof. intros st. apply agent_kept_refl. Qed.

Lemma quiet_gets {A} (f : State Env → A) : quiet (gets f).
Proof. intros st. apply agent_kept_refl. Qed.

Lemma quiet_external {A} (op : Env → Env * completion A) : quiet (external op).
Proof.
  intros st. unfold external. destruct (op (env st)). cbn.
  repeat split; try done. exists []. by rewrite app_nil_r.
Qed.

Lemma quiet_emit ev : quiet (emit ev : Eff Env ()).
Proof. intros st. repeat split; try done. by exists [ev]. Qed.

Lemma quiet_bind {A B} (m : Eff Env A) (f : A → Eff Env B) :
  quiet m → (∀ a, quiet (f a)) → quiet (m ≫= f).
Proof.
  intros Hm Hf st. specialize (Hm st).
  unfold mbind, Eff_bind. destruct (m st) as [[a|e] st']; cbn in *; [|done].
  eapply agent_kept_trans; [done|apply Hf].
Qed.

Lemma quiet_try {A} (body : Eff Env A) (handler : JsError → Eff Env A) :
  quiet body → (∀ e, quiet (handler e)) → quiet (try_eff body handler).
Proof.
  intros Hm Hf st. specialize (Hm st).
  unfold try_eff. destruct (body st) as [[a|e] st']; cbn in *; [done|].
  eapply agent_kept_trans; [done|apply Hf].
Qed.

Lemma quiet_emit_all evs : quiet (emit_all evs : Eff Env ()).
Proof.
  induction evs as [|ev evs IH]; [apply quiet_ret|].
  apply quiet_bind; [apply quiet_emit|done].
Qed.

Lemma no_throw_ret {A} (a : A) : no_throw (mret a : Eff Env A).
Proof. intros st. by exists a. Qed.

Lemma no_throw_gets {A} (f : State Env → A) : no_throw (gets f).
Proof. intros st. by eexists. Qed.

Lemma no_throw_emit ev : no_throw (emit ev : Eff Env ()).
Proof. intros st. by eexists. Qed.

Lemma no_throw_push m : no_throw (push m : Eff Env ()).
Proof. intros st. by eexists. Qed.

Lemma no_throw_bind {A B} (m : Eff Env A) (f : A → Eff Env B) :
  no_throw m → (∀ a, no_throw (f a)) → no_throw (m ≫= f).
Proof.
  intros Hm Hf st. destruct (Hm st) as [a Ha].
  unfold mbind, Eff_bind. destruct (m st) as [c st']; cbn in *; subst. apply Hf.
Qed.

Lemma no_throw_try {A} (body : Eff Env A) (handler : JsError → Eff Env A) :
  (∀ e, no_throw (handler e)) → no_throw (try_eff body handler).
Proof.
  intros Hf st. unfold try_eff. destruct (body st) as [[a|e] st']; [by exists a|apply Hf].
Qed.

Lemma no_throw_emit_all evs : no_throw (emit_all evs : Eff Env ()).
Proof.
  induction evs as [|ev evs IH]; [apply no_throw_ret|].
  apply no_throw_bind; [apply no_throw_emit|done].
Qed.

End EffectFacts.

Ltac quiet_step :=
  lazymatch goal with
  | |- quiet (mbind _ _) => apply quiet_bind; [|intros ?]
  | |- quiet (try_eff _ _) => apply quiet_try; [|intros ?]
  | |- quiet (mret _) => apply quiet_ret
  | |- quiet (throw _) => apply quiet_throw
  | |- quiet (lift _) => apply quiet_lift
  | |- quiet (gets _) => apply quiet_gets
  | |- quiet (external _) => apply quiet_external
  | |- quiet (emit _) => apply quiet_emit
  | |- quiet (emit_all _) => apply quiet_emit_all
  | |- quiet (logger_error _) => apply quiet_emit
  | |- quiet (logger_warning _) => apply quiet_emit
  | |- quiet (console_log _) => apply quiet_emit
  | |- quiet (console_error _) => apply quiet_emit
  | |- quiet (match ?x with _ => _ end) => destruct x
  end.

Ltac no_throw_step :=
  lazymatch goal with
  | |- no_throw (mbind _ _) => apply no_throw_bind; [|intros ?]
  | |- no_throw (try_eff _ _) => apply no_throw_try; intros ?
  | |- no_throw (mret _) => apply no_throw_ret
  | |- no_throw (gets _) => apply no_throw_gets
  | |- no_throw (emit _) => apply no_throw_emit
  | |- no_throw (emit_all _) => apply no_throw_emit_all
  | |- no_throw (push _) => apply no_throw_push
  | |- no_throw (logger_error _) => apply no_throw_emit
  | |- no_throw (logger_warning _) => apply no_throw_emit
  | |- no_throw (console_log _) => apply no_throw_emit
  | |- no_throw (console_error _) => apply no_throw_emit
  | |- no_throw (match ?x with _ => _ end) => destruct x
  end.

(** Running a computation, step by step. *)
Lemma run_bind {Env A B} (m : Eff Env A) (f : A → Eff Env B) (st : State Env) :
  (m ≫= f) st = match m st with
                | (Normal a, st') => f a st'
                | (Throw e, st') => (Throw e, st')
                end.
Proof. done. Qed.

Ltac run_eff :=
  repeat first
    [ rewrite run_bind
    | progress cbn [mret Eff_ret throw lift set_transport set_client set_toolsMCP
                    set_messages push emit console_log console_error logger_error
                    logger_warning fst snd env client transport builtInTools toolsMCP
                    messages trace] ].

(** ** Steps of the program *)

Section ProgramFacts.
Context `{Externals Env}.

Lemma quiet_chat model history tools options :
  quiet (OllamaAPIClient_chat model history tools options).
Proof. unfold OllamaAPIClient_chat, chat_request. repeat quiet_step. Qed.

Lemma no_throw_chat model history tools options :
  no_throw (OllamaAPIClient_chat model history tools options).
Proof. unfold OllamaAPIClient_chat. repeat no_throw_step. Qed.

Lemma quiet_agent_chat model history options : quiet (OllamaAgent_chat model history options).
Proof. unfold OllamaAgent_chat. repeat quiet_step. apply quiet_chat. Qed.

Lemma no_throw_agent_chat model history options :
  no_throw (OllamaAgent_chat model history options).
Proof. unfold OllamaAgent_chat. repeat no_throw_step. apply no_throw_chat. Qed.

Lemma quiet_executeMcpTool toolName args : quiet (executeMcpTool toolName args).
Proof. unfold executeMcpTool, MCPClient_executeTool. repeat quiet_step. Qed.

Lemma quiet_executeFunction functionName functionArgs :
  quiet (executeFunction functionName functionArgs).
Proof. unfold executeFunction. repeat quiet_step. apply quiet_executeMcpTool. Qed.

Lemma no_throw_lift_normal {A} (a : A) : no_throw (lift (Normal a) : Eff Env A).
Proof. intros st. by eexists. Qed.

(** Once the name has been converted to a string, as it is before the
    dispatch is called, the dispatch cannot throw. *)
Lemma no_throw_executeFunction functionName functionArgs nameText :
  ToString functionName = Normal nameText →
  no_throw (executeFunction functionName functionArgs).
Proof.
  intros Hname. unfold executeFunction. apply no_throw_try. intros e. rewrite Hname.
  apply no_throw_bind; [apply no_throw_lift_normal|intros ?]. repeat no_throw_step.
Qed.

Lemma quiet_parse_arguments function : quiet (parse_arguments function).
Proof. unfold parse_arguments. repeat quiet_step. Qed.

Lemma no_throw_processFunctionCall fuel modelName function_call :
  no_throw (processFunctionCall fuel modelName function_call).
Proof. destruct fuel; cbn [processFunctionCall]; repeat no_throw_step. Qed.

Lemma get_prop_defined v key x key' :
  get_prop v key = Normal x → ∃ y, get_prop v key' = Normal y.
Proof. destruct v; cbn; intros; simplify_eq; eauto. Qed.

Lemma ToString_not_object v :
  typeof_object v = false → ∃ text, ToString v = Normal text.
Proof. destruct v as [| |[]| | | |]; intros; simplify_eq/=; eauto. Qed.

(** What the [try]/[catch] around the arguments comes to. Arguments that
    cannot be converted leave it with the error of the conversion, and
    nothing logged; the others never do: an object is taken as it is, a
    text that parses gives what it parses to, and a text that does not
    parse is reported and gives [{}]. *)
Lemma parse_arguments_cases function arguments st :
  get_prop function "arguments" = Normal arguments →
  parse_arguments function st =
    match ToString arguments with
    | Throw e => (Throw e, st)
    | Normal text =>
        if typeof_object arguments then (Normal arguments, st)
        else match JSON_parse text with
             | Normal parsed => (Normal parsed, st)
             | Throw _ =>
                 (Normal (JObj []),
                  reported ("Error decodificando argumentos JSON: " +:+ text) st)
             end
    end.
Proof.
  intros Hget. unfold parse_arguments, try_eff. rewrite Hget. run_eff.
  destruct (ToString arguments) as [text|e] eqn:Htext; run_eff; [|by rewrite Htext].
  destruct (typeof_object arguments); run_eff; [done|].
  destruct (JSON_parse text); run_eff; rewrite ?Htext; by run_eff.
Qed.

Lemma no_throw_parse_arguments function arguments text :
  get_prop function "arguments" = Normal arguments →
  ToString arguments = Normal text →
  no_throw (parse_arguments function).
Proof.
  intros Hget Htext st. rewrite (parse_arguments_cases _ arguments) by done. rewrite Htext.
  destruct (typeof_object arguments); [by eexists|].
  destruct (JSON_parse text); by eexists.
Qed.

(** What [run_tool_call] does on an invocation that has a [function]
    record, and whose name and arguments can be converted to strings: it
    cannot throw, and it pushes the invocation and its result. *)
Lemma run_tool_call_recorded function_call function functionName arguments
    nameText argumentsText st :
  get_prop function_call "function" = Normal function →
  get_prop function "name" = Normal functionName →
  get_prop function "arguments" = Normal arguments →
  ToString functionName = Normal nameText →
  ToString arguments = Normal argumentsText →
  ∃ functionArgs st1 executed st2 st3,
    parse_arguments function st = (Normal functionArgs, st1) ∧
    executeFunction functionName functionArgs st1 = (Normal executed, st2) ∧
    run_tool_call function_call st = (Normal (), st3) ∧
    agent_kept st st1 ∧ agent_kept st1 st2 ∧
    env st3 = env st2 ∧ client st3 = client st ∧ transport st3 = transport st ∧
    builtInTools st3 = builtInTools st ∧ toolsMCP st3 = toolsMCP st ∧
    (∃ lines, trace st3 = trace st2 ++ (LogError <$> lines)) ∧
    messages st3 = messages st ++
      [assistant_call_message (call_id_at (length (messages st))) functionName
         (encoded_arguments arguments);
       tool_result_message (call_id_at (length (messages st))) functionName
         (default default_result executed)].
Proof.
  intros Hfunction Hname Harguments HnameText HargumentsText.
  destruct (parse_arguments function st) as [parsed st1] eqn:Hparse.
  destruct (no_throw_parse_arguments _ _ _ Harguments HargumentsText st)
    as [functionArgs HfunctionArgs].
  rewrite Hparse in HfunctionArgs. cbn in HfunctionArgs. subst parsed.
  pose proof (quiet_parse_arguments function st) as Hkept1. rewrite Hparse in Hkept1.
  destruct (executeFunction functionName functionArgs st1) as [ran st2] eqn:Hrun.
  destruct (no_throw_executeFunction functionName functionArgs _ HnameText st1)
    as [executed Hexecuted].
  rewrite Hrun in Hexecuted. cbn in Hexecuted. subst ran.
  pose proof (quiet_executeFunction functionName functionArgs st1) as Hkept2.
  rewrite Hrun in Hkept2. cbn in Hkept1, Hkept2.
  exists functionArgs, st1, executed, st2.
  unfold run_tool_call. rewrite run_bind. unfold lift at 1. rewrite Hfunction.
  rewrite run_bind. unfold lift at 1. rewrite Hname.
  rewrite run_bind, Hparse. rewrite run_bind. unfold gets at 1.
  rewrite run_bind. unfold lift at 1. rewrite HnameText.
  rewrite run_bind, Hrun.
  destruct Hkept1 as (Hc1 & Ht1 & Hb1 & Hm1 & Hh1 & evs1 & He1).
  destruct Hkept2 as (Hc2 & Ht2 & Hb2 & Hm2 & Hh2 & evs2 & He2).
  assert (agent_kept st st1) as Hkept1 by (repeat split; eauto).
  assert (agent_kept st1 st2) as Hkept2 by (repeat split; eauto).
  destruct executed as [functionResult|];
    run_eff; rewrite ?HnameText; run_eff; rewrite Harguments; run_eff;
    (eexists; do 5 (split; [done|]); repeat split; cbn; try congruence).
  - exists []. by rewrite app_nil_r.
  - by rewrite Hh2, Hh1, <-app_assoc.
  - by exists ["Error: Función " +:+ nameText +:+ " no implementada"].
  - by rewrite Hh2, Hh1, <-app_assoc.
Qed.

(** The two ways of [run_tool_call]. It throws when the invocation has no
    [function] record or when its name or its arguments cannot be converted
    to a string: nothing has been pushed then, nothing sent and nothing
    called, and at most the arguments have been reported. Otherwise the
    invocation is one [run_tool_call_recorded] is about. *)
Lemma run_tool_call_cases function_call st :
  (∃ e st1,
     run_tool_call function_call st = (Throw e, st1) ∧
     agent_kept st st1 ∧ env st1 = env st ∧
     ∃ lines, trace st1 = trace st ++ (LogError <$> lines)) ∨
  (∃ function functionName arguments nameText argumentsText,
     get_prop function_call "function" = Normal function ∧
     get_prop function "name" = Normal functionName ∧
     get_prop function "arguments" = Normal arguments ∧
     ToString functionName = Normal nameText ∧
     ToString arguments = Normal argumentsText).
Proof.
  assert (agent_kept st st ∧ env st = env st ∧
          ∃ lines, trace st = trace st ++ (LogError <$> lines)) as Hsame.
  { split; [apply agent_kept_refl|]. split; [done|]. exists []. by rewrite app_nil_r. }
  unfold run_tool_call. run_eff.
  destruct (get_prop function_call "function") as [function|e] eqn:Hfunction; run_eff;
    [|left; by exists e, st].
  destruct (get_prop function "name") as [functionName|e] eqn:Hname; run_eff;
    [|left; by exists e, st].
  destruct (get_prop_defined _ _ _ "arguments" Hname) as [arguments Harguments].
  rewrite (parse_arguments_cases _ arguments) by done.
  destruct (ToString arguments) as [argumentsText|e] eqn:HargumentsText;
    [|left; by exists e, st].
  destruct (ToString functionName) as [nameText|e] eqn:HnameText;
    [right; by exists function, functionName, arguments, nameText, argumentsText|].
  left. exists e.
  destruct (typeof_object arguments); [|destruct (JSON_parse argumentsText)];
    unfold gets; run_eff; rewrite ?HnameText; run_eff;
    (eexists; split; [done|]); try done.
  split; [|split; [done|]].
  - repeat split; try done. by eexists.
  - by exists ["Error decodificando argumentos JSON: " +:+ argumentsText].
Qed.

Lemma try_eff_normal {A} (body : Eff Env A) handler st a st' :
  body st = (Normal a, st') → try_eff body handler st = (Normal a, st').
Proof. intros Hbody. unfold try_eff. by rewrite Hbody. Qed.

Lemma processFunctionCall_next fuel modelName function_call st st3 next st4 :
  run_tool_call function_call st = (Normal (), st3) →
  OllamaAgent_chat modelName (messages st3) None st3 = (Normal (InvocationResult next), st4) →
  processFunctionCall (S fuel) modelName function_call st =
  processFunctionCall fuel modelName next st4.
Proof.
  intros Hrun Hchat.
  destruct (processFunctionCall fuel modelName next st4) as [outcome st5] eqn:Hnext.
  destruct (no_throw_processFunctionCall fuel modelName next st4) as [o Ho].
  rewrite Hnext in Ho. cbn in Ho. subst outcome.
  cbn [processFunctionCall]. apply try_eff_normal.
  rewrite run_bind, Hrun. rewrite run_bind. unfold gets at 1.
  by rewrite run_bind, Hchat.
Qed.

Lemma processFunctionCall_text fuel modelName function_call st st3 finalText st4 :
  run_tool_call function_call st = (Normal (), st3) →
  OllamaAgent_chat modelName (messages st3) None st3 = (Normal (TextResult finalText), st4) →
  processFunctionCall (S fuel) modelName function_call st =
  (Normal Finished, answered modelName finalText st4).
Proof.
  intros Hrun Hchat. cbn [processFunctionCall]. apply try_eff_normal.
  rewrite run_bind, Hrun. rewrite run_bind. unfold gets at 1.
  by rewrite run_bind, Hchat.
Qed.

(** A [run_tool_call] that throws ends the turn: the outer [catch] reports
    the error, from the state the [try] block had reached. *)
Lemma processFunctionCall_throw fuel modelName function_call st e st1 :
  run_tool_call function_call st = (Throw e, st1) →
  processFunctionCall (S fuel) modelName function_call st =
  (Normal Finished,
   reported ("Error procesando la llamada a función: " +:+ error_to_string e) st1).
Proof.
  intros Hrun. cbn [processFunctionCall]. unfold try_eff.
  by rewrite run_bind, Hrun.
Qed.

End ProgramFacts.

(** ** Turns and sessions *)

Section SessionFacts.
Context `{Externals Env}.
Implicit Types st : State Env.

Lemma try_emit_trace {A} ev (body : Eff Env A) handler st :
  quiet body → (∀ e, quiet (handler e)) →
  ∃ evs, trace (try_eff (emit ev;; body) handler st).2 = trace st ++ ev :: evs.
Proof.
  intros Hbody Hhandler.
  destruct (quiet_try body handler Hbody Hhandler (emit ev st).2) as (_&_&_&_&_&evs&Hevs).
  exists evs. cbn in Hevs. by rewrite <-app_assoc in Hevs.
Qed.

(** A chat through the agent never throws, leaves the agent alone, and
    sends the history it is given together with the merged catalog. *)
Lemma agent_chat_result modelName history st :
  ∃ result st',
    OllamaAgent_chat modelName history None st = (Normal result, st') ∧
    agent_kept st st' ∧
    ∃ evs, trace st' = trace st ++
      ChatSent {| req_model := modelName; req_messages := history;
                  req_tools := Some (getAllTools (builtInTools st) (toolsMCP st));
                  req_options := None |} :: evs.
Proof.
  destruct (OllamaAgent_chat modelName history None st) as [c st'] eqn:Hchat.
  destruct (no_throw_agent_chat modelName history None st) as [result Hresult].
  pose proof (quiet_agent_chat modelName history None st) as Hkept.
  rewrite Hchat in Hresult, Hkept. cbn in Hresult, Hkept. subst c.
  exists result, st'. split; [done|]. split; [done|].
  replace st' with (OllamaAgent_chat modelName history None st).2 by by rewrite Hchat.
  unfold OllamaAgent_chat. rewrite !run_bind. unfold gets.
  unfold OllamaAPIClient_chat, chat_request.
  apply try_emit_trace; [|intros e]; repeat quiet_step.
Qed.

(** A trace is only ever extended. *)
Lemma trace_extended_trans (t1 t2 t3 : list Event) :
  (∃ evs, t2 = t1 ++ evs) → (∃ evs, t3 = t2 ++ evs) → ∃ evs, t3 = t1 ++ evs.
Proof. intros [evs1 ->] [evs2 ->]. exists (evs1 ++ evs2). by rewrite app_assoc. Qed.

Lemma processFunctionCall_grown fuel modelName function_call st :
  ∃ outcome st',
    processFunctionCall fuel modelName function_call st = (Normal outcome, st') ∧
    grown (messages st) (messages st') ∧
    ∃ evs, trace st' = trace st ++ evs.
Proof.
  revert function_call st. induction fuel as [|fuel IH]; intros function_call st.
  { exists OutOfFuel, st. split; [done|]. split; [constructor|].
    exists []. by rewrite app_nil_r. }
  destruct (run_tool_call_cases function_call st)
    as [(e & st1 & Hthrow & Hkept1 & Henv1 & lines1 & Htrace1)|
        (function & functionName & arguments & nameText & argumentsText &
         Hfunction & Hname & Harguments & HnameText & HargumentsText)].
  { rewrite (processFunctionCall_throw _ _ _ _ e st1) by done.
    eexists _, _. split; [done|]. cbn [reported messages trace].
    destruct Hkept1 as (_&_&_&_&->&_). split; [constructor|].
    rewrite Htrace1, <-app_assoc. by eexists. }
  destruct (run_tool_call_recorded _ _ _ _ _ _ st Hfunction Hname Harguments HnameText
              HargumentsText)
    as (functionArgs & st1 & executed & st2 & st3 & _ & _ & Hrun &
        (_&_&_&_&_&Htrace1) & (_&_&_&_&_&Htrace2) & _ & _ & _ & _ & _ & [lines Htrace3] &
        Hmessages).
  destruct (agent_chat_result modelName (messages st3) st3)
    as (finalResponse & st4 & Hchat & Hkept & _).
  assert (grown (messages st) (messages st4)) as Hgrown.
  { destruct Hkept as (_&_&_&_&->&_). rewrite Hmessages.
    apply grown_call. constructor. }
  assert (∃ evs, trace st4 = trace st ++ evs) as Htrace4.
  { destruct Hkept as (_&_&_&_&_&Htrace4).
    assert (∃ evs, trace st3 = trace st2 ++ evs) by eauto.
    eauto using trace_extended_trans. }
  destruct finalResponse as [finalText|next].
  - rewrite (processFunctionCall_text _ _ _ _ st3 finalText st4) by done.
    eexists _, _. split; [done|]. split; [by apply grown_text|].
    eapply trace_extended_trans; [done|]. by eexists.
  - rewrite (processFunctionCall_next _ _ _ _ st3 next st4) by done.
    destruct (IH next st4) as (outcome & st' & Hnext & Hgrown' & Htrace').
    exists outcome, st'. split; [done|]. split; [by eapply grown_trans|].
    by eapply trace_extended_trans.
Qed.

Lemma chat_loop_grown fuel modelName inputs st :
  ∃ outcome st',
    chat_loop fuel modelName inputs st = (Normal outcome, st') ∧
    grown (messages st) (messages st').
Proof.
  revert st. induction inputs as [|userMessage rest IH]; intros st.
  { exists Finished, st. split; [done|constructor]. }
  cbn [chat_loop]. destruct (is_exit_command userMessage).
  { exists Finished, st. split; [done|constructor]. }
  rewrite run_bind. cbn [push set_messages].
  set (st0 := {| env := env st |}).
  rewrite run_bind. unfold gets at 1. rewrite run_bind.
  destruct (agent_chat_result modelName (messages st0) st0)
    as (response & st1 & Hchat & Hkept & _).
  rewrite Hchat.
  assert (grown (messages st) (messages st1)) as Hgrown.
  { destruct Hkept as (_&_&_&_&->&_). cbn. apply grown_text; [done|constructor]. }
  destruct response as [text|function_call].
  - destruct (String.eqb text "").
    + rewrite run_bind. cbn [logger_error emit].
      match goal with |- context [chat_loop _ _ rest ?s] => destruct (IH s) as (o & st' & -> & Hg) end.
      exists o, st'. split; [done|]. by eapply grown_trans.
    + rewrite run_bind. cbn [console_log emit]. rewrite run_bind. cbn [push set_messages].
      match goal with |- context [chat_loop _ _ rest ?s] => destruct (IH s) as (o & st' & -> & Hg) end.
      exists o, st'. split; [done|]. eapply grown_trans; [|done].
      cbn. by apply grown_text.
  - rewrite run_bind.
    destruct (processFunctionCall_grown fuel modelName function_call st1)
      as (outcome & st2 & -> & Hgrown2 & _).
    destruct outcome.
    + destruct (IH st2) as (o & st' & -> & Hg).
      exists o, st'. split; [done|]. eapply grown_trans; [|done]. by eapply grown_trans.
    + exists OutOfFuel, st2. split; [done|]. by eapply grown_trans.
Qed.

Lemma quiet_listModels : quiet listModels.
Proof. unfold listModels. repeat quiet_step. Qed.

Lemma no_throw_listModels : no_throw listModels.
Proof. unfold listModels. repeat no_throw_step. Qed.

Lemma quiet_select_model models : quiet (select_model (Env:=Env) models).
Proof. unfold select_model. repeat quiet_step. Qed.

Lemma no_throw_select_model models : no_throw (select_model (Env:=Env) models).
Proof. unfold select_model. repeat no_throw_step. Qed.

Lemma interactiveChat_grown fuel inputs st :
  ∃ outcome st',
    interactiveChat fuel inputs st = (Normal outcome, st') ∧
    (messages st' = messages st ∨ grown [] (messages st')).
Proof.
  unfold interactiveChat. rewrite run_bind.
  destruct (listModels st) as [c st1] eqn:Hlist.
  destruct (no_throw_listModels st) as [models Hmodels].
  pose proof (quiet_listModels st) as Hkept1.
  rewrite Hlist in Hmodels, Hkept1. cbn in Hmodels, Hkept1. subst c.
  rewrite run_bind.
  destruct (select_model models st1) as [c st2] eqn:Hselect.
  destruct (no_throw_select_model models st1) as [selected Hselected].
  pose proof (quiet_select_model models st1) as Hkept2.
  rewrite Hselect in Hselected, Hkept2. cbn in Hselected, Hkept2. subst c.
  destruct selected as [modelName|].
  - rewrite run_bind. cbn [set_messages]. rewrite run_bind. cbn [push set_messages messages].
    match goal with |- context [try_eff (chat_loop _ _ _) _ ?s] =>
      destruct (chat_loop_grown fuel modelName inputs s) as (o & st' & Hloop & Hg) end.
    rewrite (try_eff_normal _ _ _ o st') by done.
    exists o, st'. split; [done|]. right. cbn in Hg.
    eapply grown_trans; [|exact Hg]. apply (grown_text [] []); [done|constructor].
  - exists Finished, st2. split; [done|]. left.
    destruct Hkept1 as (_&_&_&_&?&_), Hkept2 as (_&_&_&_&?&_). congruence.
Qed.

End SessionFacts.

(** ** Dispatch and turn processing *)

Section Dispatch.
Context `{Externals Env}.
Implicit Types st : State Env.

Lemma substring_from_append (p s : string) :
  JsString.substring_from (String.length p) (p +:+ s) = s.
Proof.
  induction p as [|c p' IH]; [by destruct s|].
  change (String c p' +:+ s) with (String c (p' +:+ s)). exact IH.
Qed.

Lemma filter_calls_logs (lines : list string) :
  filter is_tool_called (LogError <$> lines) = [].
Proof.
  induction lines as [|line lines IH]; [done|].
  rewrite fmap_cons, filter_cons. by destruct (decide _).
Qed.

(** Normalising the arguments calls no tool. *)
Lemma parse_arguments_no_call function st :
  filter is_tool_called (trace (parse_arguments function st).2) =
  filter is_tool_called (trace st).
Proof.
  destruct (get_prop function "arguments") as [arguments|e] eqn:Harguments.
  - rewrite (parse_arguments_cases _ arguments) by done.
    destruct (ToString arguments) as [text|e]; [|done].
    destruct (typeof_object arguments); [done|].
    destruct (JSON_parse text); [done|].
    cbn. by rewrite filter_app, app_nil_r.
  - unfold parse_arguments, try_eff. rewrite Harguments. by run_eff.
Qed.

(** A name without the prefix is not dispatched anywhere. *)
Lemma executeFunction_not_implemented functionName functionArgs st :
  JsString.startsWith functionName "mcp_" = false →
  executeFunction (JStr functionName) functionArgs st =
  (Normal (Some ("Función " +:+ functionName +:+ " no implementada")), st).
Proof.
  intros Hprefix. unfold executeFunction, try_eff. rewrite run_bind.
  unfold lift at 1. cbn [startsWith_any]. rewrite Hprefix. by run_eff.
Qed.

Lemma executeFunction_not_connected toolName functionArgs st :
  toolsMCP st = None ∨ client st = None →
  ∃ st',
    executeFunction (JStr ("mcp_" +:+ toolName)) functionArgs st =
    (Normal (Some ("Error ejecutando la herramienta MCP " +:+ toolName +:+ ": "
                   +:+ error_to_string (gateway_error st))), st') ∧
    env st' = env st ∧
    filter is_tool_called (trace st') = filter is_tool_called (trace st).
Proof.
  intros Hgateway. unfold executeFunction, try_eff at 1. rewrite run_bind.
  unfold lift at 1. cbn [startsWith_any]. rewrite startsWith_append.
  rewrite run_bind. unfold lift at 1. cbn [substring_any].
  rewrite (substring_from_append "mcp_").
  unfold try_eff at 1. rewrite run_bind.
  unfold executeMcpTool, gateway_error. rewrite run_bind. unfold gets at 1.
  destruct (toolsMCP st) as [catalog|] eqn:Hcatalog.
  - destruct Hgateway as [|Hclient]; [done|].
    unfold try_eff, MCPClient_executeTool. rewrite run_bind. unfold gets at 1.
    rewrite Hclient. cbn.
    eexists. split; [done|]. split; [done|]. cbn.
    by rewrite filter_app, app_nil_r.
  - cbn. eexists. by split.
Qed.


(** Once the invocation and its result are recorded, the turn goes on: the
    extended history is sent to the backend. *)
Lemma processFunctionCall_requery fuel modelName function_call st st3 :
  run_tool_call function_call st = (Normal (), st3) →
  ∃ outcome st',
    processFunctionCall (S fuel) modelName function_call st = (Normal outcome, st') ∧
    ChatSent {| req_model := modelName; req_messages := messages st3;
                req_tools := Some (getAllTools (builtInTools st3) (toolsMCP st3));
                req_options := None |} ∈ trace st'.
Proof.
  intros Hrun.
  destruct (agent_chat_result modelName (messages st3) st3)
    as (finalResponse & st4 & Hchat & _ & evs & Hsent).
  destruct finalResponse as [finalText|next].
  - rewrite (processFunctionCall_text _ _ _ _ st3 finalText st4) by done.
    eexists _, _. split; [done|]. cbn. rewrite Hsent.
    rewrite !elem_of_app, elem_of_cons. auto.
  - rewrite (processFunctionCall_next _ _ _ _ st3 next st4) by done.
    destruct (processFunctionCall_grown fuel modelName next st4)
      as (outcome & st' & Hnext & _ & evs' & Htrace).
    exists outcome, st'. split; [done|]. rewrite Htrace, Hsent.
    rewrite !elem_of_app, elem_of_cons. auto.
Qed.

(** C1. In a history built by turn processing from [system, user], every
    tool-role message carries the id of the one invocation of the assistant
    message just before it, and every invocation is followed by its
    tool-role message: the pairing is one to one. *)
Theorem tool_results_follow_their_invocations
    fuel modelName function_call st system user :
  messages st = [text_message SYSTEM system; text_message USER user] →
  tool_results_paired (messages (processFunctionCall fuel modelName function_call st).2).
Proof.
  intros Hstart.
  destruct (processFunctionCall_grown fuel modelName function_call st)
    as (outcome & st' & -> & Hgrown & _).
  apply (grown_paired _ _ Hgrown). rewrite Hstart.
  apply (paired_plain [_]); [|done]. apply (paired_plain []); [|done]. apply paired_nil.
Qed.

(** The same pairing holds for the history of a whole session. *)
Corollary session_tool_results_paired fuel inputs st :
  messages st = [] →
  tool_results_paired (messages (interactiveChat fuel inputs st).2).
Proof.
  intros Hempty.
  destruct (interactiveChat_grown fuel inputs st) as (outcome & st' & -> & [Hsame|Hgrown]).
  - cbn. rewrite Hsame, Hempty. apply paired_nil.
  - apply (grown_paired _ _ Hgrown), paired_nil.
Qed.

(** C8. In a session, the id of every invocation is made from the length
    the history had when the invocation was recorded, so the ids of a
    session come from strictly increasing lengths and are pairwise
    distinct. *)
Theorem session_ids_follow_history_length fuel inputs st :
  messages st = [] →
  ids_from_length (messages (interactiveChat fuel inputs st).2) ∧
  ∃ lengths : list nat,
    call_ids (messages (interactiveChat fuel inputs st).2) = call_id_at <$> lengths ∧
    StronglySorted Nat.lt lengths ∧
    NoDup (call_ids (messages (interactiveChat fuel inputs st).2)).
Proof.
  intros Hempty.
  destruct (interactiveChat_grown fuel inputs st) as (outcome & st' & -> & Hgrown).
  assert (ids_from_length (messages st')) as Hids.
  { destruct Hgrown as [->|Hgrown]; [rewrite Hempty; apply ids_nil|].
    apply (grown_ids _ _ Hgrown), ids_nil. }
  split; [done|]. by apply ids_increase.
Qed.

(** C4. When the model asks for one invocation, the invocation is
    recorded ([run_tool_call] reaches its end, as it does for every
    invocation with a [function] record whose name and arguments can be
    converted to strings) and the follow-up chat answers with text, then
    the turn appends three messages and no more: the assistant message with
    the invocation (its id, its name, and its arguments re-encoded: an
    object as it is, anything else as the text [JSON.stringify] gives for
    it), the tool message with the result under the same id and name, and
    the assistant message with the text. *)
Theorem one_invocation_then_text_appends_three
    fuel modelName function_call st st3 finalText st4 :
  run_tool_call function_call st = (Normal (), st3) →
  OllamaAgent_chat modelName (messages st3) None st3 = (Normal (TextResult finalText), st4) →
  ∃ function functionName arguments functionArgs st1 executed st2,
    get_prop function_call "function" = Normal function ∧
    get_prop function "name" = Normal functionName ∧
    get_prop function "arguments" = Normal arguments ∧
    parse_arguments function st = (Normal functionArgs, st1) ∧
    executeFunction functionName functionArgs st1 = (Normal executed, st2) ∧
    (processFunctionCall (S fuel) modelName function_call st).1 = Normal Finished ∧
    messages (processFunctionCall (S fuel) modelName function_call st).2 =
      messages st ++
      [ {| role := ASSISTANT; content := None;
           tool_calls :=
             Some [ {| call_id := "call_" +:+ pretty (length (messages st));
                       call_function_name := functionName;
                       call_function_arguments :=
                         if typeof_object arguments then arguments
                         else match JSON_stringify_any arguments with
                              | Some text => JStr text
                              | None => JUndefined
                              end |} ];
           tool_call_id := None; name := None |};
        {| role := TOOL;
           content :=
             Some (default "Error: Función no implementada o falló la ejecución" executed);
           tool_calls := None;
           tool_call_id := Some ("call_" +:+ pretty (length (messages st)));
           name := Some functionName |};
        {| role := ASSISTANT; content := Some finalText; tool_calls := None;
           tool_call_id := None; name := None |} ] ∧
    length (messages (processFunctionCall (S fuel) modelName function_call st).2) =
      length (messages st) + 3.
Proof.
  intros Hrun Hchat.
  destruct (run_tool_call_cases function_call st)
    as [(e & st1 & Hthrow & _)|
        (function & functionName & arguments & nameText & argumentsText &
         Hfunction & Hname & Harguments & HnameText & HargumentsText)];
    [by rewrite Hrun in Hthrow|].
  destruct (run_tool_call_recorded _ _ _ _ _ _ st Hfunction Hname Harguments HnameText
              HargumentsText)
    as (functionArgs & st1 & executed & st2 & st3' & Hparse & Hexecuted & Hrun' & _ & _ & _ &
        _ & _ & _ & _ & _ & Hmessages).
  rewrite Hrun in Hrun'. injection Hrun' as <-.
  pose proof (quiet_agent_chat modelName (messages st3) None st3) as Hkept.
  rewrite Hchat in Hkept. destruct Hkept as (_&_&_&_&Hsame&_). cbn in Hsame.
  exists function, functionName, arguments, functionArgs, st1, executed, st2.
  rewrite (processFunctionCall_text _ _ _ _ st3 finalText st4) by done.
  do 6 (split; [done|]). cbn [snd answered messages].
  rewrite Hsame, Hmessages, <-app_assoc. split; [done|].
  rewrite length_app. cbn. lia.
Qed.

(** X27. An invocation whose name has no remote prefix, and whose
    arguments can be converted to a string, is answered with the "no implementada" text,
    which is fixed by the name alone (it does not depend on the arguments,
    the agent or the outside world); the invocation and this result are
    pushed, and the turn goes on with the follow-up chat. *)
Theorem unresolved_tool_is_answered_in_text
    fuel modelName function_call function toolName arguments argumentsText st :
  get_prop function_call "function" = Normal function →
  get_prop function "name" = Normal (JStr toolName) →
  get_prop function "arguments" = Normal arguments →
  ToString arguments = Normal argumentsText →
  JsString.startsWith toolName "mcp_" = false →
  ∃ st3 outcome st',
    run_tool_call function_call st = (Normal (), st3) ∧
    messages st3 =
      messages st ++
      [assistant_call_message (call_id_at (length (messages st))) (JStr toolName)
         (encoded_arguments arguments);
       tool_result_message (call_id_at (length (messages st))) (JStr toolName)
         ("Función " +:+ toolName +:+ " no implementada")] ∧
    processFunctionCall (S fuel) modelName function_call st = (Normal outcome, st') ∧
    ChatSent {| req_model := modelName; req_messages := messages st3;
                req_tools := Some (getAllTools (builtInTools st) (toolsMCP st));
                req_options := None |} ∈ trace st'.
Proof.
  intros Hfunction Hname Harguments HargumentsText Hprefix.
  destruct (run_tool_call_recorded _ _ _ _ toolName _ st Hfunction Hname Harguments
              eq_refl HargumentsText)
    as (functionArgs & st1 & executed & st2 & st3 & Hparse & Hexecuted & Hrun & _ & _ & _ &
        _ & _ & Hbuiltin & Hcatalog & _ & Hmessages).
  rewrite executeFunction_not_implemented in Hexecuted by done.
  injection Hexecuted as <- <-.
  destruct (processFunctionCall_requery fuel modelName _ _ _ Hrun)
    as (outcome & st' & Hturn & Hsent).
  rewrite Hbuiltin, Hcatalog in Hsent.
  by exists st3, outcome, st'.
Qed.

(** X28. When the agent has no remote catalog, or the gateway has no
    client, an invocation with the remote prefix, whose arguments can be
    converted to a string, does not end the turn: the error thrown by the remote
    executor is caught in [executeFunction], its text becomes the content
    of the tool message, no call reaches the tool provider, and the
    follow-up chat is sent. *)
Theorem remote_call_without_gateway_is_answered_in_text
    fuel modelName function_call function toolName arguments argumentsText st :
  get_prop function_call "function" = Normal function →
  get_prop function "name" = Normal (JStr ("mcp_" +:+ toolName)) →
  get_prop function "arguments" = Normal arguments →
  ToString arguments = Normal argumentsText →
  toolsMCP st = None ∨ client st = None →
  ∃ st3 outcome st',
    run_tool_call function_call st = (Normal (), st3) ∧
    messages st3 =
      messages st ++
      [assistant_call_message (call_id_at (length (messages st)))
         (JStr ("mcp_" +:+ toolName)) (encoded_arguments arguments);
       tool_result_message (call_id_at (length (messages st)))
         (JStr ("mcp_" +:+ toolName))
         ("Error ejecutando la herramienta MCP " +:+ toolName +:+ ": "
          +:+ error_to_string (gateway_error st))] ∧
    filter is_tool_called (trace st3) = filter is_tool_called (trace st) ∧
    processFunctionCall (S fuel) modelName function_call st = (Normal outcome, st') ∧
    ChatSent {| req_model := modelName; req_messages := messages st3;
                req_tools := Some (getAllTools (builtInTools st) (toolsMCP st));
                req_options := None |} ∈ trace st'.
Proof.
  intros Hfunction Hname Harguments HargumentsText Hgateway.
  destruct (run_tool_call_recorded _ _ _ _ ("mcp_" +:+ toolName) _ st Hfunction Hname
              Harguments eq_refl HargumentsText)
    as (functionArgs & st1 & executed & st2 & st3 & Hparse & Hexecuted & Hrun & Hkept1 & _ &
        _ & _ & _ & Hbuiltin & Hcatalog & Htrace & Hmessages).
  destruct Hkept1 as (Hclient1 & _ & _ & Hcatalog1 & _ & Htrace1).
  destruct (executeFunction_not_connected toolName functionArgs st1)
    as (st2' & Hexecuted' & _ & Hcalls).
  { by rewrite Hclient1, Hcatalog1. }
  rewrite Hexecuted' in Hexecuted. injection Hexecuted as <- <-.
  destruct (processFunctionCall_requery fuel modelName _ _ _ Hrun)
    as (outcome & st' & Hturn & Hsent).
  rewrite Hbuiltin, Hcatalog in Hsent.
  exists st3, outcome, st'.
  split; [done|]. split.
  { rewrite Hmessages. unfold gateway_error. by rewrite Hcatalog1. }
  split; [|done].
  destruct Htrace as [lines ->].
  rewrite filter_app, filter_calls_logs, app_nil_r, Hcalls.
  pose proof (parse_arguments_no_call function st) as Hparsed.
  by rewrite Hparse in Hparsed.
Qed.

End Dispatch.

(** ** Catalog and gateway *)

Section Catalog.
Context `{Externals Env}.
Implicit Types st : State Env.

Lemma getAllTools_app builtIn catalog :
  getAllTools builtIn (Some catalog) = builtIn ++ (ollama_tool <$> tools catalog).
Proof.
  unfold getAllTools. generalize (tools catalog) as remote. intros remote.
  revert builtIn. induction remote as [|mcpTool remote IH]; intros builtIn.
  { by rewrite app_nil_r. }
  cbn [foldl]. rewrite IH, <-app_assoc. done.
Qed.

(** Without a remote catalog the local descriptors are all there is. *)
Lemma getAllTools_local builtIn : getAllTools builtIn None = builtIn.
Proof. done. Qed.

Lemma bind_first_event {A B} ev (m : Eff Env A) (f : A → Eff Env B) st :
  (∃ evs, trace (m st).2 = trace st ++ ev :: evs) →
  (∀ a, quiet (f a)) →
  ∃ evs, trace ((m ≫= f) st).2 = trace st ++ ev :: evs.
Proof.
  intros [evs Hm] Hf. rewrite run_bind.
  destruct (m st) as [[a|e] st1]; [|by exists evs].
  destruct (Hf a st1) as (_&_&_&_&_&evs'&Hevs'). cbn in Hm.
  exists (evs ++ evs'). rewrite Hevs', Hm, <-app_assoc. done.
Qed.

Lemma try_first_event {A} ev (body : Eff Env A) handler st :
  (∃ evs, trace (body st).2 = trace st ++ ev :: evs) →
  (∀ e, quiet (handler e)) →
  ∃ evs, trace (try_eff body handler st).2 = trace st ++ ev :: evs.
Proof.
  intros [evs Hm] Hf. unfold try_eff.
  destruct (body st) as [[a|e] st1]; [by exists evs|].
  destruct (Hf e st1) as (_&_&_&_&_&evs'&Hevs'). cbn in Hm.
  exists (evs ++ evs'). rewrite Hevs', Hm, <-app_assoc. done.
Qed.

(** With a catalog and a client, dispatch on a prefixed name calls the tool
    provider with the name behind the prefix. *)
Lemma executeFunction_calls_provider toolName args st :
  client st ≠ None → toolsMCP st ≠ None →
  ∃ evs,
    trace (executeFunction (JStr ("mcp_" +:+ toolName)) args st).2 =
    trace st ++ ToolCalled toolName args :: evs.
Proof.
  intros Hclient Hcatalog. unfold executeFunction.
  apply try_first_event; [|intros e; repeat quiet_step].
  rewrite run_bind. unfold lift at 1. cbn [startsWith_any]. rewrite startsWith_append.
  rewrite run_bind. unfold lift at 1. cbn [substring_any].
  rewrite (substring_from_append "mcp_").
  apply try_first_event; [|intros e; repeat quiet_step].
  apply bind_first_event; [|intros result; repeat quiet_step].
  unfold executeMcpTool. rewrite run_bind. unfold gets at 1.
  destruct (toolsMCP st) as [catalog|]; [|done].
  apply try_first_event; [|intros e; repeat quiet_step].
  unfold MCPClient_executeTool. rewrite run_bind. unfold gets at 1.
  destruct (client st) as [c|]; [|done].
  apply try_emit_trace; [|intros e]; repeat quiet_step.
Qed.

(** C2 (amended). The prefix of the code is ["mcp_"]: a remote tool [n] is
    advertised as ["mcp_" + n]; dispatch on ["mcp_" + n], when the agent has
    a catalog and a client, calls the tool provider with [n]; and a name
    that does not start with ["mcp_"] never reaches the tool provider. *)
Theorem mcp_prefix_round_trip : prefix_round_trip "mcp_".
Proof.
  split; [|split].
  - intros builtIn catalog mcpTool Hin. exists (ollama_tool mcpTool). split; [|done].
    rewrite getAllTools_app, elem_of_app. right. by apply list_elem_of_fmap_2.
  - intros toolName args st. apply executeFunction_calls_provider.
  - intros functionName args st Hprefix.
    by rewrite executeFunction_not_implemented.
Qed.

Lemma no_throw_disconnect : no_throw MCPClient_disconnect.
Proof. unfold MCPClient_disconnect. repeat no_throw_step. Qed.

Lemma no_throw_connect : no_throw MCPClient_connect.
Proof.
  unfold MCPClient_connect. apply no_throw_try. intros e.
  apply no_throw_bind; [destruct (includes _ _); apply no_throw_emit|intros _].
  apply no_throw_bind; [apply no_throw_disconnect|intros _]. apply no_throw_ret.
Qed.

(** [disconnect] releases both handles when there is no client or the
    client closes. *)
Lemma disconnect_releases st :
  client st = None ∨ (sdk_client_close (env st)).2 = Normal () →
  disconnected (MCPClient_disconnect st).2.
Proof.
  intros Hclose. unfold MCPClient_disconnect, try_eff.
  rewrite run_bind. unfold gets at 1. rewrite run_bind.
  destruct (client st) as [c|] eqn:Hclient.
  - destruct Hclose as [|Hclose]; [done|].
    rewrite run_bind. unfold external at 1.
    destruct (sdk_client_close (env st)) as [world' closed]. cbn in Hclose. subst closed.
    by cbn.
  - by cbn.
Qed.

Lemma connect_failure st e st1 :
  connect_steps st = (Throw e, st1) →
  ∃ st',
    MCPClient_connect st = (Normal false, st') ∧
    (client st1 = None ∨ (sdk_client_close (env st1)).2 = Normal () → disconnected st').
Proof.
  intros Hsteps. unfold MCPClient_connect, try_eff. rewrite Hsteps.
  rewrite run_bind.
  destruct (includes (err_message e) "connect"); cbn [console_error emit];
    rewrite run_bind;
    match goal with |- context [MCPClient_disconnect ?s] =>
      destruct (no_throw_disconnect s) as [[] Hdone];
      pose proof (disconnect_releases s) as Hreleased;
      destruct (MCPClient_disconnect s) as [c st']; cbn in Hdone; subst c;
      exists st'; (split; [done|exact Hreleased])
    end.
Qed.

Lemma keeps_catalog_quiet {A} (m : Eff Env A) : quiet m → keeps_catalog m.
Proof. intros Hm st. destruct (Hm st) as (_&_&?&?&?&_). by repeat split. Qed.

Lemma keeps_catalog_bind {A B} (m : Eff Env A) (f : A → Eff Env B) :
  keeps_catalog m → (∀ a, keeps_catalog (f a)) → keeps_catalog (m ≫= f).
Proof.
  intros Hm Hf st. specialize (Hm st). rewrite run_bind.
  destruct (m st) as [[a|e] st1]; [|done]. cbn in Hm.
  destruct Hm as (?&?&?), (Hf a st1) as (?&?&?). repeat split; congruence.
Qed.

Lemma keeps_catalog_try {A} (body : Eff Env A) handler :
  keeps_catalog body → (∀ e, keeps_catalog (handler e)) → keeps_catalog (try_eff body handler).
Proof.
  intros Hm Hf st. specialize (Hm st). unfold try_eff.
  destruct (body st) as [[a|e] st1]; [done|]. cbn in Hm.
  destruct Hm as (?&?&?), (Hf e st1) as (?&?&?). repeat split; congruence.
Qed.

Lemma keeps_catalog_set_client c : keeps_catalog (set_client (Env:=Env) c).
Proof. by intros st. Qed.

Lemma keeps_catalog_set_transport t : keeps_catalog (set_transport (Env:=Env) t).
Proof. by intros st. Qed.

Lemma keeps_catalog_disconnect : keeps_catalog MCPClient_disconnect.
Proof.
  unfold MCPClient_disconnect.
  apply keeps_catalog_try; [|intros e; apply keeps_catalog_quiet; repeat quiet_step].
  apply keeps_catalog_bind; [apply keeps_catalog_quiet; repeat quiet_step|intros c].
  apply keeps_catalog_bind; [|intros _].
  - destruct c; [|apply keeps_catalog_quiet; repeat quiet_step].
    apply keeps_catalog_bind; [apply keeps_catalog_quiet; repeat quiet_step|intros _].
    apply keeps_catalog_set_client.
  - apply keeps_catalog_bind; [apply keeps_catalog_set_transport|intros _].
    apply keeps_catalog_quiet; repeat quiet_step.
Qed.

Lemma keeps_catalog_connect : keeps_catalog MCPClient_connect.
Proof.
  unfold MCPClient_connect, connect_steps. apply keeps_catalog_try.
  - repeat (apply keeps_catalog_bind; [|intros ?]);
      first [apply keeps_catalog_set_client | apply keeps_catalog_set_transport
            | apply keeps_catalog_quiet; repeat quiet_step].
  - intros e. apply keeps_catalog_bind; [|intros _].
    { apply keeps_catalog_quiet. repeat quiet_step. }
    apply keeps_catalog_bind; [apply keeps_catalog_disconnect|intros _].
    apply keeps_catalog_quiet. repeat quiet_step.
Qed.

Lemma quiet_checkConnection : quiet checkConnection.
Proof. unfold checkConnection. repeat quiet_step. Qed.

(** [setup] when the backend answers and the gateway does not. *)
Lemma setup_without_gateway st st0 st1 :
  checkConnection st = (Normal true, st0) →
  MCPClient_connect st0 = (Normal false, st1) →
  setup st = (Normal SetupDone, st1) ∧
  toolsMCP st1 = toolsMCP st ∧ builtInTools st1 = builtInTools st.
Proof.
  intros Hcheck Hconnect. split.
  - unfold setup. rewrite run_bind. unfold try_eff at 1.
    rewrite run_bind, Hcheck. cbn [mret Eff_ret].
    rewrite run_bind. unfold try_eff. by rewrite run_bind, Hconnect.
  - pose proof (quiet_checkConnection st) as (_&_&Hb&Hc&_).
    pose proof (keeps_catalog_connect st0) as (Hb'&Hc'&_).
    rewrite Hcheck in Hb, Hc. rewrite Hconnect in Hb', Hc'. cbn in *.
    split; congruence.
Qed.

(** X26. [connect] never throws. When the attempt fails it returns false,
    and the gateway is back without client and transport provided the
    client, if one was made, can be closed. After a [connect] that returned
    false, [setup] returns normally, with the remote catalog and the local
    descriptors as they were. *)
Theorem connect_fails_softly :
  (∀ st, ∃ connected st', MCPClient_connect st = (Normal connected, st')) ∧
  (∀ st e st1,
     connect_steps st = (Throw e, st1) →
     ∃ st',
       MCPClient_connect st = (Normal false, st') ∧
       (client st1 = None ∨ (sdk_client_close (env st1)).2 = Normal () →
        disconnected st')) ∧
  (∀ st st0 st1,
     checkConnection st = (Normal true, st0) →
     MCPClient_connect st0 = (Normal false, st1) →
     setup st = (Normal SetupDone, st1) ∧
     toolsMCP st1 = toolsMCP st ∧ builtInTools st1 = builtInTools st).
Proof.
  split; [|split].
  - intros st. destruct (no_throw_connect st) as [connected Hconnected].
    exists connected, (MCPClient_connect st).2.
    destruct (MCPClient_connect st); cbn in *; by subst.
  - intros st e st1. apply connect_failure.
  - intros st st0 st1. apply setup_without_gateway.
Qed.

End Catalog.

(** ** The decoder *)

Section DecoderFacts.
Context `{Externals Env}.

Lemma accumulate_record record fullResponse :
  is_chat_record record = true →
  accumulate record fullResponse = Normal (fullResponse +:+ record_content record).
Proof.
  intros Hrecord. unfold accumulate, record_content, record_message.
  destruct record as [| | | | |?|props]; try done.
  cbn [get_prop is_chat_record mbind completion_bind] in *.
  destruct (own_prop props "message") as [message|].
  2: { cbn. by rewrite append_nil_r. }
  destruct message as [| | | | |?|fields]; try done.
  { cbn. by rewrite append_nil_r. }
  cbn [is_chat_message] in Hrecord. apply andb_prop in Hrecord as [_ Hcontent].
  cbn [js_and truthy get_prop mbind completion_bind].
  destruct (own_prop fields "content") as [fragment|].
  - destruct fragment as [| | | |fragment| |]; try done.
    + cbn. by rewrite append_nil_r.
    + cbn. destruct (String.eqb_spec fragment ""); subst; cbn; by rewrite ?append_nil_r.
  - cbn. by rewrite append_nil_r.
Qed.

Lemma function_call_of_record record :
  is_chat_record record = true →
  function_call_of record = Normal (head (record_invocations record)).
Proof.
  intros Hrecord. unfold function_call_of, record_invocations, record_message.
  destruct record as [| | | | |?|props]; try done.
  cbn [get_prop is_chat_record mbind completion_bind] in *.
  destruct (own_prop props "message") as [message|]; [|done].
  destruct message as [| | | | |?|fields]; try done.
  cbn [is_chat_message] in Hrecord. apply andb_prop in Hrecord as [Hcalls _].
  cbn [js_and truthy get_prop mbind completion_bind].
  destruct (own_prop fields "tool_calls") as [calls|]; [|done].
  destruct calls as [| | | | |calls|]; try done.
  destruct calls as [|call calls]; [done|].
  cbn [forallb] in Hcalls. apply andb_prop in Hcalls as [Hcall _].
  by destruct call.
Qed.
(** On a record of the response format, one line either yields the first
    invocation of its list or adds its content fragment. *)
Lemma decode_line_record line record fullResponse :
  JSON_parse line = Normal record →
  is_chat_record record = true →
  decode_line line fullResponse =
    Normal match record_invocations record with
           | call :: _ => Return (InvocationResult call)
           | [] => Continue (fullResponse +:+ record_content record)
           end.
Proof.
  intros Hparse Hrecord. unfold decode_line.
  rewrite Hparse. cbn [mbind completion_bind].
  rewrite function_call_of_record by done. cbn [mbind completion_bind].
  destruct (record_invocations record) as [|call ?]; cbn [head]; [|done].
  by rewrite accumulate_record.
Qed.

Lemma decode_line_unparsed line fullResponse e :
  JSON_parse line = Throw e → decode_line line fullResponse = Throw e.
Proof. intros Hparse. unfold decode_line. by rewrite Hparse. Qed.

Lemma decode_lines_records lines fullResponse :
  (∀ line record,
     line ∈ lines → JSON_parse line = Normal record → is_chat_record record = true) →
  (decode_lines lines fullResponse).1 =
    match first_invocation (parsed_records lines) with
    | Some call => InvocationResult call
    | None => TextResult (fullResponse +:+ concat_contents (parsed_records lines))
    end.
Proof.
  revert fullResponse. induction lines as [|line rest IH]; intros fullResponse Hrecords.
  { cbn. by rewrite append_nil_r. }
  assert (∀ l record, l ∈ rest → JSON_parse l = Normal record →
                      is_chat_record record = true) as Hrest.
  { intros l record Hin. apply Hrecords. by right. }
  unfold parsed_records. cbn [decode_lines omap list_omap].
  fold (parsed_records rest).
  destruct (JSON_parse line) as [record|e] eqn:Hparse.
  - assert (is_chat_record record = true) as Hrecord
      by (apply (Hrecords line); [left|done]).
    rewrite (decode_line_record _ record) by done.
    cbn [first_invocation concat_contents foldr].
    destruct (record_invocations record) as [|call ?]; [|done].
    rewrite IH by done. fold (concat_contents (parsed_records rest)).
    by rewrite append_assoc.
  - rewrite (decode_line_unparsed _ _ e) by done.
    specialize (IH fullResponse Hrest).
    destruct (decode_lines rest fullResponse) as [result log]. exact IH.
Qed.


(** C3. On a response whose lines, where they parse, are records of the
    chat format, the decoder scans the lines in order and returns the first
    invocation of the first line whose message carries a non-empty
    tool-invocation list, whatever the other lines hold; when there is no
    such line it returns the content fragments of the lines that parsed,
    concatenated in order. *)
Theorem decoder_first_invocation_else_text (responseText : string) :
  (∀ line record,
     line ∈ response_lines responseText →
     JSON_parse line = Normal record → is_chat_record record = true) →
  (_processResponse responseText).1 =
    match first_invocation (parsed_records (response_lines responseText)) with
    | Some call => InvocationResult call
    | None => TextResult (concat_contents (parsed_records (response_lines responseText)))
    end.
Proof.
  intros Hrecords. unfold _processResponse.
  by rewrite decode_lines_records.
Qed.

End DecoderFacts.

(** ** Chat transport *)

Section Transport.
Context `{Externals Env}.
Implicit Types st : State Env.


End Transport.

(** ** The properties on the scripted examples *)

Section Examples.
Import Scripted.

Example trim_strips_both_ends :
  JsString.trim (String "009" (String "032" ("a b" +:+ String "013" (String "010" ""))))
  = "a b".
Proof. reflexivity. Qed.

Example trim_strips_line_separator :
  JsString.trim (String "226" (String "128" (String "168" "x"))) = "x".
Proof. reflexivity. Qed.

Example split_lines_keeps_empty_lines :
  JsString.split_lines ("a" +:+ String JsString.LF (String JsString.LF "b")) = ["a"; ""; "b"].
Proof. reflexivity. Qed.

Example ToString_of_array :
  ToString (JArr [JNum 4; JNull; JStr "x"; JArr [JBool true; JNum (-6)]])
  = Normal "4,,x,true,-6".
Proof. vm_compute. reflexivity. Qed.

Example ToString_of_unprintable :
  ToString unprintable = Throw cannot_convert ∧
  ToString (JArr [JStr "x"; unprintable]) = Throw cannot_convert ∧
  ToString (JObj [("a", unprintable)]) = Normal "[object Object]".
Proof. repeat split; vm_compute; reflexivity. Qed.

Example exit_command_any_case : is_exit_command "/SaLiR" = true ∧ is_exit_command "salir" = false.
Proof. split; vm_compute; reflexivity. Qed.

Example catalog_of_the_basic_provider :
  tool_function_name <$> getAllTools [] (Some basic_catalog) = ["mcp_lcm"].
Proof. reflexivity. Qed.

(** The lcm scenario through the tool provider: the result of the provider
    is serialized into the tool message. *)
Example lcm_through_the_provider :
  messages (processFunctionCall 1 "mistral:latest" call_mcp_lcm lcm_session_connected).2 =
    messages lcm_session_connected ++
    [assistant_call_message "call_2" (JStr "mcp_lcm") lcm_arguments;
     tool_result_message "call_2" (JStr "mcp_lcm")
       (stringify (JObj [("content",
                          JArr [JObj [("type", JStr "text");
                                      ("text", JStr "The least common multiple is: 12")]])]));
     text_message ASSISTANT lcm_answer] ∧
  filter is_tool_called
    (trace (processFunctionCall 1 "mistral:latest" call_mcp_lcm lcm_session_connected).2) =
    [ToolCalled "lcm" lcm_arguments].
Proof. split; vm_compute; reflexivity. Qed.

(** A model that keeps asking for a tool uses up any fuel. *)
Example repeated_invocations_run_out_of_fuel :
  (processFunctionCall 2 "mistral:latest" call_ghost
     (asked (new_agent (world [ok [invocation_record [call_ghost]];
                               ok [invocation_record [call_ghost]]])) "call ghost")).1
  = Normal OutOfFuel.
Proof. vm_compute. reflexivity. Qed.

Lemma tool_results_follow_their_invocations_witness :
  messages lcm_session =
    [text_message SYSTEM system_prompt; text_message USER "compute lcm of 4 and 6"] ∧
  tool_results_paired
    (messages (processFunctionCall 3 "mistral:latest" call_lcm lcm_session).2).
Proof.
  split; [reflexivity|].
  apply (tool_results_follow_their_invocations 3 "mistral:latest" call_lcm lcm_session
           system_prompt "compute lcm of 4 and 6").
  reflexivity.
Defined.

Lemma session_ids_follow_history_length_witness :
  let history :=
    messages (interactiveChat 3 ["lcm of 4 and 6?"; "and again?"] two_questions).2 in
  messages two_questions = [] ∧
  ids_from_length history ∧
  ∃ lengths : list nat,
    call_ids history = call_id_at <$> lengths ∧
    StronglySorted Nat.lt lengths ∧ NoDup (call_ids history).
Proof.
  intros history.
  split; [reflexivity|].
  apply (session_ids_follow_history_length 3 ["lcm of 4 and 6?"; "and again?"] two_questions).
  reflexivity.
Defined.

Lemma one_invocation_then_text_appends_three_witness :
  messages (processFunctionCall 1 "mistral:latest" call_mcp_lcm lcm_session_connected).2 =
    [ text_message SYSTEM system_prompt;
      text_message USER "compute lcm of 4 and 6";
      {| role := ASSISTANT; content := None;
         tool_calls := Some [ {| call_id := "call_2";
                                 call_function_name := JStr "mcp_lcm";
                                 call_function_arguments := lcm_arguments |} ];
         tool_call_id := None; name := None |};
      {| role := TOOL; content := Some (stringify lcm_result); tool_calls := None;
         tool_call_id := Some "call_2"; name := Some (JStr "mcp_lcm") |};
      {| role := ASSISTANT; content := Some lcm_answer; tool_calls := None;
         tool_call_id := None; name := None |} ] ∧
  messages (processFunctionCall 1 "mistral:latest" call_f lcm_session).2 =
    [ text_message SYSTEM system_prompt;
      text_message USER "compute lcm of 4 and 6";
      {| role := ASSISTANT; content := None;
         tool_calls := Some [ {| call_id := "call_2";
                                 call_function_name := JStr "f";
                                 call_function_arguments := JStr (stringify (JStr "{}")) |} ];
         tool_call_id := None; name := None |};
      {| role := TOOL; content := Some "Función f no implementada"; tool_calls := None;
         tool_call_id := Some "call_2"; name := Some (JStr "f") |};
      {| role := ASSISTANT; content := Some lcm_answer; tool_calls := None;
         tool_call_id := None; name := None |} ] ∧
  length (messages lcm_session) = 2 ∧
  length (messages (processFunctionCall 1 "mistral:latest" call_f lcm_session).2) = 5.
Proof.
  split; [|split; [|split; [reflexivity|]]].
  - edestruct (one_invocation_then_text_appends_three 0 "mistral:latest" call_mcp_lcm
                 lcm_session_connected)
      as (function & functionName & arguments & functionArgs & st1 & executed & st2 &
          Hfunction & Hname & Harguments & Hparse & Hexecuted & _ & Hmessages & _).
    + vm_compute. reflexivity.
    + vm_compute. reflexivity.
    + vm_compute in Hfunction. injection Hfunction as <-.
      vm_compute in Hname. injection Hname as <-.
      vm_compute in Harguments. injection Harguments as <-.
      vm_compute in Hparse. injection Hparse as <- <-.
      vm_compute in Hexecuted. injection Hexecuted as <- _.
      exact Hmessages.
  - edestruct (one_invocation_then_text_appends_three 0 "mistral:latest" call_f lcm_session)
      as (function & functionName & arguments & functionArgs & st1 & executed & st2 &
          Hfunction & Hname & Harguments & Hparse & Hexecuted & _ & Hmessages & _).
    + vm_compute. reflexivity.
    + vm_compute. reflexivity.
    + vm_compute in Hfunction. injection Hfunction as <-.
      vm_compute in Hname. injection Hname as <-.
      vm_compute in Harguments. injection Harguments as <-.
      vm_compute in Hparse. injection Hparse as <- <-.
      vm_compute in Hexecuted. injection Hexecuted as <- _.
      exact Hmessages.
  - edestruct (one_invocation_then_text_appends_three 0 "mistral:latest" call_f lcm_session)
      as (_ & _ & _ & _ & _ & _ & _ & _ & _ & _ & _ & _ & _ & _ & Hlength).
    + vm_compute. reflexivity.
    + vm_compute. reflexivity.
    + exact Hlength.
Defined.

Lemma unresolved_tool_is_answered_in_text_witness :
  JsString.startsWith "ghost" "mcp_" = false ∧
  ∃ st3 outcome st',
    run_tool_call call_ghost failing_session = (Normal (), st3) ∧
    messages st3 =
      messages failing_session ++
      [assistant_call_message (call_id_at (length (messages failing_session)))
         (JStr "ghost") (encoded_arguments (JObj []));
       tool_result_message (call_id_at (length (messages failing_session)))
         (JStr "ghost") ("Función " +:+ "ghost" +:+ " no implementada")] ∧
    processFunctionCall 1 "mistral:latest" call_ghost failing_session = (Normal outcome, st') ∧
    ChatSent {| req_model := "mistral:latest"; req_messages := messages st3;
                req_tools := Some (getAllTools (builtInTools failing_session)
                                     (toolsMCP failing_session));
                req_options := None |} ∈ trace st'.
Proof.
  split; [reflexivity|].
  apply (unresolved_tool_is_answered_in_text 0 "mistral:latest" call_ghost
           (JObj [("name", JStr "ghost"); ("arguments", JObj [])]) "ghost" (JObj [])
           "[object Object]" failing_session);
    reflexivity.
Defined.

Lemma remote_call_without_gateway_is_answered_in_text_witness :
  (toolsMCP lcm_session = None ∨ client lcm_session = None) ∧
  ∃ st3 outcome st',
    run_tool_call call_mcp_lcm lcm_session = (Normal (), st3) ∧
    messages st3 =
      messages lcm_session ++
      [assistant_call_message (call_id_at (length (messages lcm_session)))
         (JStr ("mcp_" +:+ "lcm")) (encoded_arguments lcm_arguments);
       tool_result_message (call_id_at (length (messages lcm_session)))
         (JStr ("mcp_" +:+ "lcm"))
         ("Error ejecutando la herramienta MCP " +:+ "lcm" +:+ ": "
          +:+ error_to_string (gateway_error lcm_session))] ∧
    filter is_tool_called (trace st3) = filter is_tool_called (trace lcm_session) ∧
    processFunctionCall 1 "mistral:latest" call_mcp_lcm lcm_session = (Normal outcome, st') ∧
    ChatSent {| req_model := "mistral:latest"; req_messages := messages st3;
                req_tools := Some (getAllTools (builtInTools lcm_session)
                                     (toolsMCP lcm_session));
                req_options := None |} ∈ trace st'.
Proof.
  split; [left; reflexivity|].
  apply (remote_call_without_gateway_is_answered_in_text 0 "mistral:latest" call_mcp_lcm
           (JObj [("name", JStr "mcp_lcm"); ("arguments", lcm_arguments)]) "lcm"
           lcm_arguments "[object Object]" lcm_session).
  - reflexivity.
  - reflexivity.
  - reflexivity.
  - reflexivity.
  - left. reflexivity.
Defined.

Lemma mcp_prefix_round_trip_witness :
  client lcm_session_connected ≠ None ∧ toolsMCP lcm_session_connected ≠ None ∧
  ∃ evs,
    trace (executeFunction (JStr ("mcp_" +:+ "lcm")) lcm_arguments lcm_session_connected).2 =
    trace lcm_session_connected ++ ToolCalled "lcm" lcm_arguments :: evs.
Proof.
  split; [discriminate|]. split; [discriminate|].
  apply (proj1 (proj2 (mcp_prefix_round_trip (Env:=Script)))); discriminate.
Defined.

(** C2, as the specification words it, with the prefix ["remote_"]: the
    catalog of the basic provider advertises [mcp_lcm], not [remote_lcm]. *)
Lemma remote_prefix_does_not_round_trip : ¬ prefix_round_trip (Env:=Script) "remote_".
Proof.
  intros [Hadvertised _].
  destruct (Hadvertised [] basic_catalog
              {| mcp_name := "lcm";
                 mcp_description :=
                   Some "Calculate the least common multiple of a list of numbers";
                 mcp_inputSchema := Some (JObj [("type", JStr "object")]) |})
    as (advertised & Hin & Hname).
  { left. }
  apply list_elem_of_singleton in Hin. subst advertised. discriminate Hname.
Qed.

(** C6, run on an example. The handshake fails and the client cannot be
    closed either: [disconnect], called by the [catch] block of [connect] to
    roll back, reports the second error and returns before it clears the
    fields, so [connect] returns false with the client and the transport
    still in place, and [setup] goes on in that state. *)
Example connect_failure_may_keep_client :
  let st := new_agent (unreachable_provider (Throw (Error "close failed"))) in
  MCPClient_connect st =
    (Normal false,
     {| env := env st; client := Some SdkClient; transport := Some SdkTransport;
        builtInTools := builtInTools st; toolsMCP := toolsMCP st; messages := messages st;
        trace :=
          [ConsoleError
             "Error desconocido al conectar con servidor MCP: Error: spawn node ENOENT";
           ConsoleError "Error durante la desconexión: Error: close failed"] |}) ∧
  ¬ disconnected (MCPClient_connect st).2 ∧
  (setup st).1 = Normal SetupDone ∧
  client (setup st).2 = Some SdkClient ∧
  ¬ connect_failure_rolls_back (Env:=Script).
Proof.
  intros st. split; [vm_compute; reflexivity|].
  split; [vm_compute; by intros [? _]|].
  split; [vm_compute; reflexivity|]. split; [vm_compute; reflexivity|].
  intros Hrollback.
  edestruct (Hrollback st) as (st' & Hconnect & Hclient & _); [reflexivity|].
  vm_compute in Hconnect. injection Hconnect as <-. discriminate Hclient.
Qed.

Lemma connect_fails_softly_witness :
  let st := new_agent (unreachable_provider (Normal ())) in
  (MCPClient_connect st).1 = Normal false ∧
  disconnected (MCPClient_connect st).2 ∧
  (setup st).1 = Normal SetupDone ∧
  toolsMCP (setup st).2 = None.
Proof.
  intros st.
  destruct (connect_fails_softly (Env:=Script)) as (_ & Hfailure & Hsetup).
  edestruct (Hfailure st) as (st' & Hconnect & Hreleased); [reflexivity|].
  edestruct (Hsetup st) as (Hdone & Hcatalog & _); [reflexivity|exact Hconnect|].
  rewrite Hconnect, Hdone. split; [reflexivity|]. split; [|split; [reflexivity|]].
  - apply Hreleased. right. reflexivity.
  - exact Hcatalog.
Defined.

Lemma decoder_first_invocation_else_text_witness :
  (_processResponse text_AB).1 = TextResult "AB" ∧
  (_processResponse text_ignored_then_call).1 = InvocationResult call_f.
Proof.
  split.
  - rewrite (decoder_first_invocation_else_text text_AB); [reflexivity|].
    intros line record Hin Hparse. vm_compute in Hin.
    apply elem_of_cons in Hin as [->|Hin];
      [|apply elem_of_cons in Hin as [->|Hin]; [|by apply elem_of_nil in Hin]];
      vm_compute in Hparse; injection Hparse as <-; reflexivity.
  - rewrite (decoder_first_invocation_else_text text_ignored_then_call); [reflexivity|].
    intros line record Hin Hparse. vm_compute in Hin.
    apply elem_of_cons in Hin as [->|Hin];
      [|apply elem_of_cons in Hin as [->|Hin]; [|by apply elem_of_nil in Hin]];
      vm_compute in Hparse; injection Hparse as <-; reflexivity.
Defined.


(** C9, run on an example. Inside turn processing, a follow-up chat that
    fails (status 500, so [chat] returns the empty text) is pushed as an
    assistant message with empty content and printed as a reply; the same
    failure at the top of the loop pushes nothing and is reported. *)
Example empty_follow_up_is_pushed_as_an_answer :
  messages (processFunctionCall 1 "mistral:latest" call_ghost failing_session).2 =
    messages failing_session ++
    [assistant_call_message "call_2" (JStr "ghost") (JObj []);
     tool_result_message "call_2" (JStr "ghost") "Función ghost no implementada";
     text_message ASSISTANT ""] ∧
  (LogError "No se pudo obtener una respuesta final del modelo"
     ∉ trace (processFunctionCall 1 "mistral:latest" call_ghost failing_session).2) ∧
  messages (interactiveChat 1 ["call ghost"] (new_agent (world [server_error]))).2 =
    [text_message SYSTEM system_prompt; text_message USER "call ghost"] ∧
  (LogError "No se pudo obtener una respuesta del modelo"
     ∈ trace (interactiveChat 1 ["call ghost"] (new_agent (world [server_error]))).2).
Proof.
  split; [vm_compute; reflexivity|]. split; [|split; [vm_compute; reflexivity|]].
  - vm_compute. intros Hin. repeat (apply elem_of_cons in Hin as [Hin|Hin]; [discriminate|]).
    by apply elem_of_nil in Hin.
  - vm_compute. repeat first [by left | right].
Qed.

(** C7, run on an example. The model asks for [ghost], a name without the
    remote prefix, with arguments that hold a [toString] key. The template
    literal of [logger.debug] throws on them inside the [try] block around
    the arguments, the one of [logger.error] throws again inside its
    [catch] block, and the outer [catch] block ends the turn: no "no
    implementada" result, nothing pushed, no follow-up chat. The same name
    with the arguments [{}] gets its result and the follow-up chat. *)
Example unresolved_call_is_abandoned_on_its_arguments :
  get_prop call_ghost_unprintable "function" =
    Normal (JObj [("name", JStr "ghost"); ("arguments", JObj [("toString", JNum 1)])]) ∧
  JsString.startsWith "ghost" "mcp_" = false ∧
  processFunctionCall 1 "mistral:latest" call_ghost_unprintable failing_session =
    (Normal Finished,
     reported ("Error procesando la llamada a función: "
               +:+ "TypeError: Cannot convert object to primitive value")
       failing_session) ∧
  messages (processFunctionCall 1 "mistral:latest" call_ghost_unprintable failing_session).2 =
    [text_message SYSTEM system_prompt; text_message USER "call ghost"] ∧
  requests
    (trace (processFunctionCall 1 "mistral:latest" call_ghost_unprintable failing_session).2)
  = [] ∧
  length (messages (processFunctionCall 1 "mistral:latest" call_ghost failing_session).2) = 5 ∧
  length (requests
            (trace (processFunctionCall 1 "mistral:latest" call_ghost failing_session).2)) = 1.
Proof. repeat split; vm_compute; reflexivity. Qed.

(** C10, run on an example. The agent has no remote catalog and the model
    asks for [mcp_lcm] with arguments that hold a [toString] key: the turn
    ends in the outer [catch] block before [executeFunction] is called, so
    the error of the remote executor is never made into a tool message and
    no follow-up chat is sent. With the arguments of the lcm scenario the
    same call is answered in a tool message and the chat goes on. *)
Example remote_call_is_abandoned_on_its_arguments :
  toolsMCP lcm_session = None ∧ client lcm_session = None ∧
  get_prop call_mcp_lcm_unprintable "function" =
    Normal (JObj [("name", JStr "mcp_lcm"); ("arguments", JObj [("toString", JNum 1)])]) ∧
  processFunctionCall 1 "mistral:latest" call_mcp_lcm_unprintable lcm_session =
    (Normal Finished,
     reported ("Error procesando la llamada a función: "
               +:+ "TypeError: Cannot convert object to primitive value")
       lcm_session) ∧
  messages (processFunctionCall 1 "mistral:latest" call_mcp_lcm_unprintable lcm_session).2 =
    [text_message SYSTEM system_prompt; text_message USER "compute lcm of 4 and 6"] ∧
  requests
    (trace (processFunctionCall 1 "mistral:latest" call_mcp_lcm_unprintable lcm_session).2)
  = [] ∧
  messages (processFunctionCall 1 "mistral:latest" call_mcp_lcm lcm_session).2 =
    [text_message SYSTEM system_prompt; text_message USER "compute lcm of 4 and 6";
     assistant_call_message "call_2" (JStr "mcp_lcm") lcm_arguments;
     tool_result_message "call_2" (JStr "mcp_lcm")
       ("Error ejecutando la herramienta MCP lcm: "
        +:+ "Error: MCP Client not connected or tools not available");
     text_message ASSISTANT lcm_answer].
Proof. repeat split; vm_compute; reflexivity. Qed.

End Examples.

(** * Further properties *)

(** ** Relations kept by every step *)

Section Respects.
Context {Env : Type}.
Implicit Types st : State Env.
Implicit Types R : State Env → State Env → Prop.

Global Instance added_refl P : Reflexive (added (Env:=Env) P).
Proof. intros st. exists []. by rewrite app_nil_r. Qed.

Global Instance added_trans P : Transitive (added (Env:=Env) P).
Proof.
  intros st1 st2 st3 (evs1 & H1 & HP1) (evs2 & H2 & HP2).
  exists (evs1 ++ evs2). rewrite H2, H1, <-app_assoc. split; [done|].
  by apply Forall_app.
Qed.

Global Instance gateway_kept_refl : Reflexive (gateway_kept (Env:=Env)).
Proof. by intros st. Qed.

Global Instance gateway_kept_trans : Transitive (gateway_kept (Env:=Env)).
Proof. intros st1 st2 st3 (?&?&?&?) (?&?&?&?). repeat split; congruence. Qed.

Lemma respects_ret R `{!Reflexive R} {A} (a : A) : respects R (mret a : Eff Env A).
Proof. intros st. cbn. reflexivity. Qed.

Lemma respects_throw R `{!Reflexive R} {A} e : respects R (throw e : Eff Env A).
Proof. intros st. cbn. reflexivity. Qed.

Lemma respects_lift R `{!Reflexive R} {A} (c : completion A) : respects R (lift c : Eff Env A).
Proof. intros st. cbn. reflexivity. Qed.

Lemma respects_gets R `{!Reflexive R} {A} (f : State Env → A) : respects R (gets f).
Proof. intros st. cbn. reflexivity. Qed.

Lemma respects_bind R `{!Transitive R} {A B} (m : Eff Env A) (f : A → Eff Env B) :
  respects R m → (∀ a, respects R (f a)) → respects R (m ≫= f).
Proof.
  intros Hm Hf st. specialize (Hm st). rewrite run_bind.
  destruct (m st) as [[a|e] st1]; [|done]. cbn in Hm.
  etrans; [done|apply Hf].
Qed.

Lemma respects_try R `{!Transitive R} {A} (body : Eff Env A) handler :
  respects R body → (∀ e, respects R (handler e)) → respects R (try_eff body handler).
Proof.
  intros Hm Hf st. specialize (Hm st). unfold try_eff.
  destruct (body st) as [[a|e] st1]; [done|]. cbn in Hm.
  etrans; [done|apply Hf].
Qed.

(** The trace: what each primitive adds. *)
Lemma added_emit P ev : P ev → respects (added P) (emit ev : Eff Env ()).
Proof. intros HP st. exists [ev]. split; [done|]. by constructor. Qed.

Lemma added_external P {A} (op : Env → Env * completion A) : respects (added P) (external op).
Proof.
  intros st. unfold external. destruct (op (env st)). exists []. cbn.
  by rewrite app_nil_r.
Qed.

Lemma added_emit_all P evs : Forall P evs → respects (added P) (emit_all evs : Eff Env ()).
Proof.
  induction 1 as [|ev evs HP _ IH]; [apply respects_ret, _|].
  apply respects_bind; [apply _|by apply added_emit|done].
Qed.

End Respects.

Ltac event_side := cbn; first [done | tauto].

Ltac respects_step :=
  lazymatch goal with
  | |- respects _ (mbind _ _) => apply respects_bind; [apply _| |intros ?]
  | |- respects _ (try_eff _ _) => apply respects_try; [apply _| |intros ?]
  | |- respects _ (mret _) => apply respects_ret, _
  | |- respects _ (throw _) => apply respects_throw, _
  | |- respects _ (lift _) => apply respects_lift, _
  | |- respects _ (gets _) => apply respects_gets, _
  | |- respects (added _) (external _) => apply added_external
  | |- respects (added _) (emit_all _) => apply added_emit_all
  | |- respects (added _) (emit _) => apply added_emit; event_side
  | |- respects (added _) (logger_error _) => apply added_emit; event_side
  | |- respects (added _) (logger_warning _) => apply added_emit; event_side
  | |- respects (added _) (console_log _) => apply added_emit; event_side
  | |- respects (added _) (console_error _) => apply added_emit; event_side
  | |- respects _ (match ?x with _ => _ end) => destruct x
  end.

(** ** The gateway *)

Section GatewayFacts.
Context `{Externals Env}.
Implicit Types st : State Env.

Lemma requests_app (evs1 evs2 : list Event) :
  requests (evs1 ++ evs2) = requests evs1 ++ requests evs2.
Proof. apply omap_app. Qed.

Lemma provider_calls_app (evs1 evs2 : list Event) :
  provider_calls (evs1 ++ evs2) = provider_calls evs1 ++ provider_calls evs2.
Proof. apply omap_app. Qed.

Lemma requests_none (evs : list Event) : Forall (λ ev, ¬ is_request ev) evs → requests evs = [].
Proof.
  induction 1 as [|ev evs Hev _ IH]; [done|].
  unfold requests in *. cbn. rewrite IH. by destruct ev; cbn in *.
Qed.

Lemma provider_calls_none (evs : list Event) :
  Forall (λ ev, ¬ is_provider_call ev) evs → provider_calls evs = [].
Proof.
  induction 1 as [|ev evs Hev _ IH]; [done|].
  unfold provider_calls in *. cbn. rewrite IH. by destruct ev; cbn in *.
Qed.

Lemma output_no_request (evs : list Event) : Forall is_output evs → requests evs = [].
Proof.
  intros Hout. apply requests_none. eapply Forall_impl; [done|]. intros ev ??. by destruct ev.
Qed.

Lemma output_no_provider_call (evs : list Event) :
  Forall is_output evs → provider_calls evs = [].
Proof.
  intros Hout. apply provider_calls_none. eapply Forall_impl; [done|]. intros ev ??. by destruct ev.
Qed.

Lemma provider_calls_after_call st st' toolName args evs :
  trace st' = trace st ++ ToolCalled toolName args :: evs → Forall is_output evs →
  provider_calls (trace st') = provider_calls (trace st) ++ [(toolName, args)].
Proof.
  intros -> Hout.
  change (ToolCalled toolName args :: evs) with ([ToolCalled toolName args] ++ evs).
  by rewrite !provider_calls_app, (output_no_provider_call evs), app_nil_r.
Qed.

Lemma executeMcpTool_connected toolName args st :
  client st ≠ None → toolsMCP st ≠ None →
  ∃ st' evs,
    executeMcpTool toolName args st = ((sdk_callTool (env st) toolName args).2, st') ∧
    env st' = (sdk_callTool (env st) toolName args).1 ∧
    gateway_kept st st' ∧ messages st' = messages st ∧
    trace st' = trace st ++ ToolCalled toolName args :: evs ∧ Forall is_output evs.
Proof.
  intros Hclient Hcatalog. unfold executeMcpTool. rewrite run_bind. unfold gets at 1.
  destruct (toolsMCP st) as [catalog|] eqn:Hsome; [|done].
  unfold try_eff at 1, MCPClient_executeTool. rewrite run_bind. unfold gets at 1.
  destruct (client st) as [c|] eqn:Hc; [|done].
  unfold try_eff. rewrite run_bind. cbn [emit]. unfold external at 1. cbn [env].
  destruct (sdk_callTool (env st) toolName args) as [world' [result|e]]; cbn.
  - eexists _, []. split; [done|]. cbn. by rewrite Hc, Hsome.
  - eexists _, [_; _]. split; [done|]. cbn. rewrite Hc, Hsome.
    split_and!; try done. by rewrite <-!app_assoc. by repeat constructor.
Qed.

End GatewayFacts.

(** ** Dispatch *)

Section DispatchFacts.
Context `{Externals Env}.
Implicit Types st : State Env.

Lemma executeFunction_connected toolName args st :
  client st ≠ None → toolsMCP st ≠ None →
  ∃ st' evs,
    executeFunction (JStr ("mcp_" +:+ toolName)) args st =
      (Normal (provider_text toolName (sdk_callTool (env st) toolName args).2), st') ∧
    env st' = (sdk_callTool (env st) toolName args).1 ∧
    trace st' = trace st ++ ToolCalled toolName args :: evs ∧ Forall is_output evs.
Proof.
  intros Hclient Hcatalog.
  destruct (executeMcpTool_connected toolName args st Hclient Hcatalog)
    as (st' & evs & Hrun & Henv & _ & _ & Htrace & Hout).
  exists st', evs.
  unfold executeFunction, try_eff at 1. rewrite run_bind.
  unfold lift at 1. cbn [startsWith_any]. rewrite startsWith_append.
  rewrite run_bind. unfold lift at 1. cbn [substring_any].
  rewrite (substring_from_append "mcp_").
  unfold try_eff. rewrite run_bind, Hrun.
  by destruct (sdk_callTool (env st) toolName args) as [world' [result|e]].
Qed.

Lemma strip_Some (p s r : string) : JsString.strip p s = Some r → s = p +:+ r.
Proof.
  revert s. induction p as [|c p' IH]; intros s; [by cbn; intros [= ->]|].
  destruct s as [|c' s']; [done|]. cbn [JsString.strip].
  destruct (Ascii.eqb_spec c c') as [->|]; [|done].
  intros Hstrip. change (String c' p' +:+ r) with (String c' (p' +:+ r)).
  by rewrite <-(IH s').
Qed.

Lemma startsWith_true (s p : string) :
  JsString.startsWith s p = true → ∃ r, s = p +:+ r.
Proof.
  unfold JsString.startsWith. intros [r Hr]%bool_decide_eq_true.
  exists r. by apply strip_Some.
Qed.

(** The [TypeError] of calling [startsWith] on a value that is no string. *)
Lemma startsWith_any_throws (functionName : jsval) :
  (∀ s, functionName ≠ JStr s) →
  ∃ e, startsWith_any functionName "mcp_" = Throw e ∧ err_name e = "TypeError".
Proof. intros Hnot. destruct functionName; try (by eexists); by destruct (Hnot s). Qed.

Lemma provider_calls_filter (evs : list Event) :
  provider_calls (filter is_tool_called evs) = provider_calls evs.
Proof.
  induction evs as [|ev evs IH]; [done|].
  rewrite filter_cons.
  destruct ev; cbn; try done. destruct (decide True); [|done]. cbn. f_equal. exact IH.
Qed.

Lemma executeFunction_non_string_calls functionName functionArgs st :
  (∀ s, functionName ≠ JStr s) →
  provider_calls (trace (executeFunction functionName functionArgs st).2) =
  provider_calls (trace st).
Proof.
  intros Hnot. destruct (startsWith_any_throws functionName Hnot) as (e & Hthrow & _).
  unfold executeFunction, try_eff. rewrite run_bind. unfold lift at 1. rewrite Hthrow.
  run_eff. destruct (ToString functionName) as [nameText|e']; run_eff; [|done].
  rewrite provider_calls_app. apply app_nil_r.
Qed.

Lemma executeFunction_calls functionName functionArgs st :
  ∃ calls,
    provider_calls (trace (executeFunction functionName functionArgs st).2) =
      provider_calls (trace st) ++ calls ∧
    (calls = [] ∨
     ∃ toolName,
       functionName = JStr ("mcp_" +:+ toolName) ∧ calls = [(toolName, functionArgs)] ∧
       client st ≠ None ∧ toolsMCP st ≠ None).
Proof.
  destruct functionName as [| | | |s| |];
    try (exists []; split; [|by left]; rewrite app_nil_r;
         by apply executeFunction_non_string_calls).
  destruct (JsString.startsWith s "mcp_") eqn:Hprefix.
  - apply startsWith_true in Hprefix as [toolName ->].
    destruct (decide (client st ≠ None ∧ toolsMCP st ≠ None)) as [[Hclient Hcatalog]|Hnot].
    + exists [(toolName, functionArgs)]. split; [|right; by exists toolName].
      destruct (executeFunction_connected toolName functionArgs st Hclient Hcatalog)
        as (st' & evs & -> & _ & Htrace & Hout).
      by apply provider_calls_after_call with evs.
    + exists []. split; [|by left]. rewrite app_nil_r.
      destruct (executeFunction_not_connected toolName functionArgs st)
        as (st' & -> & _ & Hcalls).
      { destruct (toolsMCP st), (client st); auto. destruct Hnot. by split. }
      cbn. by rewrite <-provider_calls_filter, Hcalls, provider_calls_filter.
  - exists []. split; [|by left]. rewrite executeFunction_not_implemented by done.
    by rewrite app_nil_r.
Qed.

End DispatchFacts.

(** ** Turns and sessions, event by event *)

Section TurnFacts.
Context `{Externals Env}.
Implicit Types st : State Env.

Lemma added_requests st st' :
  added (λ ev, ¬ is_request ev) st st' → requests (trace st') = requests (trace st).
Proof.
  intros (evs & -> & Hevs). rewrite requests_app, (requests_none evs) by done. apply app_nil_r.
Qed.

Lemma added_output st st' :
  added is_output st st' →
  requests (trace st') = requests (trace st) ∧
  provider_calls (trace st') = provider_calls (trace st).
Proof.
  intros (evs & -> & Hevs).
  rewrite requests_app, provider_calls_app, (output_no_request evs),
    (output_no_provider_call evs) by done.
  by rewrite !app_nil_r.
Qed.

Lemma agent_kept_gateway st st' : agent_kept st st' → gateway_kept st st'.
Proof. intros (?&?&?&?&_). by repeat split. Qed.

Lemma decode_lines_log lines fullResponse :
  Forall is_output (decode_lines lines fullResponse).2.
Proof.
  revert fullResponse. induction lines as [|line rest IH]; intros fullResponse; [done|].
  cbn [decode_lines].
  destruct (decode_line line fullResponse) as [[result|fullResponse']|e]; [done|apply IH|].
  specialize (IH fullResponse). destruct (decode_lines rest fullResponse) as [result log].
  by constructor.
Qed.

Lemma try_emit_added {A} P ev (body : Eff Env A) handler st :
  respects (added P) body → (∀ e, respects (added P) (handler e)) →
  ∃ evs, trace (try_eff (emit ev;; body) handler st).2 = trace st ++ ev :: evs ∧
         Forall P evs.
Proof.
  intros Hbody Hhandler.
  destruct (respects_try (added P) body handler Hbody Hhandler (emit ev st).2)
    as (evs & Hevs & HP).
  exists evs. split; [|done]. cbn in Hevs. by rewrite <-app_assoc in Hevs.
Qed.

(** One chat through the agent: one request, carrying the history it is
    given and the merged catalog, and otherwise only log lines. *)
Lemma agent_chat_events modelName history st :
  ∃ result st' evs,
    OllamaAgent_chat modelName history None st = (Normal result, st') ∧
    agent_kept st st' ∧
    trace st' = trace st ++ ChatSent (agent_request modelName history st) :: evs ∧
    Forall is_output evs.
Proof.
  destruct (OllamaAgent_chat modelName history None st) as [c st'] eqn:Hchat.
  destruct (no_throw_agent_chat modelName history None st) as [result Hresult].
  pose proof (quiet_agent_chat modelName history None st) as Hkept.
  rewrite Hchat in Hresult, Hkept. cbn in Hresult, Hkept. subst c.
  exists result, st'.
  cut (∃ evs, trace st' = trace st ++ ChatSent (agent_request modelName history st) :: evs ∧
              Forall is_output evs).
  { intros (evs & ? & ?). by exists evs. }
  replace st' with (OllamaAgent_chat modelName history None st).2 by by rewrite Hchat.
  unfold OllamaAgent_chat. rewrite !run_bind. unfold gets.
  unfold OllamaAPIClient_chat, chat_request, agent_request.
  apply try_emit_added; [|intros e; repeat respects_step].
  apply respects_bind; [apply _|apply added_external|intros response].
  destruct (decide _); [repeat respects_step|].
  apply respects_bind; [apply _|apply respects_lift, _|intros responseText].
  pose proof (decode_lines_log (response_lines responseText) "") as Hlog.
  unfold _processResponse. destruct (decode_lines _ _) as [result' log].
  repeat respects_step. exact Hlog.
Qed.

Lemma output_parse_arguments function : respects (added is_output) (parse_arguments function).
Proof. unfold parse_arguments. repeat respects_step. Qed.

Lemma unrequested_executeFunction functionName functionArgs :
  respects (added (λ ev, ¬ is_request ev)) (executeFunction functionName functionArgs).
Proof.
  unfold executeFunction, executeMcpTool, MCPClient_executeTool. repeat respects_step.
Qed.

(** What [run_tool_call] leaves behind on an invocation that has a
    [function] record, and whose name and arguments can be converted to
    strings. *)
Lemma run_tool_call_events function_call function functionName arguments
    nameText argumentsText st :
  get_prop function_call "function" = Normal function →
  get_prop function "name" = Normal functionName →
  get_prop function "arguments" = Normal arguments →
  ToString functionName = Normal nameText →
  ToString arguments = Normal argumentsText →
  ∃ st3 pushed calls,
    run_tool_call function_call st = (Normal (), st3) ∧
    gateway_kept st st3 ∧
    messages st3 = messages st ++ pushed ∧ length pushed = 2 ∧
    Forall (λ m, ¬ from_user m) pushed ∧
    requests (trace st3) = requests (trace st) ∧
    provider_calls (trace st3) = provider_calls (trace st) ++ calls ∧
    (length calls ≤ 1)%nat.
Proof.
  intros Hfunction Hname Harguments HnameText HargumentsText.
  destruct (run_tool_call_recorded _ _ _ _ _ _ st Hfunction Hname Harguments HnameText
              HargumentsText)
    as (functionArgs & st1 & executed & st2 & st3 & Hparse & Hexec & Hrun &
        Hkept1 & Hkept2 & _ & Hc & Ht & Hb & Hm & [lines Htrace3] & Hmessages).
  pose proof (output_parse_arguments function st) as Hout1. rewrite Hparse in Hout1.
  apply added_output in Hout1 as [Hreq1 Hcall1].
  pose proof (unrequested_executeFunction functionName functionArgs st1) as Hreq2.
  rewrite Hexec in Hreq2. apply added_requests in Hreq2.
  destruct (executeFunction_calls functionName functionArgs st1) as (calls & Hcalls & Hat_most).
  rewrite Hexec in Hcalls. cbn in *.
  eexists st3, _, calls. split; [done|]. split; [by repeat split|].
  split; [done|]. split; [done|]. split; [by repeat constructor|].
  assert (Forall is_output (LogError <$> lines)) as Hlines.
  { apply Forall_fmap, Forall_true. by intros line. }
  rewrite Htrace3, requests_app, provider_calls_app, (output_no_request (LogError <$> lines)),
    (output_no_provider_call (LogError <$> lines)), !app_nil_r by done.
  split; [congruence|]. split; [congruence|].
  destruct Hat_most as [->|(toolName & _ & -> & _)]; cbn; lia.
Qed.

Lemma agent_request_kept modelName history st st' :
  gateway_kept st st' → agent_request modelName history st' = agent_request modelName history st.
Proof. intros (_ & _ & Hb & Hm). unfold agent_request. by rewrite Hb, Hm. Qed.

(** A whole turn: what it returns, what it pushes, what it sends. *)
Lemma processFunctionCall_summary fuel modelName function_call st :
  ∃ outcome st' reqs calls pushed,
    processFunctionCall fuel modelName function_call st = (Normal outcome, st') ∧
    gateway_kept st st' ∧
    messages st' = messages st ++ pushed ∧
    Forall (λ m, ¬ from_user m) pushed ∧
    requests (trace st') = requests (trace st) ++ reqs ∧
    provider_calls (trace st') = provider_calls (trace st) ++ calls ∧
    (length calls ≤ length reqs ≤ fuel)%nat ∧
    (2 * length reqs ≤ length pushed ≤ 2 * length reqs + 1)%nat ∧
    (∀ i r, reqs !! i = Some r →
       r = agent_request modelName
             (take (length (messages st) + 2 * S i) (messages st')) st).
Proof.
  revert function_call st. induction fuel as [|fuel IH]; intros function_call st.
  { exists OutOfFuel, st, [], [], []. rewrite !app_nil_r. cbn.
    repeat split; try done; lia. }
  destruct (run_tool_call_cases function_call st)
    as [(e & st1 & Hthrow & (Hc & Ht & Hb & Hm & Hmessages1 & _) & _ & lines & Htrace1)|
        (function & functionName & arguments & nameText & argumentsText &
         Hfunction & Hname & Harguments & HnameText & HargumentsText)].
  { rewrite (processFunctionCall_throw _ _ _ _ e st1) by done.
    eexists Finished, _, [], [], []. split; [done|]. unfold reported.
    split; [done|]. cbn [messages trace].
    assert (Forall is_output (LogError <$> lines)) as Hlines.
    { apply Forall_fmap, Forall_true. by intros line. }
    rewrite Htrace1, !requests_app, !provider_calls_app,
      (output_no_request (LogError <$> lines)),
      (output_no_provider_call (LogError <$> lines)), Hmessages1 by done.
    cbn. rewrite ?app_nil_r. repeat split; try done; lia. }
  destruct (run_tool_call_events _ _ _ _ _ _ st Hfunction Hname Harguments HnameText
              HargumentsText)
    as (st3 & pushed3 & calls3 & Hrun & Hgate3 & Hmessages3 & Hlen3 & Huser3 & Hreq3 &
        Hcalls3 & Hone).
  destruct (agent_chat_events modelName (messages st3) st3)
    as (finalResponse & st4 & evs & Hchat & Hkept4 & Htrace4 & Hout4).
  rewrite (agent_request_kept _ _ st st3) in Htrace4 by done.
  assert (gateway_kept st st4) as Hgate4.
  { etrans; [done|]. by apply agent_kept_gateway. }
  assert (messages st4 = messages st ++ pushed3) as Hmessages4.
  { destruct Hkept4 as (_&_&_&_&->&_). done. }
  assert (requests (trace st4) =
          requests (trace st) ++ [agent_request modelName (messages st3) st]) as Hreq4.
  { rewrite Htrace4.
    change (ChatSent ?r :: evs) with ([ChatSent r] ++ evs).
    rewrite !requests_app, (output_no_request evs), app_nil_r, Hreq3 by done. done. }
  assert (provider_calls (trace st4) = provider_calls (trace st) ++ calls3) as Hcalls4.
  { rewrite Htrace4.
    change (ChatSent ?r :: evs) with ([ChatSent r] ++ evs).
    rewrite !provider_calls_app, (output_no_provider_call evs) by done.
    change (provider_calls [ChatSent _]) with (@nil (string * jsval)).
    by rewrite !app_nil_r. }
  assert (take (length (messages st) + 2) (messages st ++ pushed3) = messages st3) as Htake.
  { rewrite Hmessages3. apply take_ge. rewrite length_app. lia. }
  destruct finalResponse as [finalText|next].
  - rewrite (processFunctionCall_text _ _ _ _ st3 finalText st4) by done.
    eexists Finished, _, [_], calls3, (pushed3 ++ [text_message ASSISTANT finalText]).
    split; [done|]. split; [done|]. cbn [answered messages trace].
    split; [by rewrite Hmessages4, <-app_assoc|].
    split; [apply Forall_app; split; [done|by repeat constructor]|].
    split; [by rewrite requests_app, app_nil_r|].
    split; [by rewrite provider_calls_app, app_nil_r|].
    rewrite length_app. cbn. split; [lia|]. split; [lia|].
    intros [|i] r; [|done]. intros [= <-]. f_equal.
    rewrite Hmessages4, take_app_le by (rewrite length_app; lia).
    rewrite <-Htake. f_equal; lia.
  - rewrite (processFunctionCall_next _ _ _ _ st3 next st4) by done.
    destruct (IH next st4)
      as (outcome & st' & reqs & calls & pushed & -> & Hgate & Hmessages & Huser & Hreq &
          Hcalls & Hcount & Hlen & Hcarried).
    exists outcome, st', (agent_request modelName (messages st3) st :: reqs),
      (calls3 ++ calls), (pushed3 ++ pushed).
    split; [done|]. split; [by etrans|].
    split; [by rewrite Hmessages, Hmessages4, <-app_assoc|].
    split; [by apply Forall_app|].
    split; [by rewrite Hreq, Hreq4, <-app_assoc|].
    split; [by rewrite Hcalls, Hcalls4, <-app_assoc|].
    rewrite !length_app. cbn. split; [lia|]. split; [lia|].
    intros [|i] r.
    + intros [= <-]. f_equal. rewrite Hmessages, Hmessages4.
      rewrite take_app_le by (rewrite length_app; lia).
      rewrite <-Htake. f_equal; lia.
    + intros Hi. rewrite (Hcarried i r Hi), (agent_request_kept _ _ st st4) by done.
      f_equal. f_equal. rewrite Hmessages4, length_app. lia.
Qed.

Lemma sorted_steps (start a n : nat) :
  StronglySorted Nat.lt ((λ i, start + 2 * S i)%nat <$> seq a n).
Proof.
  revert a. induction n as [|n IH]; intros a; [constructor|].
  cbn [seq fmap list_fmap]. constructor; [apply IH|].
  apply Forall_fmap, Forall_seq. intros j Hj. cbn. unfold Nat.lt. lia.
Qed.

Lemma requests_indexed (f : nat → ChatRequest) (g : nat → nat) (reqs : list ChatRequest) :
  (∀ i r, reqs !! i = Some r → r = f (g i)) →
  reqs = f <$> (g <$> seq 0 (length reqs)).
Proof.
  intros Hreqs. apply list_eq. intros i. rewrite !list_lookup_fmap.
  destruct (reqs !! i) as [r|] eqn:Hi.
  - rewrite lookup_seq_lt by by eapply lookup_lt_Some. cbn. f_equal. by apply Hreqs.
  - rewrite lookup_seq_ge; [done|]. by apply lookup_ge_None.
Qed.

Lemma prefixes_sent_extend modelName history more st st' ns :
  gateway_kept st st' → Forall (λ n, n ≤ length history)%nat ns →
  prefixes_sent modelName history st' ns = prefixes_sent modelName (history ++ more) st ns.
Proof.
  intros Hgate Hns. unfold prefixes_sent. apply Forall_fmap_ext.
  eapply Forall_impl; [done|]. intros n Hn. cbn.
  by rewrite (agent_request_kept _ _ st st'), take_app_le.
Qed.

Lemma prefixes_sent_cons modelName history st n ns :
  prefixes_sent modelName history st (n :: ns) =
  agent_request modelName (take n history) st :: prefixes_sent modelName history st ns.
Proof. done. Qed.

Lemma prefixes_sent_app modelName history st ns1 ns2 :
  prefixes_sent modelName history st (ns1 ++ ns2) =
  prefixes_sent modelName history st ns1 ++ prefixes_sent modelName history st ns2.
Proof. apply fmap_app. Qed.

(** A turn, with the requests as prefixes of the final history. *)
Lemma processFunctionCall_prefixes fuel modelName function_call st :
  ∃ outcome st' ns calls pushed,
    processFunctionCall fuel modelName function_call st = (Normal outcome, st') ∧
    gateway_kept st st' ∧
    messages st' = messages st ++ pushed ∧
    Forall (λ m, ¬ from_user m) pushed ∧
    requests (trace st') = requests (trace st) ++ prefixes_sent modelName (messages st') st ns ∧
    provider_calls (trace st') = provider_calls (trace st) ++ calls ∧
    (length calls ≤ length ns ≤ fuel)%nat ∧
    (2 * length ns ≤ length pushed ≤ 2 * length ns + 1)%nat ∧
    StronglySorted Nat.lt ns ∧
    Forall (λ n, length (messages st) < n ≤ length (messages st'))%nat ns.
Proof.
  destruct (processFunctionCall_summary fuel modelName function_call st)
    as (outcome & st' & reqs & calls & pushed & Hrun & Hgate & Hmessages & Huser & Hreq &
        Hcalls & Hcount & Hlen & Hcarried).
  exists outcome, st', ((λ i, length (messages st) + 2 * S i)%nat <$> seq 0 (length reqs)),
    calls, pushed.
  rewrite !length_fmap, !length_seq. do 4 (split; [done|]).
  split. { rewrite Hreq. f_equal. by apply requests_indexed. }
  do 3 (split; [done|]). split; [apply sorted_steps|].
  apply Forall_fmap, Forall_seq. intros j Hj. cbn. rewrite Hmessages, length_app. lia.
Qed.

End TurnFacts.

Section SessionSummary.
Context `{Externals Env}.
Implicit Types st : State Env.

Lemma filter_from_user_none (pushed : list MessageType) :
  Forall (λ m, ¬ from_user m) pushed → filter from_user pushed = [].
Proof.
  induction 1 as [|m pushed Hm _ IH]; [done|].
  rewrite filter_cons. by destruct (decide (from_user m)).
Qed.

Lemma sorted_app (ns1 ns2 : list nat) (bound : nat) :
  StronglySorted Nat.lt ns1 → StronglySorted Nat.lt ns2 →
  Forall (λ n, n ≤ bound)%nat ns1 → Forall (λ n, bound < n)%nat ns2 →
  StronglySorted Nat.lt (ns1 ++ ns2).
Proof.
  intros Hs1 Hs2 Hle Hlt. induction Hs1 as [|n ns1 Hs1 IH Hn]; [done|].
  apply Forall_cons in Hle as [Hle1 Hle]. cbn. constructor; [by apply IH|].
  apply Forall_app. split; [done|].
  eapply Forall_impl; [done|]. intros m Hm. unfold Nat.lt. cbn in *. lia.
Qed.

(** The summary of a pass that starts with one more line: the line is
    pushed and sent, what follows before the next line is read ends in
    [st2], and the rest of the pass starts from there. *)
Lemma session_summary_cons modelName userMessage rest st st1 st2 outcome st' evs :
  is_exit_command userMessage = false →
  gateway_kept st st1 →
  messages st1 = messages st ++ [text_message USER userMessage] →
  trace st1 = trace st ++
    ChatSent (agent_request modelName (messages st ++ [text_message USER userMessage]) st)
    :: evs →
  Forall is_output evs →
  (∃ ns calls pushed,
     gateway_kept st1 st2 ∧ messages st2 = messages st1 ++ pushed ∧
     Forall (λ m, ¬ from_user m) pushed ∧
     requests (trace st2) = requests (trace st1) ++
                            prefixes_sent modelName (messages st2) st1 ns ∧
     provider_calls (trace st2) = provider_calls (trace st1) ++ calls ∧
     (length calls ≤ length ns)%nat ∧
     StronglySorted Nat.lt ns ∧
     Forall (λ n, length (messages st1) < n ≤ length (messages st2))%nat ns) →
  (session_summary modelName rest st2 outcome st' ∨
   (outcome = OutOfFuel ∧ st' = st2)) →
  session_summary modelName (userMessage :: rest) st outcome st'.
Proof.
  intros Hexit Hgate1 Hmessages1 Htrace1 Hout1
    (ns2 & calls2 & pushed2 & Hgate2 & Hmessages2 & Huser2 & Hreq2 & Hcalls2 & Hcount2 &
     Hsorted2 & Hbounds2) Hrest.
  assert (∃ ns calls pushed k,
            gateway_kept st2 st' ∧ messages st' = messages st2 ++ pushed ∧
            filter from_user pushed = text_message USER <$> take k (typed_before_exit rest) ∧
            (outcome = Finished → k = length (typed_before_exit rest)) ∧
            requests (trace st') = requests (trace st2) ++
                                   prefixes_sent modelName (messages st') st2 ns ∧
            provider_calls (trace st') = provider_calls (trace st2) ++ calls ∧
            (length calls + k ≤ length ns)%nat ∧
            StronglySorted Nat.lt ns ∧
            Forall (λ n, length (messages st2) < n ≤ length (messages st'))%nat ns)
    as (ns3 & calls3 & pushed3 & k & Hgate3 & Hmessages3 & Huser3 & Hk & Hreq3 & Hcalls3 &
        Hcount3 & Hsorted3 & Hbounds3).
  { destruct Hrest as [Hrest|[-> ->]]; [exact Hrest|].
    exists [], [], [], 0%nat. rewrite !app_nil_r. cbn.
    repeat split; try done; constructor. }
  assert (requests (trace st1) = requests (trace st) ++
            [agent_request modelName (messages st1) st]) as Hreq1.
  { rewrite Htrace1, Hmessages1.
    change (ChatSent ?r :: evs) with ([ChatSent r] ++ evs).
    by rewrite !requests_app, (output_no_request evs), app_nil_r. }
  assert (provider_calls (trace st1) = provider_calls (trace st)) as Hcalls1.
  { rewrite Htrace1.
    change (ChatSent ?r :: evs) with ([ChatSent r] ++ evs).
    rewrite !provider_calls_app, (output_no_provider_call evs) by done.
    change (provider_calls [ChatSent _]) with (@nil (string * jsval)).
    by rewrite !app_nil_r. }
  assert (length (messages st1) = S (length (messages st))) as Hlen1.
  { rewrite Hmessages1, length_app. cbn. lia. }
  assert (length (messages st2) = (length (messages st1) + length pushed2)%nat) as Hlen2.
  { by rewrite Hmessages2, length_app. }
  assert (length (messages st') = (length (messages st2) + length pushed3)%nat) as Hlen3.
  { by rewrite Hmessages3, length_app. }
  exists (length (messages st1) :: ns2 ++ ns3), (calls2 ++ calls3),
    (text_message USER userMessage :: pushed2 ++ pushed3), (S k).
  split; [by do 2 (etrans; [done|])|].
  split.
  { rewrite Hmessages3, Hmessages2, Hmessages1, <-!app_assoc. done. }
  split.
  { cbn [typed_before_exit]. rewrite Hexit. cbn [take fmap list_fmap].
    rewrite filter_cons_True by done. rewrite filter_app, Huser3.
    by rewrite (filter_from_user_none pushed2). }
  split.
  { intros Hdone. cbn [typed_before_exit]. rewrite Hexit. cbn. by rewrite Hk. }
  split.
  { rewrite Hreq3, Hreq2, Hreq1, <-!app_assoc. f_equal.
    rewrite prefixes_sent_cons, prefixes_sent_app. cbn [app]. f_equal; [|f_equal].
    - f_equal. rewrite Hmessages3, Hmessages2, <-app_assoc.
      by rewrite take_app_length.
    - rewrite Hmessages3. apply prefixes_sent_extend; [done|].
      eapply Forall_impl; [done|]. cbn. lia.
    - rewrite (prefixes_sent_extend _ _ [] st st2), app_nil_r; [done| |].
      + by do 2 (etrans; [done|]).
      + eapply Forall_impl; [done|]. cbn. lia. }
  split; [by rewrite Hcalls3, Hcalls2, Hcalls1, <-app_assoc|].
  rewrite !length_app. cbn [length]. rewrite !length_app.
  split; [lia|].
  split.
  { constructor.
    - apply (sorted_app _ _ (length (messages st2))); try done.
      + eapply Forall_impl; [exact Hbounds2|]. cbn. lia.
      + eapply Forall_impl; [exact Hbounds3|]. cbn. lia.
    - apply Forall_app. split.
      + eapply Forall_impl; [exact Hbounds2|]. unfold Nat.lt. cbn. lia.
      + eapply Forall_impl; [exact Hbounds3|]. unfold Nat.lt. cbn. lia. }
  constructor; [lia|]. apply Forall_app. split.
  - eapply Forall_impl; [exact Hbounds2|]. cbn. lia.
  - eapply Forall_impl; [exact Hbounds3|]. cbn. lia.
Qed.

Lemma session_summary_nil modelName inputs st :
  typed_before_exit inputs = [] → session_summary modelName inputs st Finished st.
Proof.
  intros Hnone. exists [], [], [], 0%nat. rewrite Hnone, !app_nil_r. cbn.
  repeat split; try done; constructor.
Qed.

Lemma chat_loop_summary fuel modelName inputs st :
  ∃ outcome st',
    chat_loop fuel modelName inputs st = (Normal outcome, st') ∧
    session_summary modelName inputs st outcome st'.
Proof.
  revert st. induction inputs as [|userMessage rest IH]; intros st.
  { exists Finished, st. split; [done|]. by apply session_summary_nil. }
  cbn [chat_loop]. destruct (is_exit_command userMessage) eqn:Hexit.
  { exists Finished, st. split; [done|]. apply session_summary_nil. cbn. by rewrite Hexit. }
  rewrite run_bind. cbn [push set_messages].
  set (st0 := {| env := env st |}).
  rewrite run_bind. unfold gets at 1. rewrite run_bind.
  destruct (agent_chat_events modelName (messages st0) st0)
    as (response & st1 & evs & Hchat & Hkept & Htrace1 & Hout1).
  rewrite Hchat.
  assert (gateway_kept st st1) as Hgate1 by by apply agent_kept_gateway in Hkept.
  assert (messages st1 = messages st ++ [text_message USER userMessage]) as Hmessages1.
  { by destruct Hkept as (_&_&_&_&->&_). }
  pose proof (session_summary_cons modelName userMessage rest st st1) as Hcons.
  specialize (λ st2 outcome st', Hcons st2 outcome st' evs Hexit Hgate1 Hmessages1 Htrace1 Hout1).
  destruct response as [text|function_call].
  - destruct (String.eqb text "").
    + rewrite run_bind. cbn [logger_error emit].
      match goal with |- context [chat_loop _ _ rest ?s] =>
        destruct (IH s) as (outcome & st' & -> & Hrest); set (st2 := s) in * end.
      exists outcome, st'. split; [done|]. apply (Hcons st2); [|by left].
      exists [], [], []. subst st2. cbn [messages trace].
      rewrite requests_app, provider_calls_app, !app_nil_r. cbn.
      rewrite ?app_nil_r. repeat split; try done; constructor.
    + rewrite run_bind. cbn [console_log emit]. rewrite run_bind. cbn [push set_messages].
      match goal with |- context [chat_loop _ _ rest ?s] =>
        destruct (IH s) as (outcome & st' & -> & Hrest); set (st2 := s) in * end.
      exists outcome, st'. split; [done|]. apply (Hcons st2); [|by left].
      exists [], [], [text_message ASSISTANT text]. subst st2. cbn [messages trace].
      rewrite requests_app, provider_calls_app, !app_nil_r. cbn.
      rewrite ?app_nil_r. repeat split; try done; repeat constructor; done.
  - rewrite run_bind.
    destruct (processFunctionCall_prefixes fuel modelName function_call st1)
      as (outcome & st2 & ns & calls & pushed & -> & Hgate2 & Hmessages2 & Huser2 & Hreq2 &
          Hcalls2 & Hcount2 & _ & Hsorted2 & Hbounds2).
    assert (∃ ns calls pushed,
              gateway_kept st1 st2 ∧ messages st2 = messages st1 ++ pushed ∧
              Forall (λ m, ¬ from_user m) pushed ∧
              requests (trace st2) = requests (trace st1) ++
                                     prefixes_sent modelName (messages st2) st1 ns ∧
              provider_calls (trace st2) = provider_calls (trace st1) ++ calls ∧
              (length calls ≤ length ns)%nat ∧
              StronglySorted Nat.lt ns ∧
              Forall (λ n, length (messages st1) < n ≤ length (messages st2))%nat ns)
      as Hbetween.
    { exists ns, calls, pushed. do 5 (split; [done|]). split; [lia|done]. }
    destruct outcome.
    + destruct (IH st2) as (outcome & st' & -> & Hrest).
      exists outcome, st'. split; [done|]. apply (Hcons st2); [done|by left].
    + exists OutOfFuel, st2. split; [done|]. apply (Hcons st2); [done|by right].
Qed.

Lemma listModels_result st :
  ∃ st' evs,
    listModels st = (Normal (listed_models (env st)), st') ∧
    env st' = (fetch_tags (env st)).1 ∧
    agent_kept st st' ∧ trace st' = trace st ++ evs ∧ Forall is_output evs.
Proof.
  pose proof (quiet_listModels st) as Hkept.
  assert (respects (added is_output) listModels) as Hout.
  { unfold listModels. repeat respects_step. }
  destruct (Hout st) as (evs & Htrace & Hevs).
  destruct (listModels st) as [result st'] eqn:Hrun. cbn in Hkept, Htrace.
  exists st', evs.
  cut (result = Normal (listed_models (env st)) ∧ env st' = (fetch_tags (env st)).1).
  { intros [-> ?]. done. }
  revert Hrun. unfold listModels, listed_models, try_eff. rewrite run_bind.
  unfold external at 1.
  destruct (fetch_tags (env st)) as [world' [[status data]|e]]; cbn [snd fst].
  - destruct (decide (status = 200)).
    + unfold lift. destruct data; run_eff; by intros [= <- <-].
    + run_eff. intros [= <- <-]. by destruct data.
  - run_eff. by intros [= <- <-].
Qed.

Lemma select_model_result models st :
  ∃ st' evs,
    select_model models st = (Normal (preferred_model models), st') ∧
    env st' = env st ∧
    agent_kept st st' ∧ trace st' = trace st ++ evs ∧ Forall is_output evs.
Proof.
  pose proof (quiet_select_model models st) as Hkept.
  assert (respects (added is_output) (select_model (Env:=Env) models)) as Hout.
  { unfold select_model. repeat respects_step. }
  destruct (Hout st) as (evs & Htrace & Hevs).
  destruct (select_model models st) as [result st'] eqn:Hrun. cbn in Hkept, Htrace.
  exists st', evs.
  cut (result = Normal (preferred_model models) ∧ env st' = env st).
  { intros [-> ?]. done. }
  revert Hrun. unfold select_model, preferred_model.
  destruct (bool_decide (DEFAULT_MODEL ∈ models)); [by intros [= <- <-]|].
  destruct models; run_eff; by intros [= <- <-].
Qed.

(** A whole session. *)
Lemma interactiveChat_summary fuel inputs st :
  ∃ outcome st0 st',
    interactiveChat fuel inputs st = (Normal outcome, st') ∧
    gateway_kept st st0 ∧
    requests (trace st0) = requests (trace st) ∧
    provider_calls (trace st0) = provider_calls (trace st) ∧
    match preferred_model (listed_models (env st)) with
    | Some modelName =>
        messages st0 = [text_message SYSTEM system_prompt] ∧
        session_summary modelName inputs st0 outcome st'
    | None =>
        outcome = Finished ∧ st' = st0 ∧ messages st0 = messages st ∧
        env st0 = (fetch_tags (env st)).1
    end.
Proof.
  unfold interactiveChat. rewrite run_bind.
  destruct (listModels_result st) as (st1 & evs1 & -> & Henv1 & Hkept1 & Htrace1 & Hout1).
  rewrite run_bind.
  destruct (select_model_result (listed_models (env st)) st1)
    as (st2 & evs2 & -> & Henv2 & Hkept2 & Htrace2 & Hout2).
  assert (added is_output st st2) as [Hreq Hcalls]%added_output.
  { etrans; [by exists evs1|by exists evs2]. }
  assert (gateway_kept st st2) as Hgate.
  { etrans; by apply agent_kept_gateway. }
  destruct (preferred_model (listed_models (env st))) as [modelName|].
  - rewrite run_bind. cbn [set_messages]. rewrite run_bind. cbn [push set_messages messages].
    match goal with |- context [try_eff (chat_loop _ _ _) _ ?s] =>
      destruct (chat_loop_summary fuel modelName inputs s) as (outcome & st' & Hloop & Hsum);
      set (st0 := s) in * end.
    rewrite (try_eff_normal _ _ _ outcome st') by done.
    exists outcome, st0, st'. split; [done|]. split; [done|]. by repeat split.
  - exists Finished, st2, st2. split; [done|]. split; [done|]. repeat split; try done.
    + destruct Hkept1 as (_&_&_&_&?&_), Hkept2 as (_&_&_&_&?&_). congruence.
    + congruence.
Qed.

End SessionSummary.

(** ** Start and end of the program *)

Section StartupFacts.
Context `{Externals Env}.
Implicit Types st : State Env.

Lemma checkConnection_result st :
  ∃ st',
    checkConnection st =
      (match (fetch_tags (env st)).2 with
       | Normal (status, data) =>
           if decide (status = 200) then Normal true
           else Throw (check_error (fetch_tags (env st)).2)
       | Throw _ => Throw (check_error (fetch_tags (env st)).2)
       end, st') ∧
    st' = (external fetch_tags st).2.
Proof.
  unfold checkConnection, try_eff. rewrite run_bind. unfold external.
  destruct (fetch_tags (env st)) as [world' [[status data]|e]]; cbn [snd fst].
  - destruct (decide (status ≠ 200)), (decide (status = 200)); try done; by eexists.
  - by eexists.
Qed.

Lemma checkConnection_reachable st :
  backend_reachable (env st) →
  checkConnection st = (Normal true, (external fetch_tags st).2).
Proof.
  intros [data Hdata]. destruct (checkConnection_result st) as (st' & -> & ->).
  rewrite Hdata. by destruct (decide _).
Qed.

Lemma checkConnection_unreachable st :
  ¬ backend_reachable (env st) →
  checkConnection st = (Throw (check_error (fetch_tags (env st)).2), (external fetch_tags st).2).
Proof.
  intros Hnot. destruct (checkConnection_result st) as (st' & -> & ->).
  destruct (fetch_tags (env st)) as [world' [[status data]|e]] eqn:Hfetch; cbn [snd]; [|done].
  destruct (decide (status = 200)) as [->|]; [|done].
  destruct Hnot. exists data. by rewrite Hfetch.
Qed.

Lemma setup_unreachable st :
  ¬ backend_reachable (env st) →
  setup st =
    (Normal (Exited 1),
     {| env := (fetch_tags (env st)).1; client := client st; transport := transport st;
        builtInTools := builtInTools st; toolsMCP := toolsMCP st; messages := messages st;
        trace := trace st ++
          [LogError ("❌ Error al conectarse a Ollama: "
                     +:+ error_to_string (check_error (fetch_tags (env st)).2));
           LogError "Asegúrate de que Ollama esté instalado y ejecutándose";
           ProcessExit 1] |}).
Proof.
  intros Hnot. unfold setup. rewrite run_bind. unfold try_eff at 1.
  rewrite run_bind, checkConnection_unreachable by done.
  unfold external. destruct (fetch_tags (env st)) as [world' answer].
  run_eff. by rewrite <-!app_assoc.
Qed.

Lemma no_throw_setup : no_throw setup.
Proof.
  unfold setup. apply no_throw_bind; [repeat no_throw_step|intros reachable].
  destruct reachable; [|apply no_throw_ret].
  apply no_throw_bind; [|intros ?; apply no_throw_ret].
  apply no_throw_try. intros e. repeat no_throw_step. by eexists.
Qed.

Lemma connect_success st st' :
  MCPClient_connect st = (Normal true, st') →
  client st' = Some SdkClient ∧ transport st' = Some SdkTransport ∧
  catalog_kept st st' ∧
  env st' = (sdk_client_connect (sdk_new_client (sdk_new_transport (env st)).1).1).1 ∧
  trace st' = trace st ++ [ConsoleLog "Conexión exitosa con servidor MCP"].
Proof.
  unfold MCPClient_connect, try_eff.
  destruct (connect_steps st) as [[connected|e] st1] eqn:Hsteps.
  - intros [= -> ->]. revert Hsteps. unfold connect_steps.
    rewrite run_bind. unfold external at 1.
    destruct (sdk_new_transport (env st)) as [world1 [[]|e1]]; [|done].
    run_eff. unfold external at 1. cbn [env].
    destruct (sdk_new_client world1) as [world2 [[]|e2]]; [|done].
    run_eff. unfold external at 1. cbn [env].
    destruct (sdk_client_connect world2) as [world3 [[]|e3]]; [|done].
    run_eff. intros [= <-]. by repeat split.
  - rewrite run_bind.
    destruct (includes (err_message e) "connect"); cbn [console_error emit];
      rewrite run_bind;
      match goal with |- context [MCPClient_disconnect ?s] =>
        by destruct (MCPClient_disconnect s) as [[[]|] ?]
      end.
Qed.

End StartupFacts.

(** ** Invocations, the loop and its bound *)

Section LoopFacts.
Context `{Externals Env}.
Implicit Types st : State Env.

Lemma parse_arguments_result function arguments argumentsText st :
  get_prop function "arguments" = Normal arguments →
  ToString arguments = Normal argumentsText →
  ∃ st' evs,
    parse_arguments function st = (Normal (normalized_arguments arguments), st') ∧
    agent_kept st st' ∧ env st' = env st ∧
    trace st' = trace st ++ evs ∧ Forall is_output evs.
Proof.
  intros Hget Htext. rewrite (parse_arguments_cases _ arguments) by done.
  unfold normalized_arguments. rewrite Htext. cbn [mbind completion_bind].
  destruct (typeof_object arguments).
  { exists st, []. rewrite app_nil_r. split; [done|]. split; [apply agent_kept_refl|done]. }
  destruct (JSON_parse argumentsText) as [parsed|e].
  { exists st, []. rewrite app_nil_r. split; [done|]. split; [apply agent_kept_refl|done]. }
  eexists _, [_]. split; [done|]. split; [|by repeat constructor].
  repeat split; try done. by eexists.
Qed.

(** An invocation that has no [function] record. *)
Lemma run_tool_call_no_function function_call st :
  get_prop function_call "function" = Normal JUndefined ∨
  get_prop function_call "function" = Normal JNull →
  ∃ e, err_name e = "TypeError" ∧ run_tool_call function_call st = (Throw e, st).
Proof.
  intros [Hfunction|Hfunction]; unfold run_tool_call; rewrite run_bind; unfold lift at 1;
    rewrite Hfunction; rewrite run_bind; unfold lift at 1; cbn [get_prop];
    (eexists; split; last done); done.
Qed.

Lemma bind_ext {A B} (m : Eff Env A) (f g : A → Eff Env B) st :
  (∀ a st', f a st' = g a st') → (m ≫= f) st = (m ≫= g) st.
Proof.
  intros Hfg. rewrite !run_bind. destruct (m st) as [[a|e] st1]; [apply Hfg|done].
Qed.

End LoopFacts.

(** ** The decoder log, the chat and the catalog *)

Section DecoderLog.
Context `{Externals Env}.
Implicit Types st : State Env.

(** The text so far changes what a line adds, not whether it is read. *)
Lemma decode_line_text line fullResponse :
  match decode_line line "" with
  | Throw e => decode_line line fullResponse = Throw e
  | Normal (Return result) => decode_line line fullResponse = Normal (Return result)
  | Normal (Continue _) => ∃ text, decode_line line fullResponse = Normal (Continue text)
  end.
Proof.
  unfold decode_line. destruct (JSON_parse line) as [respJson|e]; [|done].
  cbn [mbind completion_bind]. destruct (function_call_of respJson) as [[call|]|e]; [done| |done].
  cbn [mbind completion_bind]. unfold accumulate.
  destruct (get_prop respJson "message") as [message|e]; [|done].
  cbn [mbind completion_bind].
  destruct (js_and message (get_prop message "content")) as [has_content|e]; [|done].
  cbn [mbind completion_bind]. destruct (truthy has_content); [|by eexists].
  destruct (get_prop message "content") as [content|e]; [|done].
  cbn [mbind completion_bind]. destruct (truthy content); [|by eexists].
  destruct (ToString content) as [fragment|e]; [|done].
  cbn [mbind completion_bind]. by eexists.
Qed.

End DecoderLog.

Section ChatFacts.
Context `{Externals Env}.
Implicit Types st : State Env.

Lemma ollama_tool_defaults mcpTool :
  tool_type (ollama_tool mcpTool) = "function" ∧
  tool_function_name (ollama_tool mcpTool) = "mcp_" +:+ mcp_name mcpTool ∧
  tool_function_description (ollama_tool mcpTool) ≠ "" ∧
  truthy (tool_function_parameters (ollama_tool mcpTool)) = true.
Proof.
  split; [done|]. split; [done|]. split.
  - cbn. destruct (mcp_description mcpTool) as [d|]; [|done].
    destruct (String.eqb_spec d ""); done.
  - cbn. destruct (mcp_inputSchema mcpTool) as [schema|]; [|done].
    by destruct (truthy schema) eqn:Hschema.
Qed.

Lemma prefixed_names_distinct (prefix : string) (names : list string) :
  NoDup names → NoDup ((λ toolName, prefix +:+ toolName) <$> names).
Proof.
  apply NoDup_fmap_2. intros a b Hab.
  assert (JsString.strip prefix (prefix +:+ a) = JsString.strip prefix (prefix +:+ b)) as Hstrip
    by by rewrite Hab.
  rewrite !strip_append in Hstrip. by injection Hstrip.
Qed.

End ChatFacts.

(** ** The further properties *)

Section Further.
Context `{Externals Env}.
Implicit Types st : State Env.

(** X1. [MCPClient.disconnect] never throws and leaves the catalog and the
    history alone. Without a client it only drops the transport; with a
    client that closes it drops both handles; with a client whose [close]
    throws it keeps both handles and reports the error on the console. *)
Theorem disconnect_releases_or_reports st :
  ∃ st',
    MCPClient_disconnect st = (Normal (), st') ∧ catalog_kept st st' ∧
    (client st = None → disconnected st' ∧ env st' = env st) ∧
    (∀ c, client st = Some c →
          (sdk_client_close (env st)).2 = Normal () →
          disconnected st' ∧ env st' = (sdk_client_close (env st)).1) ∧
    (∀ c e, client st = Some c →
            (sdk_client_close (env st)).2 = Throw e →
            client st' = Some c ∧ transport st' = transport st ∧
            trace st' =
              trace st ++
              [ConsoleError ("Error durante la desconexión: " +:+ error_to_string e)]).
Proof.
  destruct (no_throw_disconnect st) as [[] Hdone].
  pose proof (keeps_catalog_disconnect st) as Hkept.
  destruct (MCPClient_disconnect st) as [done st'] eqn:Hrun. cbn in Hdone, Hkept. subst done.
  exists st'. split; [done|]. split; [done|].
  revert Hrun. unfold MCPClient_disconnect, try_eff. rewrite run_bind. unfold gets at 1.
  destruct (client st) as [c|] eqn:Hc.
  - rewrite !run_bind. unfold external at 1.
    destruct (sdk_client_close (env st)) as [world' [[]|e]]; run_eff; intros [= <-].
    + split_and!; intros; simplify_eq/=; by repeat split.
    + split_and!; intros; simplify_eq/=; rewrite ?Hc; by repeat split.
  - run_eff. intros [= <-]. split_and!; intros; simplify_eq/=; by repeat split.
Qed.

(** X2. [MCPClient.listTools] refuses without a client, the state
    untouched; with a client it relays what the provider's [listTools]
    gives, value or error alike, changes nothing of the agent, and writes
    one console line exactly when the provider failed. *)
Theorem listing_relays_the_provider st :
  (client st = None → MCPClient_listTools st = (Throw not_connected, st)) ∧
  (client st ≠ None →
   ∃ st',
     MCPClient_listTools st = ((sdk_listTools (env st)).2, st') ∧
     env st' = (sdk_listTools (env st)).1 ∧ agent_kept st st' ∧
     trace st' = trace st ++
       match (sdk_listTools (env st)).2 with
       | Normal _ => []
       | Throw e => [ConsoleError ("Error al listar herramientas: " +:+ error_to_string e)]
       end).
Proof.
  split.
  - intros Hclient. unfold MCPClient_listTools. rewrite run_bind. unfold gets.
    by rewrite Hclient.
  - intros Hclient. unfold MCPClient_listTools. rewrite run_bind. unfold gets at 1.
    destruct (client st) as [c|]; [|done].
    unfold try_eff, external. destruct (sdk_listTools (env st)) as [world' [listed|e]].
    + eexists. split; [done|]. cbn. rewrite app_nil_r. repeat split; try done.
      exists []. by rewrite app_nil_r.
    + run_eff. eexists. split; [done|]. cbn. repeat split; try done. by eexists.
Qed.

(** X3. On an agent that holds a catalog and a client, [executeMcpTool]
    relays what the provider answers to the call, value or error alike,
    leaves the outside world as that call left it, and calls the provider
    exactly once, with the name and the arguments it was given. *)
Theorem remote_executor_relays_the_provider toolName args st :
  client st ≠ None → toolsMCP st ≠ None →
  (executeMcpTool toolName args st).1 = (sdk_callTool (env st) toolName args).2 ∧
  env (executeMcpTool toolName args st).2 = (sdk_callTool (env st) toolName args).1 ∧
  provider_calls (trace (executeMcpTool toolName args st).2) =
    provider_calls (trace st) ++ [(toolName, args)].
Proof.
  intros Hclient Hcatalog.
  destruct (executeMcpTool_connected toolName args st Hclient Hcatalog)
    as (st' & evs & -> & Henv & _ & _ & Htrace & Hout).
  split; [done|]. split; [done|]. by apply provider_calls_after_call with evs.
Qed.

(** X4. On an agent that holds a catalog and a client, [executeFunction]
    on a name ["mcp_" + n] never throws: it returns the serialized result
    of the provider's tool [n], or, when the provider fails, the text
    "Error ejecutando la herramienta MCP n: ..." with the provider's error;
    the provider is called exactly once, with [n] and the arguments. *)
Theorem dispatch_returns_what_the_provider_answers toolName args st :
  client st ≠ None → toolsMCP st ≠ None →
  (executeFunction (JStr ("mcp_" +:+ toolName)) args st).1 =
    Normal (provider_text toolName (sdk_callTool (env st) toolName args).2) ∧
  env (executeFunction (JStr ("mcp_" +:+ toolName)) args st).2 =
    (sdk_callTool (env st) toolName args).1 ∧
  provider_calls (trace (executeFunction (JStr ("mcp_" +:+ toolName)) args st).2) =
    provider_calls (trace st) ++ [(toolName, args)].
Proof.
  intros Hclient Hcatalog.
  destruct (executeFunction_connected toolName args st Hclient Hcatalog)
    as (st' & evs & -> & Henv & Htrace & Hout).
  split; [done|]. split; [done|]. by apply provider_calls_after_call with evs.
Qed.

(** X5. [executeFunction] on a name that is not a string: calling
    [startsWith] on it throws a [TypeError], which the [catch] block takes.
    When the name can be converted to a string, the error is logged with
    it and returned as the text "Error ejecutando la función: ...", and
    nothing else changes; when it cannot, the conversion in the [catch]
    block throws in its turn, and [executeFunction] throws that error
    with nothing logged. *)
Theorem dispatch_on_a_non_string_name_answers_or_throws functionName functionArgs st :
  (∀ s, functionName ≠ JStr s) →
  ∃ e,
    err_name e = "TypeError" ∧
    startsWith_any functionName "mcp_" = Throw e ∧
    executeFunction functionName functionArgs st =
      match ToString functionName with
      | Normal nameText =>
          (Normal (Some ("Error ejecutando la función: " +:+ error_to_string e)),
           reported ("Error ejecutando la función " +:+ nameText +:+ ": "
                     +:+ error_to_string e) st)
      | Throw conversion => (Throw conversion, st)
      end.
Proof.
  intros Hnot. destruct (startsWith_any_throws functionName Hnot) as (e & Hthrow & Hname).
  exists e. split; [done|]. split; [done|].
  unfold executeFunction, try_eff. rewrite run_bind. unfold lift at 1. rewrite Hthrow.
  run_eff. by destruct (ToString functionName).
Qed.

(** X6. Whatever the name and the state, one [executeFunction] calls the
    provider at most once; when it does, the name is a string ["mcp_" + n],
    the call is for [n] with the arguments unchanged, and the agent holds a
    client and a catalog. *)
Theorem dispatch_calls_the_provider_at_most_once functionName functionArgs st :
  ∃ calls,
    provider_calls (trace (executeFunction functionName functionArgs st).2) =
      provider_calls (trace st) ++ calls ∧
    (calls = [] ∨
     ∃ toolName,
       functionName = JStr ("mcp_" +:+ toolName) ∧ calls = [(toolName, functionArgs)] ∧
       client st ≠ None ∧ toolsMCP st ≠ None).
Proof. apply executeFunction_calls. Qed.

(** X7. The first half of [processFunctionCall], on the invocation of a
    remote tool by a connected agent, with arguments that can be converted
    to a string: the provider is called once, with the arguments as an
    object holds them, as a text parses to them, or with [{}] when the text
    does not parse; the history gets the invocation, with the arguments as
    the model sent them, and the provider's answer as its result. *)
Theorem tool_runs_on_the_normalized_arguments
    function_call function toolName arguments argumentsText st :
  get_prop function_call "function" = Normal function →
  get_prop function "name" = Normal (JStr ("mcp_" +:+ toolName)) →
  get_prop function "arguments" = Normal arguments →
  ToString arguments = Normal argumentsText →
  client st ≠ None → toolsMCP st ≠ None →
  ∃ st3,
    run_tool_call function_call st = (Normal (), st3) ∧
    env st3 = (sdk_callTool (env st) toolName (normalized_arguments arguments)).1 ∧
    provider_calls (trace st3) =
      provider_calls (trace st) ++ [(toolName, normalized_arguments arguments)] ∧
    messages st3 = messages st ++
      [assistant_call_message (call_id_at (length (messages st)))
         (JStr ("mcp_" +:+ toolName)) (encoded_arguments arguments);
       tool_result_message (call_id_at (length (messages st)))
         (JStr ("mcp_" +:+ toolName))
         (default default_result
            (provider_text toolName
               (sdk_callTool (env st) toolName (normalized_arguments arguments)).2))].
Proof.
  intros Hfunction Hname Harguments HargumentsText Hclient Hcatalog.
  destruct (run_tool_call_recorded _ _ _ _ ("mcp_" +:+ toolName) _ st Hfunction Hname
              Harguments eq_refl HargumentsText)
    as (functionArgs & st1 & executed & st2 & st3 & Hparse &
        Hexec & Hrun & Hkept1 & Hkept2 & Henv3 & _ & _ & _ & _ & [lines Htrace3] & Hmessages).
  destruct (parse_arguments_result function arguments _ st Harguments HargumentsText)
    as (st1' & evs1 & Hparse' & _ & Henv1 & Htrace1 & Hout1).
  rewrite Hparse in Hparse'. injection Hparse' as -> <-.
  destruct Hkept1 as (Hc1 & _ & _ & Hm1 & _).
  destruct (executeFunction_connected toolName (normalized_arguments arguments) st1)
    as (st2' & evs2 & Hexec' & Henv2 & Htrace2 & Hout2); [congruence..|].
  rewrite Hexec in Hexec'. injection Hexec' as -> <-.
  exists st3. split; [done|]. split; [by rewrite Henv3, Henv2, Henv1|].
  split; [|by rewrite Hmessages, Henv1].
  rewrite Htrace3, Htrace2, Htrace1.
  change (ToolCalled ?n ?a :: evs2) with ([ToolCalled n a] ++ evs2).
  assert (Forall is_output (LogError <$> lines)) as Hlines.
  { apply Forall_fmap, Forall_true. by intros line. }
  rewrite !provider_calls_app, (output_no_provider_call evs1),
    (output_no_provider_call evs2), (output_no_provider_call (LogError <$> lines)) by done.
  by rewrite !app_nil_r.
Qed.

(** X8. An invocation whose [function] is missing or [null] is dropped:
    reading its name throws a [TypeError], which [processFunctionCall]
    catches and logs; nothing is pushed, no request is sent and no tool is
    called. *)
Theorem invocation_without_function_is_dropped fuel modelName function_call st :
  get_prop function_call "function" = Normal JUndefined ∨
  get_prop function_call "function" = Normal JNull →
  ∃ e,
    err_name e = "TypeError" ∧
    processFunctionCall (S fuel) modelName function_call st =
      (Normal Finished,
       reported ("Error procesando la llamada a función: " +:+ error_to_string e) st).
Proof.
  intros Hfunction.
  destruct (run_tool_call_no_function function_call st Hfunction) as (e & Hname & Hthrow).
  exists e. split; [done|]. by apply processFunctionCall_throw.
Qed.

(** X9. The requests of one [processFunctionCall]: each names the model it
    was given, carries the merged catalog and no options, and the [i]-th of
    them carries the history as it was when it was sent, that is, the
    first [length + 2 (i + 1)] messages of the final history. *)
Theorem turn_requests_carry_the_history_so_far fuel modelName function_call st :
  ∃ reqs,
    requests (trace (processFunctionCall fuel modelName function_call st).2) =
      requests (trace st) ++ reqs ∧
    ∀ i r,
      reqs !! i = Some r →
      r = {| req_model := modelName;
             req_messages :=
               take (length (messages st) + 2 * S i)
                 (messages (processFunctionCall fuel modelName function_call st).2);
             req_tools := Some (getAllTools (builtInTools st) (toolsMCP st));
             req_options := None |}.
Proof.
  destruct (processFunctionCall_summary fuel modelName function_call st)
    as (outcome & st' & reqs & calls & pushed & -> & _ & _ & _ & Hreq & _ & _ & _ & Hcarried).
  by exists reqs.
Qed.

(** X10. One [processFunctionCall] never throws and never touches the
    handles or the catalog. It only appends to the history, and none of
    what it appends is a user message: two messages for each request it
    sends, and at most one more. It calls the provider at most once per
    request, and sends at most as many requests as the recursion is
    deep. *)
Theorem turn_pushes_two_messages_per_request fuel modelName function_call st :
  ∃ outcome st' reqs calls pushed,
    processFunctionCall fuel modelName function_call st = (Normal outcome, st') ∧
    gateway_kept st st' ∧
    messages st' = messages st ++ pushed ∧
    Forall (λ m, role m ≠ USER) pushed ∧
    requests (trace st') = requests (trace st) ++ reqs ∧
    provider_calls (trace st') = provider_calls (trace st) ++ calls ∧
    (length calls ≤ length reqs ≤ fuel)%nat ∧
    (2 * length reqs ≤ length pushed ≤ 2 * length reqs + 1)%nat.
Proof.
  destruct (processFunctionCall_summary fuel modelName function_call st)
    as (outcome & st' & reqs & calls & pushed & Hrun & Hgate & Hmessages & Huser & Hreq &
        Hcalls & Hcount & Hlen & _).
  by exists outcome, st', reqs, calls, pushed.
Qed.

(** X11. The requests of the chat loop: each names the model, carries the
    merged catalog and no options, and carries a prefix of the final
    history that is longer than the history the loop started from and
    longer than the prefix of the request before. *)
Theorem session_requests_are_growing_prefixes fuel modelName inputs st :
  ∃ ns,
    requests (trace (chat_loop fuel modelName inputs st).2) =
      requests (trace st) ++
      ((λ n, {| req_model := modelName;
                req_messages := take n (messages (chat_loop fuel modelName inputs st).2);
                req_tools := Some (getAllTools (builtInTools st) (toolsMCP st));
                req_options := None |}) <$> ns) ∧
    StronglySorted Nat.lt ns ∧
    Forall (λ n, length (messages st) < n ≤
                 length (messages (chat_loop fuel modelName inputs st).2))%nat ns.
Proof.
  destruct (chat_loop_summary fuel modelName inputs st)
    as (outcome & st' & -> & ns & calls & pushed & k & _ & _ & _ & _ & Hreq & _ & _ &
        Hsorted & Hbounds).
  by exists ns.
Qed.

(** X12. A chat loop that ends has appended to the history only; the user
    messages it appended are the lines typed before the first exit
    command, in order; it has sent at least one request for each of them
    and one more for each call to the provider; and it has not touched the
    handles or the catalog. *)
Theorem session_records_every_typed_line fuel modelName inputs st st' :
  chat_loop fuel modelName inputs st = (Normal Finished, st') →
  ∃ pushed reqs calls,
    messages st' = messages st ++ pushed ∧
    filter from_user pushed = text_message USER <$> typed_before_exit inputs ∧
    requests (trace st') = requests (trace st) ++ reqs ∧
    provider_calls (trace st') = provider_calls (trace st) ++ calls ∧
    (length calls + length (typed_before_exit inputs) ≤ length reqs)%nat ∧
    gateway_kept st st'.
Proof.
  intros Hrun.
  destruct (chat_loop_summary fuel modelName inputs st)
    as (outcome & st'' & Hrun' & ns & calls & pushed & k & Hgate & Hmessages & Huser & Hk &
        Hreq & Hcalls & Hcount & _).
  rewrite Hrun in Hrun'. injection Hrun' as <- <-.
  rewrite Hk in * by done.
  exists pushed, (prefixes_sent modelName (messages st') st ns), calls.
  split; [done|]. split; [by rewrite Huser, firstn_all|].
  split; [done|]. split; [done|]. split; [|done].
  unfold prefixes_sent. by rewrite length_fmap.
Qed.

(** X13. An exit command ends the chat loop: what is typed after it is
    never read. *)
Theorem exit_command_ends_the_session fuel modelName before command after st :
  is_exit_command command = true →
  chat_loop fuel modelName (before ++ command :: after) st =
  chat_loop fuel modelName before st.
Proof.
  intros Hexit. revert st. induction before as [|userMessage rest IH]; intros st.
  { cbn. by rewrite Hexit. }
  cbn [app chat_loop]. destruct (is_exit_command userMessage); [done|].
  apply bind_ext. intros [] ?. apply bind_ext. intros history ?.
  apply bind_ext. intros [text|function_call] ?.
  - destruct (String.eqb text ""); repeat (apply bind_ext; intros ? ?); apply IH.
  - apply bind_ext. intros [|] ?; [apply IH|done].
Qed.

(** X14. When the backend lists no model (its answer is not a 200 one, its
    body cannot be read, or it holds no model), [interactiveChat] returns
    without sending a request or calling a tool, and leaves the history
    and the agent as they were. *)
Theorem session_without_a_model_sends_nothing fuel inputs st :
  listed_models (env st) = [] →
  ∃ st',
    interactiveChat fuel inputs st = (Normal Finished, st') ∧
    messages st' = messages st ∧ gateway_kept st st' ∧
    requests (trace st') = requests (trace st) ∧
    provider_calls (trace st') = provider_calls (trace st) ∧
    env st' = (fetch_tags (env st)).1.
Proof.
  intros Hnone.
  destruct (interactiveChat_summary fuel inputs st)
    as (outcome & st0 & st' & Hrun & Hgate & Hreq & Hcalls & Hsum).
  rewrite Hnone in Hsum. cbn in Hsum. destruct Hsum as (-> & -> & Hmessages & Henv).
  by exists st0.
Qed.

(** X15. Every request of a session names the model chosen at its start
    (the default one if the backend lists it, else the first one listed),
    carries the merged catalog and no options, and a history that starts
    with the system prompt and goes on with at least one more message. *)
Theorem session_requests_name_the_selected_model fuel inputs st modelName :
  preferred_model (listed_models (env st)) = Some modelName →
  ∃ reqs,
    requests (trace (interactiveChat fuel inputs st).2) = requests (trace st) ++ reqs ∧
    Forall (λ r, req_model r = modelName ∧
                 req_tools r = Some (getAllTools (builtInTools st) (toolsMCP st)) ∧
                 req_options r = None ∧
                 ∃ m rest, req_messages r = text_message SYSTEM system_prompt :: m :: rest)
           reqs.
Proof.
  intros Hmodel.
  destruct (interactiveChat_summary fuel inputs st)
    as (outcome & st0 & st' & -> & Hgate & Hreq & Hcalls & Hsum).
  rewrite Hmodel in Hsum.
  destruct Hsum as (Hstart & ns & calls & pushed & k & Hgate' & Hmessages & _ & _ & Hreq' & _ &
                    _ & _ & Hbounds).
  exists (prefixes_sent modelName (messages st') st0 ns). cbn [snd].
  split; [by rewrite Hreq', Hreq|].
  unfold prefixes_sent. apply Forall_fmap. eapply Forall_impl; [exact Hbounds|].
  intros n [Hlow Hhigh]. cbn. destruct Hgate as (_ & _ & -> & ->).
  do 3 (split; [done|]).
  rewrite Hmessages, Hstart in *. cbn in Hlow, Hhigh.
  destruct n as [|[|n]]; [lia..|]. destruct pushed as [|m pushed]; [cbn in Hhigh; lia|].
  cbn. by eexists _, _.
Qed.

(** X17. [checkConnection] returns [true] on a 200 answer and throws
    otherwise, with a message that holds the status, or the message of the
    error [fetch] was rejected with; it never returns [false], and it
    changes nothing but the outside world. *)
Theorem connection_check_is_true_or_throws st :
  (checkConnection st).1 =
    match (fetch_tags (env st)).2 with
    | Normal (status, _) =>
        if decide (status = 200) then Normal true
        else Throw (Error ("No se pudo conectar al servidor de Ollama: "
                           +:+ "Error al conectarse: " +:+ pretty status))
    | Throw e =>
        Throw (Error ("No se pudo conectar al servidor de Ollama: " +:+ err_message e))
    end ∧
  (checkConnection st).1 ≠ Normal false ∧
  (checkConnection st).2 = (external fetch_tags st).2.
Proof.
  destruct (checkConnection_result st) as (st' & -> & ->). cbn [fst snd].
  destruct (fetch_tags (env st)) as [world' [[status data]|e]] eqn:Hfetch; cbn [snd];
    [destruct (decide (status = 200))|]; done.
Qed.

(** X18. When the connection check fails, [setup] logs the error and a
    hint and ends the process with code 1: [main] stops there, in the state
    [setup] left, so that no connection to the tool provider is tried, no
    session is started and no cleanup runs. *)
Theorem unreachable_backend_ends_the_program fuel inputs st :
  ¬ backend_reachable (env st) →
  setup st =
    (Normal (Exited 1),
     {| env := (fetch_tags (env st)).1; client := client st; transport := transport st;
        builtInTools := builtInTools st; toolsMCP := toolsMCP st; messages := messages st;
        trace := trace st ++
          [LogError ("❌ Error al conectarse a Ollama: "
                     +:+ error_to_string (check_error (fetch_tags (env st)).2));
           LogError "Asegúrate de que Ollama esté instalado y ejecutándose";
           ProcessExit 1] |}) ∧
  main fuel inputs st = (Normal Finished, (setup st).2).
Proof.
  intros Hnot. split; [by apply setup_unreachable|].
  unfold main. by rewrite setup_unreachable.
Qed.

(** X19. When the connection check passes, [setup] returns normally
    whatever the tool provider does, and leaves the local descriptors and
    the history alone. If [connect] succeeds the agent holds a client and a
    transport, and the cache holds what [listTools] listed, or nothing when
    [listTools] failed; if [connect] fails the cache is as it was. *)
Theorem setup_caches_the_catalog_it_lists st :
  backend_reachable (env st) →
  ∃ st',
    setup st = (Normal SetupDone, st') ∧
    builtInTools st' = builtInTools st ∧ messages st' = messages st ∧
    match MCPClient_connect (external fetch_tags st).2 with
    | (Normal true, st1) =>
        client st' = Some SdkClient ∧ transport st' = Some SdkTransport ∧
        env st' = (sdk_listTools (env st1)).1 ∧
        toolsMCP st' = match (sdk_listTools (env st1)).2 with
                       | Normal listed => Some listed
                       | Throw _ => None
                       end
    | (_, st1) => st' = st1 ∧ toolsMCP st' = toolsMCP st
    end.
Proof.
  intros Hreachable. unfold setup. rewrite run_bind. unfold try_eff at 1.
  rewrite run_bind, checkConnection_reachable by done. cbn [mret Eff_ret].
  set (st0 := (external fetch_tags st).2).
  assert (catalog_kept st st0) as (Hb0 & Hm0 & Hh0).
  { subst st0. unfold external. by destruct (fetch_tags (env st)). }
  rewrite run_bind. unfold try_eff at 1. rewrite run_bind.
  destruct (no_throw_connect st0) as [connected Hconnected].
  pose proof (keeps_catalog_connect st0) as (Hb1 & Hm1 & Hh1).
  destruct (MCPClient_connect st0) as [c st1] eqn:Hconnect.
  cbn in Hconnected, Hb1, Hm1, Hh1. subst c.
  destruct connected.
  - destruct (connect_success _ _ Hconnect) as (Hclient & Htransport & _).
    rewrite run_bind. unfold MCPClient_listTools at 1. rewrite run_bind.
    unfold gets at 1. rewrite Hclient. unfold try_eff at 1, external at 1.
    destruct (sdk_listTools (env st1)) as [world' [listed|e]];
      run_eff; (eexists; split; [done|]); cbn; repeat split; congruence.
  - run_eff. exists st1. repeat split; congruence.
Qed.

(** X20. When [connect] returns [true] the gateway holds a client and a
    transport, the three steps of the SDK have been run in order, one
    console line has been written, and the catalog and the history are as
    they were. *)
Theorem connect_success_sets_both_handles st st' :
  MCPClient_connect st = (Normal true, st') →
  client st' = Some SdkClient ∧ transport st' = Some SdkTransport ∧
  catalog_kept st st' ∧
  env st' = (sdk_client_connect (sdk_new_client (sdk_new_transport (env st)).1).1).1 ∧
  trace st' = trace st ++ [ConsoleLog "Conexión exitosa con servidor MCP"].
Proof. apply connect_success. Qed.

(** X22. The log of the decoder's loop, whatever the text accumulated so
    far: one line "Error al decodificar la respuesta: ..." for each line on
    which the [try] block throws, in the order of the lines, up to the line
    that makes the decoder return. [_processResponse] runs the loop on the
    lines of the trimmed response. *)
Theorem decoder_reports_each_failing_line (lines : list string) (fullResponse : string) :
  (decode_lines lines fullResponse).2 =
  decode_report <$> filter line_fails (scanned_lines lines).
Proof.
  revert fullResponse. induction lines as [|line rest IH]; intros fullResponse; [done|].
  cbn [decode_lines scanned_lines].
  pose proof (decode_line_text line fullResponse) as Htext.
  destruct (decode_line line "") as [[result|text]|e] eqn:Hline.
  - rewrite Htext. rewrite filter_cons_False; [done|]. unfold line_fails. rewrite Hline.
    by intros [].
  - destruct Htext as [text' ->]. rewrite filter_cons_False; [apply IH|].
    unfold line_fails. rewrite Hline. by intros [].
  - rewrite Htext. rewrite filter_cons_True by (unfold line_fails; by rewrite Hline).
    specialize (IH fullResponse). destruct (decode_lines rest fullResponse) as [result log].
    cbn in *. by rewrite IH.
Qed.

(** X23. The decoder returns at the first line that yields an invocation:
    the lines after it are neither decoded nor reported. *)
Theorem decoder_stops_at_the_first_invocation before line after fullResponse result :
  decode_line line "" = Normal (Return result) →
  decode_lines (before ++ line :: after) fullResponse =
  decode_lines (before ++ [line]) fullResponse.
Proof.
  intros Hline. revert fullResponse.
  induction before as [|first before IH]; intros fullResponse.
  - cbn [app decode_lines]. pose proof (decode_line_text line fullResponse) as Htext.
    rewrite Hline in Htext. by rewrite Htext.
  - cbn [app decode_lines].
    destruct (decode_line first fullResponse) as [[found|text]|e]; [done|apply IH|].
    by rewrite IH.
Qed.

(** X24. On a 200 answer whose body can be read, [OllamaAPIClient.chat]
    returns what the decoder makes of the body; it sends that one request,
    logs what the decoder reports and nothing else, and leaves the agent
    alone. *)
Theorem chat_hands_a_200_answer_to_the_decoder model history tools options st
    world' response responseText :
  let data := {| req_model := model; req_messages := history;
                 req_tools := tools; req_options := options |} in
  fetch_chat (env st) data = (world', Normal response) →
  status response = 200%nat →
  text response = Normal responseText →
  ∃ st',
    OllamaAPIClient_chat model history tools options st =
      (Normal (_processResponse responseText).1, st') ∧
    env st' = world' ∧ agent_kept st st' ∧
    trace st' = trace st ++ ChatSent data :: (_processResponse responseText).2.
Proof.
  intros data Hfetch Hstatus Htext.
  pose proof (quiet_chat model history tools options st) as Hkept.
  destruct (OllamaAPIClient_chat model history tools options st) as [result st'] eqn:Hrun.
  cbn in Hkept. exists st'.
  cut (result = Normal (_processResponse responseText).1 ∧ env st' = world' ∧
       trace st' = trace st ++ ChatSent data :: (_processResponse responseText).2).
  { by intros (-> & ? & ?). }
  revert Hrun. unfold OllamaAPIClient_chat, try_eff, chat_request. fold data.
  rewrite run_bind. cbn [emit]. rewrite run_bind. unfold external at 1. cbn [env].
  rewrite Hfetch. rewrite decide_False by (intros Hnot; by apply Hnot).
  rewrite run_bind. unfold lift at 1. rewrite Htext.
  destruct (_processResponse responseText) as [decoded log]. cbn [fst snd].
  rewrite run_bind.
  assert (∀ st0, emit_all log st0 =
            (Normal (), {| env := env st0; client := client st0; transport := transport st0;
                           builtInTools := builtInTools st0; toolsMCP := toolsMCP st0;
                           messages := messages st0; trace := trace st0 ++ log |}))
    as Hlog.
  { clear. induction log as [|ev log IH]; intros st0.
    - cbn. rewrite app_nil_r. by destruct st0.
    - cbn [emit_all]. rewrite run_bind. cbn [emit]. rewrite IH. cbn.
      by rewrite <-app_assoc. }
  rewrite Hlog. cbn. intros [= <- <-]. cbn. by rewrite <-app_assoc.
Qed.

(** X25. The merged catalog is the local descriptors followed by one entry
    for each remote tool, in the order of the remote catalog. Each of these
    entries is a function whose name is the remote name after ["mcp_"],
    whose description is not empty and whose parameter schema is truthy;
    remote tools with different names get different names. *)
Theorem merged_catalog_lists_remote_tools_in_order builtIn catalog :
  getAllTools builtIn (Some catalog) = builtIn ++ (ollama_tool <$> tools catalog) ∧
  Forall (λ advertised,
            tool_type advertised = "function" ∧
            tool_function_description advertised ≠ "" ∧
            truthy (tool_function_parameters advertised) = true)
         (ollama_tool <$> tools catalog) ∧
  tool_function_name <$> (ollama_tool <$> tools catalog) =
    (λ mcpTool, "mcp_" +:+ mcp_name mcpTool) <$> tools catalog ∧
  (NoDup (mcp_name <$> tools catalog) →
   NoDup (tool_function_name <$> (ollama_tool <$> tools catalog))).
Proof.
  split; [apply getAllTools_app|]. split; [|split].
  - apply Forall_fmap, Forall_true. intros mcpTool.
    destruct (ollama_tool_defaults mcpTool) as (? & _ & ? & ?). done.
  - by rewrite <-list_fmap_compose.
  - intros Hdistinct. rewrite <-list_fmap_compose.
    rewrite (list_fmap_compose mcp_name (λ toolName, "mcp_" +:+ toolName)).
    by apply prefixed_names_distinct.
Qed.

(** X29. An invocation whose arguments cannot be converted to a string
    ends the turn where it stands: the conversion throws in the [try] block
    around the arguments and again in its [catch] block, the outer [catch]
    block reports the error, and nothing else happens: nothing is pushed,
    no tool is run and no request is sent. *)
Theorem unconvertible_arguments_end_the_turn
    fuel modelName function_call function functionName arguments e st :
  get_prop function_call "function" = Normal function →
  get_prop function "name" = Normal functionName →
  get_prop function "arguments" = Normal arguments →
  ToString arguments = Throw e →
  processFunctionCall (S fuel) modelName function_call st =
    (Normal Finished,
     reported ("Error procesando la llamada a función: " +:+ error_to_string e) st).
Proof.
  intros Hfunction Hname Harguments Htext. apply processFunctionCall_throw.
  unfold run_tool_call. run_eff. rewrite Hfunction. run_eff. rewrite Hname. run_eff.
  rewrite (parse_arguments_cases _ arguments) by done. by rewrite Htext.
Qed.

End Further.

(** ** The further properties on the scripted examples *)

Section FurtherExamples.
Import Scripted.

Lemma remote_executor_relays_the_provider_witness :
  client lcm_session_connected ≠ None ∧ toolsMCP lcm_session_connected ≠ None ∧
  (executeMcpTool "lcm" lcm_arguments lcm_session_connected).1 = Normal lcm_result ∧
  provider_calls (trace (executeMcpTool "lcm" lcm_arguments lcm_session_connected).2) =
    [("lcm", lcm_arguments)].
Proof.
  split; [discriminate|]. split; [discriminate|].
  destruct (remote_executor_relays_the_provider "lcm" lcm_arguments lcm_session_connected)
    as (Hresult & _ & Hcalls); [discriminate..|].
  split; [exact Hresult|exact Hcalls].
Defined.

Lemma dispatch_returns_what_the_provider_answers_witness :
  client lcm_session_connected ≠ None ∧ toolsMCP lcm_session_connected ≠ None ∧
  (executeFunction (JStr ("mcp_" +:+ "lcm")) lcm_arguments lcm_session_connected).1 =
    Normal (Some (stringify lcm_result)) ∧
  (executeFunction (JStr ("mcp_" +:+ "ghost")) (JObj []) lcm_session_connected).1 =
    Normal (Some "Error ejecutando la herramienta MCP ghost: McpError: Tool ghost not found").
Proof.
  split; [discriminate|]. split; [discriminate|]. split.
  - destruct (dispatch_returns_what_the_provider_answers "lcm" lcm_arguments
                lcm_session_connected) as (Hresult & _); [discriminate..|].
    exact Hresult.
  - destruct (dispatch_returns_what_the_provider_answers "ghost" (JObj [])
                lcm_session_connected) as (Hresult & _); [discriminate..|].
    exact Hresult.
Defined.

Lemma dispatch_on_a_non_string_name_answers_or_throws_witness :
  (∃ e,
     err_name e = "TypeError" ∧
     executeFunction JUndefined (JObj []) lcm_session_connected =
       (Normal (Some ("Error ejecutando la función: " +:+ error_to_string e)),
        reported ("Error ejecutando la función undefined: " +:+ error_to_string e)
          lcm_session_connected)) ∧
  executeFunction unprintable (JObj []) lcm_session_connected =
    (Throw cannot_convert, lcm_session_connected).
Proof.
  split.
  - destruct (dispatch_on_a_non_string_name_answers_or_throws JUndefined (JObj [])
                lcm_session_connected) as (e & Hname & _ & Hrun); [discriminate|].
    exists e. split; [exact Hname|exact Hrun].
  - destruct (dispatch_on_a_non_string_name_answers_or_throws unprintable (JObj [])
                lcm_session_connected) as (e & _ & _ & Hrun); [discriminate|].
    exact Hrun.
Defined.

Lemma tool_runs_on_the_normalized_arguments_witness :
  normalized_arguments (JStr "4 and 6") = JObj [] ∧
  ∃ st3,
    run_tool_call call_mcp_lcm_text lcm_session_connected = (Normal (), st3) ∧
    provider_calls (trace st3) = [("lcm", JObj [])] ∧
    messages st3 = messages lcm_session_connected ++
      [assistant_call_message "call_2" (JStr "mcp_lcm") (JStr (stringify (JStr "4 and 6")));
       tool_result_message "call_2" (JStr "mcp_lcm") (stringify lcm_result)].
Proof.
  split; [reflexivity|].
  destruct (tool_runs_on_the_normalized_arguments call_mcp_lcm_text
              (JObj [("name", JStr "mcp_lcm"); ("arguments", JStr "4 and 6")])
              "lcm" (JStr "4 and 6") "4 and 6" lcm_session_connected)
    as (st3 & Hrun & _ & Hcalls & Hmessages); [reflexivity..|discriminate|discriminate|].
  exists st3. split; [exact Hrun|]. split; [exact Hcalls|exact Hmessages].
Defined.

Lemma invocation_without_function_is_dropped_witness :
  get_prop (JObj []) "function" = Normal JUndefined ∧
  ∃ e,
    err_name e = "TypeError" ∧
    processFunctionCall 1 "mistral:latest" (JObj []) lcm_session =
      (Normal Finished,
       reported ("Error procesando la llamada a función: " +:+ error_to_string e)
         lcm_session).
Proof.
  split; [reflexivity|].
  apply (invocation_without_function_is_dropped 0 "mistral:latest" (JObj []) lcm_session).
  left. reflexivity.
Defined.

Lemma session_records_every_typed_line_witness :
  let st' := (chat_loop 3 "mistral:latest" (lcm_question ++ ["/exit"; "unread"])
                two_questions).2 in
  ∃ pushed reqs calls,
    messages st' = messages two_questions ++ pushed ∧
    filter from_user pushed = [text_message USER "lcm of 4 and 6?"] ∧
    requests (trace st') = requests (trace two_questions) ++ reqs ∧
    provider_calls (trace st') = provider_calls (trace two_questions) ++ calls ∧
    (length calls + 1 ≤ length reqs)%nat ∧
    gateway_kept two_questions st'.
Proof.
  intros st'.
  apply (session_records_every_typed_line 3 "mistral:latest"
           (lcm_question ++ ["/exit"; "unread"]) two_questions st').
  vm_compute. reflexivity.
Defined.

Lemma exit_command_ends_the_session_witness :
  is_exit_command "/EXIT" = true ∧
  chat_loop 3 "mistral:latest" (lcm_question ++ "/EXIT" :: ["unread"]) two_questions =
  chat_loop 3 "mistral:latest" lcm_question two_questions.
Proof.
  split; [reflexivity|].
  apply (exit_command_ends_the_session 3 "mistral:latest" lcm_question "/EXIT" ["unread"]
           two_questions).
  reflexivity.
Defined.

Lemma session_without_a_model_sends_nothing_witness :
  listed_models (env (new_agent no_models)) = [] ∧
  ∃ st',
    interactiveChat 3 lcm_question (new_agent no_models) = (Normal Finished, st') ∧
    messages st' = [] ∧ gateway_kept (new_agent no_models) st' ∧
    requests (trace st') = [] ∧ provider_calls (trace st') = [] ∧
    env st' = no_models.
Proof.
  split; [reflexivity|].
  destruct (session_without_a_model_sends_nothing 3 lcm_question (new_agent no_models))
    as (st' & Hrun & Hmessages & Hgate & Hreq & Hcalls & Henv); [reflexivity|].
  exists st'. split; [exact Hrun|]. split; [exact Hmessages|]. split; [exact Hgate|].
  split; [exact Hreq|]. split; [exact Hcalls|exact Henv].
Defined.

Lemma session_requests_name_the_selected_model_witness :
  preferred_model (listed_models (env two_questions)) = Some "mistral:latest" ∧
  ∃ reqs,
    requests (trace (interactiveChat 3 lcm_question two_questions).2) =
      requests (trace two_questions) ++ reqs ∧
    Forall (λ r, req_model r = "mistral:latest" ∧
                 req_tools r = Some (getAllTools (builtInTools two_questions)
                                       (toolsMCP two_questions)) ∧
                 req_options r = None ∧
                 ∃ m rest, req_messages r = text_message SYSTEM system_prompt :: m :: rest)
           reqs.
Proof.
  split; [vm_compute; reflexivity|].
  apply (session_requests_name_the_selected_model 3 lcm_question two_questions
           "mistral:latest").
  vm_compute. reflexivity.
Defined.

Lemma unreachable_backend_ends_the_program_witness :
  ¬ backend_reachable backend_down ∧
  (setup (new_agent backend_down)).1 = Normal (Exited 1) ∧
  trace (setup (new_agent backend_down)).2 =
    [LogError ("❌ Error al conectarse a Ollama: "
               +:+ "Error: No se pudo conectar al servidor de Ollama: fetch failed");
     LogError "Asegúrate de que Ollama esté instalado y ejecutándose";
     ProcessExit 1] ∧
  main 3 lcm_question (new_agent backend_down) =
    (Normal Finished, (setup (new_agent backend_down)).2).
Proof.
  assert (¬ backend_reachable (env (new_agent backend_down))) as Hdown.
  { intros [data Hdata]. discriminate Hdata. }
  split; [exact Hdown|].
  destruct (unreachable_backend_ends_the_program 3 lcm_question (new_agent backend_down) Hdown)
    as [Hsetup Hmain].
  split; [by rewrite Hsetup|]. split; [by rewrite Hsetup|exact Hmain].
Defined.

Lemma setup_caches_the_catalog_it_lists_witness :
  backend_reachable (world []) ∧
  ∃ st',
    setup (new_agent (world [])) = (Normal SetupDone, st') ∧
    client st' = Some SdkClient ∧ transport st' = Some SdkTransport ∧
    toolsMCP st' = Some basic_catalog.
Proof.
  assert (backend_reachable (env (new_agent (world [])))) as Hup.
  { eexists. reflexivity. }
  split; [exact Hup|].
  destruct (setup_caches_the_catalog_it_lists (new_agent (world [])) Hup)
    as (st' & Hsetup & _ & _ & Hconnected).
  exists st'. split; [exact Hsetup|].
  destruct Hconnected as (Hclient & Htransport & _ & Hcatalog).
  split; [exact Hclient|]. split; [exact Htransport|exact Hcatalog].
Defined.

Lemma connect_success_sets_both_handles_witness :
  let st' := (MCPClient_connect (new_agent (world []))).2 in
  (MCPClient_connect (new_agent (world []))).1 = Normal true ∧
  client st' = Some SdkClient ∧ transport st' = Some SdkTransport ∧
  trace st' = [ConsoleLog "Conexión exitosa con servidor MCP"].
Proof.
  intros st'. split; [reflexivity|].
  destruct (connect_success_sets_both_handles (new_agent (world [])) st')
    as (Hclient & Htransport & _ & _ & Htrace); [reflexivity|].
  split; [exact Hclient|]. split; [exact Htransport|exact Htrace].
Defined.

Lemma decoder_stops_at_the_first_invocation_witness :
  decode_line (stringify (invocation_record [call_f])) "" =
    Normal (Return (InvocationResult call_f)) ∧
  decode_lines ([stringify (content_record "A")]
                ++ stringify (invocation_record [call_f]) :: ["not decoded"]) "" =
  decode_lines ([stringify (content_record "A")]
                ++ [stringify (invocation_record [call_f])]) "".
Proof.
  split; [vm_compute; reflexivity|].
  apply (decoder_stops_at_the_first_invocation [stringify (content_record "A")]
           (stringify (invocation_record [call_f])) ["not decoded"] ""
           (InvocationResult call_f)).
  vm_compute. reflexivity.
Defined.

Lemma chat_hands_a_200_answer_to_the_decoder_witness :
  ∃ st',
    OllamaAPIClient_chat "mistral:latest" (messages lcm_session) None None lcm_session =
      (Normal (TextResult lcm_answer), st') ∧
    env st' = world [] ∧
    trace st' = trace lcm_session ++
      [ChatSent {| req_model := "mistral:latest"; req_messages := messages lcm_session;
                   req_tools := None; req_options := None |}].
Proof.
  destruct (chat_hands_a_200_answer_to_the_decoder "mistral:latest" (messages lcm_session)
              None None lcm_session (world [])
              {| status := 200;
                 text := Normal (stringify (content_record lcm_answer)
                                 +:+ String JsString.LF "") |}
              (stringify (content_record lcm_answer) +:+ String JsString.LF ""))
    as (st' & Hrun & Henv & _ & Htrace); [reflexivity..|].
  exists st'. split; [exact Hrun|]. split; [exact Henv|exact Htrace].
Defined.

Lemma unconvertible_arguments_end_the_turn_witness :
  ToString unprintable = Throw cannot_convert ∧
  processFunctionCall 1 "mistral:latest" call_mcp_lcm_unprintable lcm_session_connected =
    (Normal Finished,
     reported ("Error procesando la llamada a función: " +:+ error_to_string cannot_convert)
       lcm_session_connected).
Proof.
  split; [reflexivity|].
  apply (unconvertible_arguments_end_the_turn 0 "mistral:latest" call_mcp_lcm_unprintable
           (JObj [("name", JStr "mcp_lcm"); ("arguments", unprintable)]) (JStr "mcp_lcm")
           unprintable cannot_convert lcm_session_connected);
    reflexivity.
Defined.

End FurtherExamples.
